(** * Request admission and pacing engine of 45telega

    A shallow embedding of [mcp_telegram/rate_limiter.py] and of the retry
    wrapper of [mcp_telegram/tools.py], followed by the properties of the
    specification that were checked against it.

    Conventions of the embedding:
    - Python [int] is [Z]; the counters are unbounded.
    - [time.time()] returns a float number of seconds; float arithmetic is
      idealised as exact arithmetic on rationals ([Q]).
    - [datetime.now()] is a naive wall-clock instant with microsecond
      resolution: [Z] microseconds.  [timedelta.days] is the floor of the
      difference divided by one day, as Python normalises it.
    - every clock reading a function makes is an explicit argument, in the
      order in which the source reads the clock.
    - mutation of [self] is explicit state passing; exceptions are a result
      type, and a raised exception keeps the mutations made before it. *)

From Stdlib Require Import ZArith QArith Lqa Lia List String Ascii Bool.
From stdpp Require Import base gmap strings pretty.
Import ListNotations.

Open Scope Z_scope.

(** ** Python values used by the engine *)

Module Py.

(** [datetime.now()], in microseconds. *)
Definition datetime := Z.

Definition microseconds_per_day : Z := 86400000000.

(** [(a - b).days] *)
Definition timedelta_days (a b : datetime) : Z :=
  (a - b) / microseconds_per_day.

(** The exceptions that matter to the engine.  [CancelledError] derives
    from [BaseException] only; the others derive from [Exception]. *)
Inductive exn :=
| IndexError
| ZeroDivisionError
| FloodWaitError (seconds : Z)
| RuntimeError (msg : string)
| OtherException (name : string)
| CancelledError.

(** [isinstance(e, Exception)] *)
Definition is_Exception (e : exn) : bool :=
  match e with
  | CancelledError => false
  | _ => true
  end.

(** [str.lower()] on one character.  Method names are ASCII identifiers;
    bytes outside [A-Z] are kept. *)
Definition lower_ascii (c : ascii) : ascii :=
  let n := nat_of_ascii c in
  if ((65 <=? n)%nat && (n <=? 90)%nat)%bool then ascii_of_nat (n + 32) else c.

Fixpoint lower (s : string) : string :=
  match s with
  | EmptyString => EmptyString
  | String c s' => String (lower_ascii c) (lower s')
  end.

(** [needle in s]: substring test. *)
Fixpoint contains (needle s : string) : bool :=
  if String.prefix needle s then true
  else match s with
       | EmptyString => false
       | String _ s' => contains needle s'
       end.

(** [x in {...}] for a set literal of strings. *)
Definition mem (x : string) (l : list string) : bool :=
  existsb (String.eqb x) l.

End Py.

(** ** [RateLimitConfig] *)

Record RateLimitConfig := {
  global_limit : Z;
  chat_limit : Z;
  group_limit : Z;
  resolve_daily_limit : Z;
  max_retries : Z;
  max_flood_wait : Z;
  max_concurrent : Z;
  min_delay : Q;
  max_delay : Q
}.

(** The dataclass defaults. *)
Definition default_config : RateLimitConfig := {|
  global_limit := 30;
  chat_limit := 1;
  group_limit := 20;
  resolve_daily_limit := 200;
  max_retries := 3;
  max_flood_wait := 300;
  max_concurrent := 5;
  min_delay := 1 # 10;
  max_delay := 1 # 2
|}.

Definition with_limits (g c gr r : Z) : RateLimitConfig := {|
  global_limit := g;
  chat_limit := c;
  group_limit := gr;
  resolve_daily_limit := r;
  max_retries := max_retries default_config;
  max_flood_wait := max_flood_wait default_config;
  max_concurrent := max_concurrent default_config;
  min_delay := min_delay default_config;
  max_delay := max_delay default_config
|}.

(** [x or d] for an [Optional[int]]: [None] and [0] are falsy. *)
Definition or_default (x : option Z) (d : Z) : Z :=
  match x with
  | Some v => if v =? 0 then d else v
  | None => d
  end.

Definition from_env (gl cl grl rdl : option Z) (enabled : bool) : RateLimitConfig :=
  if enabled then
    with_limits (or_default gl 30) (or_default cl 1)
                (or_default grl 20) (or_default rdl 200)
  else with_limits 1000 100 1000 10000.

(** ** [RateLimitStats] *)

Record RateLimitStats := {
  total_requests : Z;
  successful_requests : Z;
  rate_limited_requests : Z;
  flood_errors : Z;
  last_request_time : option Py.datetime;
  last_flood_time : option Py.datetime;
  resolve_requests_today : Z;
  resolve_last_reset : option Py.datetime
}.

Module Stats.

Definition fresh : RateLimitStats := {|
  total_requests := 0;
  successful_requests := 0;
  rate_limited_requests := 0;
  flood_errors := 0;
  last_request_time := None;
  last_flood_time := None;
  resolve_requests_today := 0;
  resolve_last_reset := None
|}.

Definition record_request (now : Py.datetime) (s : RateLimitStats) : RateLimitStats := {|
  total_requests := total_requests s + 1;
  successful_requests := successful_requests s;
  rate_limited_requests := rate_limited_requests s;
  flood_errors := flood_errors s;
  last_request_time := Some now;
  last_flood_time := last_flood_time s;
  resolve_requests_today := resolve_requests_today s;
  resolve_last_reset := resolve_last_reset s
|}.

Definition record_success (s : RateLimitStats) : RateLimitStats := {|
  total_requests := total_requests s;
  successful_requests := successful_requests s + 1;
  rate_limited_requests := rate_limited_requests s;
  flood_errors := flood_errors s;
  last_request_time := last_request_time s;
  last_flood_time := last_flood_time s;
  resolve_requests_today := resolve_requests_today s;
  resolve_last_reset := resolve_last_reset s
|}.

Definition record_rate_limited (s : RateLimitStats) : RateLimitStats := {|
  total_requests := total_requests s;
  successful_requests := successful_requests s;
  rate_limited_requests := rate_limited_requests s + 1;
  flood_errors := flood_errors s;
  last_request_time := last_request_time s;
  last_flood_time := last_flood_time s;
  resolve_requests_today := resolve_requests_today s;
  resolve_last_reset := resolve_last_reset s
|}.

Definition record_flood_error (now : Py.datetime) (s : RateLimitStats) : RateLimitStats := {|
  total_requests := total_requests s;
  successful_requests := successful_requests s;
  rate_limited_requests := rate_limited_requests s;
  flood_errors := flood_errors s + 1;
  last_request_time := last_request_time s;
  last_flood_time := Some now;
  resolve_requests_today := resolve_requests_today s;
  resolve_last_reset := resolve_last_reset s
|}.

(** The guard shared by [record_resolve_request] and
    [RateLimiter.check_resolve_limit]:
    [resolve_last_reset is None or (now - resolve_last_reset).days >= 1]. *)
Definition rollover_due (now : Py.datetime) (s : RateLimitStats) : bool :=
  match resolve_last_reset s with
  | None => true
  | Some r => 1 <=? Py.timedelta_days now r
  end.

(** The body of that guard: counter to zero, reset instant to [now]. *)
Definition reset_resolve (now : Py.datetime) (s : RateLimitStats) : RateLimitStats := {|
  total_requests := total_requests s;
  successful_requests := successful_requests s;
  rate_limited_requests := rate_limited_requests s;
  flood_errors := flood_errors s;
  last_request_time := last_request_time s;
  last_flood_time := last_flood_time s;
  resolve_requests_today := 0;
  resolve_last_reset := Some now
|}.

Definition bump_resolve (s : RateLimitStats) : RateLimitStats := {|
  total_requests := total_requests s;
  successful_requests := successful_requests s;
  rate_limited_requests := rate_limited_requests s;
  flood_errors := flood_errors s;
  last_request_time := last_request_time s;
  last_flood_time := last_flood_time s;
  resolve_requests_today := resolve_requests_today s + 1;
  resolve_last_reset := resolve_last_reset s
|}.

Definition record_resolve_request (now : Py.datetime) (s : RateLimitStats) : RateLimitStats :=
  let s1 := if rollover_due now s then reset_resolve now s else s in
  bump_resolve s1.

(** The two derived rates; [int / int] is true division. *)
Definition success_rate (s : RateLimitStats) : Q :=
  if total_requests s =? 0 then 0%Q
  else (inject_Z (successful_requests s) / inject_Z (total_requests s))%Q.

Definition flood_rate (s : RateLimitStats) : Q :=
  if total_requests s =? 0 then 0%Q
  else (inject_Z (flood_errors s) / inject_Z (total_requests s))%Q.

End Stats.

(** ** Sliding windows *)

Definition Qlt_bool (x y : Q) : bool := negb (Qle_bool y x).

Module Window.

(** [_cleanup_old_requests]: [now] is the function's own clock reading.
    [while queue and queue[0] <= now - window_seconds: queue.popleft()] *)
Fixpoint _cleanup_old_requests (now : Q) (queue : list Q) (window_seconds : Z) : list Q :=
  match queue with
  | [] => []
  | q0 :: rest =>
      if Qle_bool q0 (now - inject_Z window_seconds)
      then _cleanup_old_requests now rest window_seconds
      else queue
  end.

(** [record]: [queue.append(now)] *)
Definition record (queue : list Q) (now : Q) : list Q := queue ++ [now].

End Window.

(** ** Results and the effect monad of the limiter *)

Inductive result (A : Type) :=
| Ok (a : A)
| Raise (e : Py.exn)
| Blocked.   (* the task waits for a concurrency slot; nothing further runs *)
Arguments Ok {A} a.
Arguments Raise {A} e.
Arguments Blocked {A}.

Record RateLimiter := {
  config : RateLimitConfig;
  stats : RateLimitStats;
  global_queue : list Q;
  chat_queues : gmap string (list Q);
  semaphore : Z            (* free concurrency slots *)
}.

(** What one task sees: the limiter, and the durations it has passed to
    [asyncio.sleep], oldest first. *)
Record World := {
  limiter : RateLimiter;
  slept : list Q
}.

Definition new_limiter (c : RateLimitConfig) : RateLimiter := {|
  config := c;
  stats := Stats.fresh;
  global_queue := [];
  chat_queues := ∅;
  semaphore := max_concurrent c
|}.

Definition new_world (c : RateLimitConfig) : World :=
  {| limiter := new_limiter c; slept := [] |}.

Definition set_stats (f : RateLimitStats -> RateLimitStats) (L : RateLimiter) : RateLimiter := {|
  config := config L;
  stats := f (stats L);
  global_queue := global_queue L;
  chat_queues := chat_queues L;
  semaphore := semaphore L
|}.

Definition set_global_queue (q : list Q) (L : RateLimiter) : RateLimiter := {|
  config := config L;
  stats := stats L;
  global_queue := q;
  chat_queues := chat_queues L;
  semaphore := semaphore L
|}.

Definition set_chat_queue (chat_id : string) (q : list Q) (L : RateLimiter) : RateLimiter := {|
  config := config L;
  stats := stats L;
  global_queue := global_queue L;
  chat_queues := <[chat_id := q]> (chat_queues L);
  semaphore := semaphore L
|}.

Definition set_semaphore (v : Z) (L : RateLimiter) : RateLimiter := {|
  config := config L;
  stats := stats L;
  global_queue := global_queue L;
  chat_queues := chat_queues L;
  semaphore := v
|}.

(** [self.chat_queues[chat_id]] on a [defaultdict(deque)]. *)
Definition chat_queue (chat_id : string) (L : RateLimiter) : list Q :=
  default [] (chat_queues L !! chat_id).

Module Eff.

Definition M (A : Type) : Type := World -> result A * World.

Definition ret {A} (a : A) : M A := fun w => (Ok a, w).

Definition bind {A B} (m : M A) (k : A -> M B) : M B :=
  fun w =>
    match m w with
    | (Ok a, w') => k a w'
    | (Raise e, w') => (Raise e, w')
    | (Blocked, w') => (Blocked, w')
    end.

Definition raise {A} (e : Py.exn) : M A := fun w => (Raise e, w).

Definition block {A} : M A := fun w => (Blocked, w).

Definition gets {A} (f : RateLimiter -> A) : M A :=
  fun w => (Ok (f (limiter w)), w).

Definition modify (f : RateLimiter -> RateLimiter) : M unit :=
  fun w => (Ok tt, {| limiter := f (limiter w); slept := slept w |}).

Definition lift {A} (r : result A) : M A := fun w => (r, w).

(** [await asyncio.sleep(d)] *)
Definition sleep (d : Q) : M unit :=
  fun w => (Ok tt, {| limiter := limiter w; slept := slept w ++ [d] |}).

(** What leaving a [with] block on an exception does: the exit handler
    runs, the exception goes on. *)
Definition on_raise {A} (body : M A) (cleanup : RateLimiter -> RateLimiter) : M A :=
  fun w =>
    match body w with
    | (Raise e, w') => (Raise e, {| limiter := cleanup (limiter w'); slept := slept w' |})
    | other => other
    end.

End Eff.

Declare Scope eff_scope.
Delimit Scope eff_scope with eff.
Notation "'do' x <- c ;; k" := (Eff.bind c (fun x => k))
  (at level 10, x name, c at level 99, k at level 200) : eff_scope.

(** ** [RateLimiter] *)

(** The [chat_id] argument: annotated [Optional[str]], and given the integer
    identifiers of the tool arguments by the wrapper. *)
Inductive chat_ref :=
| ChatInt (n : Z)
| ChatStr (s : string).

Module Limiter.
Import Eff.
Local Open Scope eff_scope.

(** [if chat_id:] *)
Definition truthy (chat_id : option chat_ref) : bool :=
  match chat_id with
  | None => false
  | Some (ChatInt n) => negb (n =? 0)
  | Some (ChatStr s) => negb (String.eqb s "")
  end.

(** [str(chat_id)] *)
Definition str (chat_id : option chat_ref) : string :=
  match chat_id with
  | None => "None"
  | Some (ChatInt n) => pretty n
  | Some (ChatStr s) => s
  end.

(** The limit check common to both window functions:
    [if len(queue) >= max_requests:
         wait_time = window_seconds - (now - queue[0])
         if wait_time > 0: ...sleep(wait_time)...]
    The value is the duration to sleep, if any; [queue[0]] on an empty
    deque raises [IndexError]. *)
Definition limit_wait (max_requests window_seconds : Z) (now : Q) (queue : list Q)
  : result (option Q) :=
  if max_requests <=? Z.of_nat (length queue) then
    match queue with
    | [] => Raise Py.IndexError
    | q0 :: _ =>
        let wait_time := (inject_Z window_seconds - (now - q0))%Q in
        if Qlt_bool 0 wait_time then Ok (Some wait_time) else Ok None
    end
  else Ok None.

(** [if wait_time > 0: await asyncio.sleep(wait_time);
                       self.stats.record_rate_limited()] *)
Definition wait_out (w : option Q) : M unit :=
  match w with
  | Some wait_time =>
      do _ <- sleep wait_time ;;
      modify (set_stats Stats.record_rate_limited)
  | None => ret tt
  end.

(** [now] is read on entry, [now_c] inside [_cleanup_old_requests]. *)
Definition _wait_for_global_limit (now now_c : Q) : M unit :=
  do queue <- gets global_queue ;;
  let queue := Window._cleanup_old_requests now_c queue 60 in
  do _ <- modify (set_global_queue queue) ;;
  do limit <- gets (fun L => global_limit (config L)) ;;
  do w <- lift (limit_wait limit 60 now queue) ;;
  do _ <- wait_out w ;;
  modify (set_global_queue (Window.record queue now)).

Definition _wait_for_chat_limit (chat_id : string) (is_group : bool) (now now_c : Q)
  : M unit :=
  do chat_queue <- gets (chat_queue chat_id) ;;
  do _ <- modify (set_chat_queue chat_id chat_queue) ;;
  let window_seconds := if is_group then 60 else 1 in
  do max_requests <-
    gets (fun L => if is_group then group_limit (config L) else chat_limit (config L)) ;;
  let chat_queue := Window._cleanup_old_requests now_c chat_queue window_seconds in
  do _ <- modify (set_chat_queue chat_id chat_queue) ;;
  do w <- lift (limit_wait max_requests window_seconds now chat_queue) ;;
  do _ <- wait_out w ;;
  modify (set_chat_queue chat_id (Window.record chat_queue now)).

(** [base_delay] is the draw of [random.uniform(min_delay, max_delay)];
    [base_delay / priority] raises [ZeroDivisionError] for priority 0. *)
Definition _add_human_delay (base_delay : Q) (priority : Z) : M unit :=
  if priority =? 0 then raise Py.ZeroDivisionError
  else sleep (base_delay / inject_Z priority)%Q.

Definition group_methods : list string :=
  [ "get_chat_members"; "get_chat_admins"; "ban_chat_member";
    "unban_chat_member"; "kick_chat_member"; "promote_to_admin";
    "add_chat_member"; "get_chat_online_count" ]%string.

Definition _determine_chat_type (chat_id : option chat_ref) (method_name : string) : bool :=
  Py.mem (Py.lower method_name) group_methods.

Definition check_resolve_limit (now : Py.datetime) : M bool :=
  do due <- gets (fun L => Stats.rollover_due now (stats L)) ;;
  do _ <- (if due then modify (set_stats (Stats.reset_resolve now)) else ret tt) ;;
  gets (fun L => resolve_requests_today (stats L) <? resolve_daily_limit (config L)).

(** [async with self.semaphore:] up to the point where the body yields:
    the slot stays held while the generator is suspended at its [yield];
    a body that raises gives the slot back. *)
Definition with_semaphore {A} (body : M A) : M A :=
  do v <- gets semaphore ;;
  if 0 <? v then
    do _ <- modify (set_semaphore (v - 1)) ;;
    on_raise body (fun L => set_semaphore (semaphore L + 1) L)
  else block.

(** The statements of the [try] block of [acquire], any of which may fail
    unexpectedly. *)
Inductive point :=
| AtResolveCheck
| AtResolveRecord
| AtSemaphore
| AtRecordRequest
| AtGlobalLimit
| AtChatLimit
| AtHumanDelay.

#[export] Instance point_eq_dec : EqDecision point.
Proof. solve_decision. Defined.

(** What one run of [acquire] takes from its environment: the clock
    readings in source order, the random draw, and the unexpected
    failures ([fault p = Some e]: statement [p] raises [e]). *)
Record Readings := {
  dt_check : Py.datetime;
  dt_resolve : Py.datetime;
  dt_request : Py.datetime;
  t_global : Q;
  t_global_clean : Q;
  t_chat : Q;
  t_chat_clean : Q;
  uniform : Q;
  fault : point -> option Py.exn
}.

Definition fault_at (r : Readings) (p : point) : M unit :=
  match fault r p with
  | Some e => raise e
  | None => ret tt
  end.

(** The daily-quota gate at the head of the [try] block:
    [if 'resolve' in method_name.lower():
         if not self.check_resolve_limit(): yield False; return
         self.stats.record_resolve_request()]
    [false] stands for the [yield False; return]. *)
Definition resolve_gate (r : Readings) (method_name : string) : M bool :=
  if Py.contains "resolve" (Py.lower method_name) then
    do _ <- fault_at r AtResolveCheck ;;
    do ok <- check_resolve_limit (dt_check r) ;;
    if negb ok then ret false
    else
      do _ <- fault_at r AtResolveRecord ;;
      do _ <- modify (set_stats (Stats.record_resolve_request (dt_resolve r))) ;;
      ret true
  else ret true.

(** The body of [async with self.semaphore:] up to [yield True]. *)
Definition paced (r : Readings) (method_name : string)
    (chat_id : option chat_ref) (priority : Z) : M bool :=
  do _ <- fault_at r AtRecordRequest ;;
  do _ <- modify (set_stats (Stats.record_request (dt_request r))) ;;
  do _ <- fault_at r AtGlobalLimit ;;
  do _ <- _wait_for_global_limit (t_global r) (t_global_clean r) ;;
  do _ <- (if truthy chat_id then
             do _ <- fault_at r AtChatLimit ;;
             let is_group := _determine_chat_type chat_id method_name in
             _wait_for_chat_limit (str chat_id) is_group (t_chat r) (t_chat_clean r)
           else ret tt) ;;
  do _ <- fault_at r AtHumanDelay ;;
  do _ <- _add_human_delay (uniform r) priority ;;
  ret true.

(** The concurrency gate and what it guards. *)
Definition gated (r : Readings) (method_name : string)
    (chat_id : option chat_ref) (priority : Z) : M bool :=
  do _ <- fault_at r AtSemaphore ;;
  with_semaphore (paced r method_name chat_id priority).

(** The [try] block of [acquire] up to its [yield]: [true] at
    [yield True], [false] at the [yield False] of an exhausted quota. *)
Definition admission (r : Readings) (method_name : string)
    (chat_id : option chat_ref) (priority : Z) : M bool :=
  do proceed <- resolve_gate r method_name ;;
  if negb proceed then ret false
  else gated r method_name chat_id priority.

(** Where the generator is suspended after its first [yield]. *)
Inductive yield_point :=
| YieldGranted                  (* [yield True]; [acquired] is [True] *)
| YieldQuotaDenied              (* [yield False] before [return] *)
| YieldHandler (e : Py.exn).    (* [yield False] of the [except] clause *)

(** What the caller of [async with limiter.acquire(...) as acquired]
    gets on entry. *)
Inductive entered :=
| Yielded (acquired : bool) (at_ : yield_point)
| Propagated (e : Py.exn)
| Waiting.

Definition acquire (r : Readings) (method_name : string)
    (chat_id : option chat_ref) (priority : Z) (w : World) : entered * World :=
  match admission r method_name chat_id priority w with
  | (Ok true, w') => (Yielded true YieldGranted, w')
  | (Ok false, w') => (Yielded false YieldQuotaDenied, w')
  | (Raise e, w') =>
      if Py.is_Exception e then (Yielded false (YieldHandler e), w')
      else (Propagated e, w')
  | (Blocked, w') => (Waiting, w')
  end.

End Limiter.

(** ** The scoped acquisition ends: [__aexit__] of the context manager *)

Module Release.
Import Limiter.

Definition didnt_stop : Py.exn :=
  Py.RuntimeError "generator didn't stop after athrow()".

Definition give_back_slot (L : RateLimiter) : RateLimiter :=
  set_semaphore (semaphore L + 1) L.

(** [body] is the exception the [async with] body ended with, if any.
    The generator is resumed (or the exception thrown into it) at its
    [yield].  When it runs to its end, the [finally] clause records the
    success of a granted acquisition.  An [Exception] thrown in at a
    [yield] inside the [try] leaves the semaphore block and is caught by
    the [except] clause, whose second [yield] the context manager
    answers with its [RuntimeError]; the generator is then still
    suspended at that [yield], and its [finally] clause has not run.
    [closes] says whether [__aexit__] closes such a generator before it
    raises.  The [__aexit__] of CPython 3.9 to 3.11 does not: there the
    [finally] clause runs only when the generator is finalized
    ([finalize] below).  Where [__aexit__] closes the generator, the
    [finally] clause runs at once. *)
Definition release (closes : bool) (at_ : yield_point) (body : option Py.exn) (w : World)
  : option Py.exn * World :=
  match at_, body with
  | YieldGranted, None =>
      (None, {| limiter := set_stats Stats.record_success (give_back_slot (limiter w));
                slept := slept w |})
  | YieldGranted, Some e =>
      if Py.is_Exception e then
        (Some didnt_stop,
         {| limiter := if closes
                       then set_stats Stats.record_success (give_back_slot (limiter w))
                       else give_back_slot (limiter w);
            slept := slept w |})
      else
        (Some e,
         {| limiter := set_stats Stats.record_success (give_back_slot (limiter w));
            slept := slept w |})
  | YieldQuotaDenied, None => (None, w)
  | YieldQuotaDenied, Some e =>
      (Some (if Py.is_Exception e then didnt_stop else e), w)
  | YieldHandler _, None => (None, w)
  | YieldHandler _, Some e => (Some e, w)
  end.

(** Whether [release] leaves the generator suspended at the [yield] of
    its [except] clause. *)
Definition suspended (closes : bool) (at_ : yield_point) (body : option Py.exn) : bool :=
  match at_, body with
  | YieldGranted, Some e => Py.is_Exception e && negb closes
  | YieldQuotaDenied, Some e => Py.is_Exception e && negb closes
  | _, _ => false
  end.

(** A generator left suspended is closed when it is finalized:
    [GeneratorExit] is raised at the [yield] of the [except] clause and
    the [finally] clause runs, with [acquired] as the run has set it:
    [if acquired: self.stats.record_success()]. *)
Definition finalize (at_ : yield_point) (w : World) : World :=
  match at_ with
  | YieldGranted =>
      {| limiter := set_stats Stats.record_success (limiter w); slept := slept w |}
  | _ => w
  end.

End Release.

(** ** The retry wrapper of [tools.py] *)

Module Retry.
Import Eff.

(** What one invocation of the wrapped coroutine does. *)
Inductive attempt (V : Type) :=
| Returns (v : V)
| Raises (e : Py.exn).
Arguments Returns {V} v.
Arguments Raises {V} e.

(** What a run of [_execute_with_retry] leaves behind: how it ended
    ([Ok None] is the final [return None]), the local [retries], how
    often the wrapped coroutine was invoked, and the world. *)
Record Run (V : Type) := {
  outcome : result (option V);
  retries : Z;
  invocations : nat;
  world : World
}.
Arguments outcome {V} _.
Arguments retries {V} _.
Arguments invocations {V} _.
Arguments world {V} _.

(** [if rate_limiter: rate_limiter.stats.record_flood_error()] *)
Definition note_flood (rate_limiter : bool) (now : Py.datetime) (w : World) : World :=
  if rate_limiter
  then {| limiter := set_stats (Stats.record_flood_error now) (limiter w); slept := slept w |}
  else w.

Definition asleep (seconds : Z) (w : World) : World :=
  {| limiter := limiter w; slept := slept w ++ [inject_Z seconds] |}.

(** The [while retries <= max_retries] loop.  [func i] is the [i]-th
    invocation of the wrapped coroutine, [dt i] the wall clock when it
    fails.  [fuel] bounds the iterations; [None] means it ran out. *)
Fixpoint retry_loop {V} (fuel : nat) (func : nat -> attempt V) (dt : nat -> Py.datetime)
    (max_retries : Z) (rate_limiter : bool)
    (retries : Z) (calls : nat) (w : World) : option (Run V) :=
  if retries <=? max_retries then
    match fuel with
    | O => None
    | S fuel' =>
        match func calls with
        | Returns v =>
            Some {| outcome := Ok (Some v); retries := retries;
                    invocations := S calls; world := w |}
        | Raises (Py.FloodWaitError seconds) =>
            let w := note_flood rate_limiter (dt calls) w in
            if 60 <? seconds then
              Some {| outcome := Raise (Py.FloodWaitError seconds); retries := retries;
                      invocations := S calls; world := w |}
            else
              let retries := retries + 1 in
              if max_retries <? retries then
                Some {| outcome := Raise (Py.FloodWaitError seconds); retries := retries;
                        invocations := S calls; world := w |}
              else
                retry_loop fuel' func dt max_retries rate_limiter
                           retries (S calls) (asleep seconds w)
        | Raises e =>
            Some {| outcome := Raise e; retries := retries;
                    invocations := S calls; world := w |}
        end
    end
  else
    Some {| outcome := Ok None; retries := retries; invocations := calls; world := w |}.

Definition enough_fuel (max_retries : Z) : nat := S (Z.to_nat max_retries).

Definition _execute_with_retry {V} (func : nat -> attempt V) (dt : nat -> Py.datetime)
    (max_retries : Z) (rate_limiter : bool) (w : World) : option (Run V) :=
  retry_loop (enough_fuel max_retries) func dt max_retries rate_limiter 0 0 w.

(** *** The decorator [handle_flood_wait] *)

Definition high_priority_methods : list string :=
  [ "send_message"; "reply_to_message"; "get_me"; "get_user_info";
    "edit_message"; "delete_message"; "forward_message" ]%string.

Definition medium_priority_methods : list string :=
  [ "send_file"; "get_chat_info"; "get_chat_history"; "get_chat_members";
    "search_messages"; "download_file" ]%string.

Definition low_priority_methods : list string :=
  [ "get_all_chats"; "get_folders"; "search_global"; "get_entity_info" ]%string.

Definition resolve_methods : list string :=
  [ "resolve_username"; "search_global"; "search_chats"; "search_users";
    "get_entity_info"; "resolve_phone"; "check_username" ]%string.

Definition priority_of (method_name : string) : Z :=
  if Py.mem method_name high_priority_methods then 5
  else if Py.mem method_name medium_priority_methods then 3
  else if Py.mem method_name low_priority_methods then 1
  else 2.

(** How the decorated tool ends for its caller.  [Result v] is the
    [return await _execute_with_retry(...)]: the value of the tool, or
    [None]; [ErrorText text] is one of the wrapper's own
    [return [TextContent(...)]].  Both are return
    values of the wrapper: the constructor records which statement
    returned, which a caller cannot tell from the value when a tool
    returns such a text itself. *)
Inductive reply (V : Type) :=
| Result (v : option V)
| ErrorText (text : string)
| Failure (e : Py.exn)
| StillWaiting
| OutOfFuel.
Arguments Result {V} v.
Arguments ErrorText {V} text.
Arguments Failure {V} e.
Arguments StillWaiting {V}.
Arguments OutOfFuel {V}.

Definition quota_text : string :=
  "Error: Daily limit for resolve operations exceeded. Please try tomorrow.".
Definition denied_text : string :=
  "Error: Rate limit exceeded. Please try again later.".

Definition finish {V} (run : option (Run V)) (leave : option Py.exn -> World -> option Py.exn * World)
  : reply V * option World :=
  match run with
  | None => (OutOfFuel, None)
  | Some r =>
      match outcome r with
      | Ok v =>
          match leave None (world r) with
          | (None, w') => (Result v, Some w')
          | (Some e, w') => (Failure e, Some w')
          end
      | Raise e =>
          match leave (Some e) (world r) with
          | (None, w') => (Failure e, Some w')
          | (Some e', w') => (Failure e', Some w')
          end
      | Blocked => (StillWaiting, Some (world r))
      end
  end.

(** [wrapper]: [method_name] is [func.__name__], [chat_id] what the
    attribute lookups on [args[0]] found; [dt_pre] is the clock of the
    wrapper's own [check_resolve_limit]; [closes] is the behaviour of the
    interpreter's context manager, as for [Release.release]. *)
Definition handle_flood_wait {V} (closes : bool) (max_retries : Z) (use_rate_limiter : bool)
    (method_name : string) (chat_id : option chat_ref)
    (func : nat -> attempt V)
    (dt_pre : Py.datetime) (r : Limiter.Readings) (dt : nat -> Py.datetime)
    (w : World) : reply V * World :=
  let priority := priority_of method_name in
  let is_resolve_operation := Py.mem method_name resolve_methods in
  if use_rate_limiter then
    let '(quota_ok, w) :=
      if is_resolve_operation then
        match Limiter.check_resolve_limit dt_pre w with
        | (Ok b, w') => (b, w')
        | (_, w') => (true, w')
        end
      else (true, w) in
    if negb quota_ok then (ErrorText quota_text, w)
    else
      match Limiter.acquire r method_name chat_id priority w with
      | (Limiter.Yielded false at_, w1) =>
          match Release.release closes at_ None w1 with
          | (None, w2) => (ErrorText denied_text, w2)
          | (Some e, w2) => (Failure e, w2)
          end
      | (Limiter.Yielded true at_, w1) =>
          match finish (_execute_with_retry func dt max_retries true w1)
                       (Release.release closes at_) with
          | (rep, Some w2) => (rep, w2)
          | (rep, None) => (rep, w1)
          end
      | (Limiter.Propagated e, w1) => (Failure e, w1)
      | (Limiter.Waiting, w1) => (StillWaiting, w1)
      end
  else
    match finish (_execute_with_retry func dt max_retries false w) (fun _ w => (None, w)) with
    | (rep, Some w2) => (rep, w2)
    | (rep, None) => (rep, w)
    end.

End Retry.

(** ** The windows under concurrent tasks

    Tasks interleave at their [await]s.  Each window is touched only inside
    its own lock ([_global_lock], [_chat_locks[chat_id]]), and the task that
    holds the lock goes through three segments between which other tasks
    run and time passes: it reads [now]; it evicts and checks the limit;
    after its sleep it appends [now] and gives the lock back.  The machine
    below has one step per segment, for any number of tasks; the only
    assumption about [time.time()] is that it never runs backwards. *)

Module Engine.

Inductive scope :=
| Global
| Chat (chat_id : string).

#[export] Instance scope_eq_dec : EqDecision scope.
Proof. solve_decision. Defined.

(** The local variables of the task inside a scope's lock. *)
Inductive holder :=
| Entered (now : Q) (window_seconds max_requests : Z)
| Checked (now : Q) (w : option Q) (wake : Q).

Record State := {
  lim : RateLimiter;
  clock : Q;
  global_lock : option holder;
  chat_locks : gmap string holder
}.

Definition init (c : RateLimitConfig) : State := {|
  lim := new_limiter c;
  clock := 0;
  global_lock := None;
  chat_locks := ∅
|}.

Definition queue_of (sc : scope) (st : State) : list Q :=
  match sc with
  | Global => global_queue (lim st)
  | Chat chat_id => chat_queue chat_id (lim st)
  end.

Definition lock_of (sc : scope) (st : State) : option holder :=
  match sc with
  | Global => global_lock st
  | Chat chat_id => chat_locks st !! chat_id
  end.

Definition with_queue (sc : scope) (q : list Q) (L : RateLimiter) : RateLimiter :=
  match sc with
  | Global => set_global_queue q L
  | Chat chat_id => set_chat_queue chat_id q L
  end.

Definition with_lock (sc : scope) (h : option holder) (st : State) : State :=
  match sc with
  | Global =>
      {| lim := lim st; clock := clock st; global_lock := h; chat_locks := chat_locks st |}
  | Chat chat_id =>
      {| lim := lim st; clock := clock st; global_lock := global_lock st;
         chat_locks := match h with
                       | Some h' => <[chat_id := h']> (chat_locks st)
                       | None => delete chat_id (chat_locks st)
                       end |}
  end.

Definition with_lim (L : RateLimiter) (st : State) : State :=
  {| lim := L; clock := clock st; global_lock := global_lock st;
     chat_locks := chat_locks st |}.

(** The window and ceiling a task uses in a scope: 60 s and
    [global_limit]; for a chat 60 s and [group_limit] when the method is
    a group method, else 1 s and [chat_limit]. *)
Definition window_of (sc : scope) (is_group : bool) : Z :=
  match sc with
  | Global => 60
  | Chat _ => if is_group then 60 else 1
  end.

Definition ceiling_of (sc : scope) (is_group : bool) (c : RateLimitConfig) : Z :=
  match sc with
  | Global => global_limit c
  | Chat _ => if is_group then group_limit c else chat_limit c
  end.

(** [if wait_time > 0: ...; self.stats.record_rate_limited()] *)
Definition count_limited (w : option Q) (L : RateLimiter) : RateLimiter :=
  match w with
  | Some _ => set_stats Stats.record_rate_limited L
  | None => L
  end.

Definition wake_time (clock : Q) (w : option Q) : Q :=
  match w with
  | Some wait_time => (clock + wait_time)%Q
  | None => clock
  end.

(** The state after [d] seconds in which no task moved. *)
Definition later (d : Q) (st : State) : State :=
  {| lim := lim st; clock := (clock st + d)%Q;
     global_lock := global_lock st; chat_locks := chat_locks st |}.

Inductive step : State -> State -> Prop :=
| step_tick st d :
    (0 <= d)%Q ->
    step st (later d st)
| step_enter st sc is_group :
    lock_of sc st = None ->
    step st
      (with_lock sc
         (Some (Entered (clock st) (window_of sc is_group)
                        (ceiling_of sc is_group (config (lim st)))))
         (with_lim (with_queue sc (queue_of sc st) (lim st)) st))
| step_check st sc now window_seconds max_requests w :
    lock_of sc st = Some (Entered now window_seconds max_requests) ->
    let queue := Window._cleanup_old_requests (clock st) (queue_of sc st) window_seconds in
    Limiter.limit_wait max_requests window_seconds now queue = Ok w ->
    step st
      (with_lock sc (Some (Checked now w (wake_time (clock st) w)))
         (with_lim (with_queue sc queue (lim st)) st))
| step_check_raise st sc now window_seconds max_requests e :
    lock_of sc st = Some (Entered now window_seconds max_requests) ->
    let queue := Window._cleanup_old_requests (clock st) (queue_of sc st) window_seconds in
    Limiter.limit_wait max_requests window_seconds now queue = Raise e ->
    step st (with_lock sc None (with_lim (with_queue sc queue (lim st)) st))
| step_leave st sc now w wake :
    lock_of sc st = Some (Checked now w wake) ->
    (wake <= clock st)%Q ->
    step st
      (with_lock sc None
         (with_lim (with_queue sc (Window.record (queue_of sc st) now)
                               (count_limited w (lim st))) st))
| step_cancel st sc h :
    lock_of sc st = Some h ->
    step st (with_lock sc None st).

Definition reachable (c : RateLimitConfig) (st : State) : Prop :=
  rtc step (init c) st.

(** Timestamps in non-decreasing order. *)
Fixpoint nondecreasing (q : list Q) : Prop :=
  match q with
  | [] => True
  | t :: rest =>
      match rest with
      | [] => True
      | t' :: _ => (t <= t')%Q
      end /\ nondecreasing rest
  end.

(** The window function of the source that works on [sc]. *)
Definition through_lock (sc : scope) (is_group : bool) (now now_c : Q) : Eff.M unit :=
  match sc with
  | Global => Limiter._wait_for_global_limit now now_c
  | Chat chat_id => Limiter._wait_for_chat_limit chat_id is_group now now_c
  end.

(** The same steps as a function, to run the machine on a schedule. *)
Inductive action :=
| Tick (d : Q)
| Enter (sc : scope) (is_group : bool)
| Check (sc : scope)
| Leave (sc : scope)
| Cancel (sc : scope).

Definition act (a : action) (st : State) : option State :=
  match a with
  | Tick d => if Qle_bool 0 d then Some (later d st) else None
  | Enter sc is_group =>
      match lock_of sc st with
      | None =>
          Some (with_lock sc
                  (Some (Entered (clock st) (window_of sc is_group)
                                 (ceiling_of sc is_group (config (lim st)))))
                  (with_lim (with_queue sc (queue_of sc st) (lim st)) st))
      | Some _ => None
      end
  | Check sc =>
      match lock_of sc st with
      | Some (Entered now window_seconds max_requests) =>
          let queue :=
            Window._cleanup_old_requests (clock st) (queue_of sc st) window_seconds in
          match Limiter.limit_wait max_requests window_seconds now queue with
          | Ok w =>
              Some (with_lock sc (Some (Checked now w (wake_time (clock st) w)))
                      (with_lim (with_queue sc queue (lim st)) st))
          | Raise _ =>
              Some (with_lock sc None (with_lim (with_queue sc queue (lim st)) st))
          | Blocked => None
          end
      | _ => None
      end
  | Leave sc =>
      match lock_of sc st with
      | Some (Checked now w wake) =>
          if Qle_bool wake (clock st) then
            Some (with_lock sc None
                    (with_lim (with_queue sc (Window.record (queue_of sc st) now)
                                          (count_limited w (lim st))) st))
          else None
      | _ => None
      end
  | Cancel sc =>
      match lock_of sc st with
      | Some _ => Some (with_lock sc None st)
      | None => None
      end
  end.

Fixpoint run (schedule : list action) (st : State) : option State :=
  match schedule with
  | [] => Some st
  | a :: rest =>
      match act a st with
      | Some st' => run rest st'
      | None => None
      end
  end.

(** The schedule of one task that goes through the lock of [sc] on its
    own: [d] passes between its two clock readings, then it sleeps
    [wait], if it has to. *)
Definition alone (sc : scope) (is_group : bool) (d : Q) (wait : option Q) : list action :=
  [ Enter sc is_group; Tick d; Check sc ]
  ++ match wait with
     | Some wait_time => [ Tick wait_time ]
     | None => []
     end
  ++ [ Leave sc ].

(** [now] of the task inside a lock. *)
Definition holder_now (h : holder) : Q :=
  match h with
  | Entered now _ _ => now
  | Checked now _ _ => now
  end.

(** What holds of one window between steps: its timestamps are in order
    and not in the future, and none is later than the [now] of the task
    that holds its lock. *)
Definition scope_ok (st : State) (sc : scope) : Prop :=
  nondecreasing (queue_of sc st)
  /\ Forall (fun t => (t <= clock st)%Q) (queue_of sc st)
  /\ match lock_of sc st with
     | Some h =>
         Forall (fun t => (t <= holder_now h)%Q) (queue_of sc st)
         /\ (holder_now h <= clock st)%Q
     | None => True
     end.

Definition invariant (st : State) : Prop := forall sc, scope_ok st sc.

End Engine.

(** ** The stats tracker as the engine and the wrapper drive it

    [record_request] opens an acquisition; [record_rate_limited] and
    [record_flood_error] happen inside an open one; an acquisition is
    closed either by the [record_success] of the [finally] clause or, after
    a denial, without any record.  The second component counts the open
    acquisitions. *)

Module Tracker.

Inductive reachable : RateLimitStats -> nat -> Prop :=
| reach_fresh : reachable Stats.fresh 0
| reach_request s n now :
    reachable s n -> reachable (Stats.record_request now s) (S n)
| reach_rate_limited s n :
    reachable s (S n) -> reachable (Stats.record_rate_limited s) (S n)
| reach_flood_error s n now :
    reachable s (S n) -> reachable (Stats.record_flood_error now s) (S n)
| reach_success s n :
    reachable s (S n) -> reachable (Stats.record_success s) n
| reach_denied s n :
    reachable s (S n) -> reachable s n
| reach_resolve s n now :
    reachable s n -> reachable (Stats.record_resolve_request now s) n
| reach_reset s n now :
    reachable s n -> reachable (Stats.reset_resolve now s) n.

End Tracker.

(** ** Concrete runs used below *)

Module Scenario.
Import Limiter.

Definition no_fault : point -> option Py.exn := fun _ => None.

(** Readings of a run in which every clock shows [t] (seconds, and the
    same instant in microseconds for the wall clock). *)
Definition at_time (t : Z) : Readings := {|
  dt_check := t * 1000000;
  dt_resolve := t * 1000000;
  dt_request := t * 1000000;
  t_global := inject_Z t;
  t_global_clean := inject_Z t;
  t_chat := inject_Z t;
  t_chat_clean := inject_Z t;
  uniform := 1 # 10;
  fault := no_fault
|}.

(** The same readings, except that statement [p] raises [e]. *)
Definition failing_at (p : point) (e : Py.exn) (t : Z) : Readings := {|
  dt_check := t * 1000000;
  dt_resolve := t * 1000000;
  dt_request := t * 1000000;
  t_global := inject_Z t;
  t_global_clean := inject_Z t;
  t_chat := inject_Z t;
  t_chat_clean := inject_Z t;
  uniform := 1 # 10;
  fault := fun q => if decide (p = q) then Some e else None
|}.

(** One call per minute globally. *)
Definition one_per_minute : RateLimitConfig := with_limits 1 1 20 200.

(** [check_resolve_limit()] called [n] times in a row at instant [now]. *)
Fixpoint check_times (n : nat) (now : Py.datetime) (w : World) : World :=
  match n with
  | O => w
  | S n' => check_times n' now (snd (check_resolve_limit now w))
  end.

(** Resolve-class calls passing the quota gate of [acquire], one per
    element of [rs]. *)
Fixpoint resolve_calls (rs : list Readings) (w : World) : World :=
  match rs with
  | [] => w
  | r :: rest => resolve_calls rest (snd (resolve_gate r "resolve_username" w))
  end.

(** Three calls on the global window, arriving at 0 s, 10 s and 61 s. *)
Definition three_calls : World :=
  let w0 := new_world one_per_minute in
  let w1 := snd (_wait_for_global_limit 0 0 w0) in
  let w2 := snd (_wait_for_global_limit 10 10 w1) in
  snd (_wait_for_global_limit 61 61 w2).

(** A tool whose first [k] invocations are throttled for [seconds] and
    which then returns [v]. *)
Definition throttled (k : nat) (seconds : Z) (v : string) : nat -> Retry.attempt string :=
  fun i => if (i <? k)%nat then Retry.Raises (Py.FloodWaitError seconds)
           else Retry.Returns v.

Definition wall : nat -> Py.datetime := fun i => Z.of_nat i.

(** [send_message] throttled twice for 5 s, then successful. *)
Definition twice_throttled : World :=
  snd (Retry.handle_flood_wait false 3 true "send_message" (Some (ChatInt 42))
         (throttled 2 5 "sent") 0 (at_time 0) wall (new_world default_config)).

(** [get_me] admitted and not yet finished: the state right after
    [acquire] yielded. *)
Definition just_granted : World :=
  snd (acquire (at_time 0) "get_me" None 5 (new_world default_config)).

(** [get_me] served at once, without any throttling. *)
Definition once_served : World :=
  snd (Retry.handle_flood_wait false 3 true "get_me" None
         (throttled 0 5 "me") 0 (at_time 0) wall (new_world default_config)).

(** A call that passes the quota gate on the day that started at [t0]:
    no unexpected failure at the gate, and both wall-clock readings less
    than a day after [t0]. *)
Definition same_day (t0 : Py.datetime) (r : Readings) : Prop :=
  fault r AtResolveCheck = None
  /\ fault r AtResolveRecord = None
  /\ Py.timedelta_days (dt_check r) t0 < 1
  /\ Py.timedelta_days (dt_resolve r) t0 < 1.

(** The state of the quota during the day that started at [t0]. *)
Definition in_day (t0 : Py.datetime) (c limit : Z) (w : World) : Prop :=
  resolve_last_reset (stats (limiter w)) = Some t0
  /\ resolve_requests_today (stats (limiter w)) = c
  /\ resolve_daily_limit (config (limiter w)) = limit.

(** The daily counter and its reset instant. *)
Definition quota_state (w : World) : Z * option Py.datetime :=
  (resolve_requests_today (stats (limiter w)),
   resolve_last_reset (stats (limiter w))).

(** An engine schedule: two tasks on the global window, the second of
    which has to wait, and meanwhile a task on the window of chat 42. *)
Definition busy_schedule : list Engine.action :=
  [ Engine.Enter Engine.Global false; Engine.Check Engine.Global;
    Engine.Leave Engine.Global;
    Engine.Tick 10;
    Engine.Enter Engine.Global false; Engine.Check Engine.Global;
    Engine.Enter (Engine.Chat "42") false; Engine.Tick (1 # 2);
    Engine.Check (Engine.Chat "42"); Engine.Leave (Engine.Chat "42");
    Engine.Tick 50;
    Engine.Leave Engine.Global ].

Definition busy_engine : Engine.State :=
  match Engine.run busy_schedule (Engine.init one_per_minute) with
  | Some st => st
  | None => Engine.init one_per_minute
  end.

End Scenario.

(** ** Specifications of effectful code *)

Module Hoare.

(** [spec P m Qok Qex Qbl]: from a world satisfying [P], [m] ends either
    normally with a value and world in [Qok], or by raising in [Qex], or
    blocked in [Qbl]. *)
Definition spec {A} (P : World -> Prop) (m : Eff.M A)
    (Qok : A -> World -> Prop) (Qex : Py.exn -> World -> Prop)
    (Qbl : World -> Prop) : Prop :=
  forall w, P w ->
    match m w with
    | (Ok a, w') => Qok a w'
    | (Raise e, w') => Qex e w'
    | (Blocked, w') => Qbl w'
    end.

(** [keeps I m]: [I] holds after [m] however it ends. *)
Definition keeps {A} (I : World -> Prop) (m : Eff.M A) : Prop :=
  spec I m (fun _ => I) (fun _ => I) I.

(** An invariant that looks at the limiter only. *)
Definition on_limiter (I : RateLimiter -> Prop) : World -> Prop :=
  fun w => I (limiter w).

(** Invariants of the limiter that the pacing code cannot break: they do
    not depend on the windows, on the free slots or on the count of
    rate-limited calls. *)
Record pacing_stable (I : RateLimiter -> Prop) : Prop := {
  stable_global : forall q L, I L -> I (set_global_queue q L);
  stable_chat : forall chat_id q L, I L -> I (set_chat_queue chat_id q L);
  stable_limited : forall L, I L -> I (set_stats Stats.record_rate_limited L);
  stable_semaphore : forall v L, I L -> I (set_semaphore v L)
}.

(** The failures a run of [acquire] with readings [r] can meet: the two
    the code can raise by itself, and the unexpected ones of [r]. *)
Definition expected (r : Limiter.Readings) (e : Py.exn) : Prop :=
  e = Py.IndexError \/ e = Py.ZeroDivisionError
  \/ exists p, Limiter.fault r p = Some e.

(** How the pacing code may fail: [I] still holds, and the failure is an
    expected one. *)
Definition paces (I : RateLimiter -> Prop) (r : Limiter.Readings)
  : Py.exn -> World -> Prop :=
  fun e w => on_limiter I w /\ expected r e.

(** How the admission may fail: before ([I]) or after ([J]) the request was
    recorded, and with an expected failure. *)
Definition failed (I J : RateLimiter -> Prop) (r : Limiter.Readings)
  : Py.exn -> World -> Prop :=
  fun e w => (on_limiter I w \/ on_limiter J w) /\ expected r e.

(** The daily counter and its reset instant have the given values. *)
Definition quota_fixed (c : Z) (reset : option Py.datetime) : RateLimiter -> Prop :=
  fun L => resolve_requests_today (stats L) = c /\ resolve_last_reset (stats L) = reset.

(** The tracker of the limiter is in a reachable state with [n] open
    acquisitions. *)
Definition tracked (n : nat) : RateLimiter -> Prop :=
  fun L => Tracker.reachable (stats L) n.

Definition take_slot (w : World) : World :=
  {| limiter := set_semaphore (semaphore (limiter w) - 1) (limiter w);
     slept := slept w |}.

Definition give_back (w : World) : World :=
  {| limiter := set_semaphore (semaphore (limiter w) + 1) (limiter w);
     slept := slept w |}.

End Hoare.

(** ** Health, the process-wide limiter and its configuration *)

Module Health.

(** [RateLimiter.is_healthy]; the literals [0.8] and [0.1] are the
    rationals 4/5 and 1/10. *)
Definition is_healthy (L : RateLimiter) : bool :=
  if total_requests (stats L) =? 0 then true
  else
    let success_ok := Qlt_bool (4 # 5) (Stats.success_rate (stats L)) in
    let flood_ok := Qlt_bool (Stats.flood_rate (stats L)) (1 # 10) in
    let resolve_ok :=
      resolve_requests_today (stats L) <? resolve_daily_limit (config L) in
    success_ok && flood_ok && resolve_ok.

End Health.

Module Singleton.

(** [RateLimiter.__init__]: [self.config = config or RateLimitConfig()] *)
Definition RateLimiter_init (config : option RateLimitConfig) : RateLimiter :=
  new_limiter match config with
              | Some c => c
              | None => default_config
              end.

(** The module variable [_global_rate_limiter] is the state; the result
    is the limiter handed out and the new state. *)
Definition get_rate_limiter (config : option RateLimitConfig)
    (global : option RateLimiter) : RateLimiter * option RateLimiter :=
  match global with
  | None => let L := RateLimiter_init config in (L, Some L)
  | Some L => (L, Some L)
  end.

Definition reset_rate_limiter (global : option RateLimiter) : option RateLimiter :=
  None.

Definition create_rate_limiter_from_settings (gl cl grl rdl : option Z) (enabled : bool)
  : RateLimiter :=
  RateLimiter_init (Some (from_env gl cl grl rdl enabled)).

(** The rate-limit fields of [TelegramSettings] ([telegram.py]). *)
Record TelegramSettings := {
  rate_limit_enabled : bool;
  global_rate_limit : Z;
  chat_rate_limit : Z;
  group_rate_limit : Z;
  settings_resolve_daily_limit : Z
}.

(** What [create_client] does about rate limiting: it builds a limiter
    from the settings into a local variable, leaves
    [_global_rate_limiter] alone, and chooses Telethon's
    [flood_sleep_threshold].  The result is the local limiter, the
    threshold and the module variable. *)
Definition create_client (cfg : TelegramSettings) (global : option RateLimiter)
  : RateLimiter * Z * option RateLimiter :=
  let rate_limiter :=
    create_rate_limiter_from_settings
      (Some (global_rate_limit cfg)) (Some (chat_rate_limit cfg))
      (Some (group_rate_limit cfg)) (Some (settings_resolve_daily_limit cfg))
      (rate_limit_enabled cfg) in
  let flood_sleep_threshold := if rate_limit_enabled cfg then 0 else 60 in
  (rate_limiter, flood_sleep_threshold, global).

End Singleton.

(** ** Further concrete runs *)

Module Cases.
Import Limiter.

(** The engine when a second task has just entered the full global
    window, ten seconds after the first call. *)
Definition second_task_entered : Engine.State :=
  match Engine.run [ Engine.Enter Engine.Global false; Engine.Check Engine.Global;
                     Engine.Leave Engine.Global; Engine.Tick 10;
                     Engine.Enter Engine.Global false ]
                   (Engine.init Scenario.one_per_minute) with
  | Some st => st
  | None => Engine.init Scenario.one_per_minute
  end.

End Cases.

(** ** Predicates on the limiter used by the properties below *)

Module Invariants.

(** The counters of the tracker that the admission sequence works on
    have the given values. *)
Definition counted (t s f : Z) : RateLimiter -> Prop :=
  fun L => total_requests (stats L) = t
           /\ successful_requests (stats L) = s
           /\ flood_errors (stats L) = f.

(** A limiter whose global ceiling is not positive and whose global
    window is empty. *)
Definition refusing : RateLimiter -> Prop :=
  fun L => global_limit (config L) <= 0 /\ global_queue L = [].

End Invariants.

(** * Properties *)

(** ** The stats tracker *)

Section StatsFacts.

Lemma rollover_due_iff (now r : Py.datetime) (s : RateLimitStats) :
  resolve_last_reset s = Some r ->
  Stats.rollover_due now s = (Py.microseconds_per_day <=? now - r).
Proof.
  intros Hr. unfold Stats.rollover_due, Py.timedelta_days. rewrite Hr.
  assert (Hd : 0 < Py.microseconds_per_day) by reflexivity.
  destruct (Z.leb_spec Py.microseconds_per_day (now - r)) as [Hle | Hlt].
  - apply Z.leb_le. apply Z.div_le_lower_bound; lia.
  - apply Z.leb_gt.
    apply Z.div_lt_upper_bound; lia.
Qed.

(** C5.  [record_resolve_request] sets the daily counter to exactly 1 and
    the reset instant to [now] when at least 24 hours (one day of
    microseconds) have passed since the previous reset, or when there
    was no reset yet; on every other call it adds exactly 1 to the
    counter and keeps the reset instant. *)
Theorem record_resolve_request_counts (now : Py.datetime) (s : RateLimitStats) :
  let s' := Stats.record_resolve_request now s in
  match resolve_last_reset s with
  | Some r =>
      if Py.microseconds_per_day <=? now - r
      then resolve_requests_today s' = 1 /\ resolve_last_reset s' = Some now
      else resolve_requests_today s' = resolve_requests_today s + 1
           /\ resolve_last_reset s' = Some r
  | None => resolve_requests_today s' = 1 /\ resolve_last_reset s' = Some now
  end.
Proof.
  cbv zeta. destruct (resolve_last_reset s) as [r |] eqn:Hr.
  - rewrite <- (rollover_due_iff now r s Hr).
    unfold Stats.record_resolve_request.
    destruct (Stats.rollover_due now s); simpl; auto.
  - unfold Stats.record_resolve_request, Stats.rollover_due. rewrite Hr.
    simpl. auto.
Qed.

(** C5 as claimed fails on a tracker that was never reset.  The call
    below is not one that comes 24 hours after a previous reset, since
    there was none; yet it sets the reset instant, where the claim has it
    unchanged.  The same call on a never-reset tracker whose counter
    stands at 7 sets the counter to 1, where the claim has 8. *)
Theorem never_reset_tracker_starts_a_day :
  let s' := Stats.record_resolve_request 5 Stats.fresh in
  let seven := {| total_requests := 0; successful_requests := 0;
                  rate_limited_requests := 0; flood_errors := 0;
                  last_request_time := None; last_flood_time := None;
                  resolve_requests_today := 7; resolve_last_reset := None |} in
  resolve_last_reset Stats.fresh = None
  /\ resolve_requests_today s' = 1
  /\ resolve_last_reset s' = Some 5
  /\ resolve_last_reset s' <> resolve_last_reset Stats.fresh
  /\ resolve_requests_today (Stats.record_resolve_request 5 seven) = 1
  /\ resolve_requests_today (Stats.record_resolve_request 5 seven)
     <> resolve_requests_today seven + 1.
Proof.
  cbv zeta. split; [reflexivity |]. split; [reflexivity |]. split; [reflexivity |].
  split; [discriminate |]. split; [reflexivity |]. vm_compute. discriminate.
Qed.

Lemma tracker_counters (s : RateLimitStats) (n : nat) :
  Tracker.reachable s n ->
  0 <= successful_requests s
  /\ successful_requests s + Z.of_nat n <= total_requests s
  /\ 0 <= flood_errors s.
Proof.
  induction 1; simpl in *; try lia.
  unfold Stats.record_resolve_request.
  destruct (Stats.rollover_due now s); simpl; lia.
Qed.

Lemma ratio_bounds (a b : Z) :
  0 <= a -> 0 < b ->
  (0 <= inject_Z a / inject_Z b)%Q
  /\ (a <= b -> (inject_Z a / inject_Z b <= 1)%Q)
  /\ ((inject_Z a / inject_Z b == 0)%Q <-> a = 0).
Proof.
  intros Ha Hb.
  assert (Hb' : (0 < inject_Z b)%Q) by (unfold Qlt; simpl; lia).
  repeat split.
  - apply Qle_shift_div_l; [exact Hb' |]. unfold Qle; simpl; lia.
  - intros Hab. apply Qle_shift_div_r; [exact Hb' |]. unfold Qle; simpl; lia.
  - intros H0. destruct b as [| p | p]; try lia.
    unfold Qeq, Qdiv, Qmult, Qinv in H0. simpl in H0. lia.
  - intros ->. destruct b as [| p | p]; try lia. reflexivity.
Qed.

(** C6, as amended.  In every state of the tracker that the engine and
    the retry wrapper can reach, [success_rate] lies in [0, 1] and
    [flood_rate] is at least 0; both are 0 when [total_requests] is 0,
    and when [total_requests] is not 0 each is 0 exactly when its own
    numerator ([successful_requests], [flood_errors]) is 0. *)
Theorem rates_of_reachable_tracker (s : RateLimitStats) (n : nat) :
  Tracker.reachable s n ->
  ((0 <= Stats.success_rate s)%Q /\ (Stats.success_rate s <= 1)%Q)
  /\ (0 <= Stats.flood_rate s)%Q
  /\ (total_requests s = 0 ->
      (Stats.success_rate s == 0)%Q /\ (Stats.flood_rate s == 0)%Q)
  /\ (total_requests s <> 0 ->
      ((Stats.success_rate s == 0)%Q <-> successful_requests s = 0)
      /\ ((Stats.flood_rate s == 0)%Q <-> flood_errors s = 0)).
Proof.
  intros Hreach. destruct (tracker_counters s n Hreach) as (Hs & Hle & Hf).
  unfold Stats.success_rate, Stats.flood_rate.
  destruct (Z.eqb_spec (total_requests s) 0) as [H0 | Hne].
  - repeat split; try (intros; reflexivity); try (unfold Qle; simpl; lia);
      intros; contradiction.
  - assert (Hpos : 0 < total_requests s) by lia.
    destruct (ratio_bounds (successful_requests s) (total_requests s) Hs Hpos)
      as (Ha & Hb & Hc).
    destruct (ratio_bounds (flood_errors s) (total_requests s) Hf Hpos)
      as (Ha' & _ & Hc').
    repeat split; auto; try (intros; contradiction); try apply Hc; try apply Hc'.
    apply Hb. lia.
Qed.

End StatsFacts.

(** ** Rules for the effect monad *)

Section HoareRules.
Import Eff Hoare.
Context {A B : Type}.
Implicit Types (P I : World -> Prop) (Qex : Py.exn -> World -> Prop) (Qbl : World -> Prop).

Lemma spec_ret P (a : A) (Qok : A -> World -> Prop) Qex Qbl :
  (forall w, P w -> Qok a w) -> spec P (ret a) Qok Qex Qbl.
Proof. intros H w Hw. simpl. auto. Qed.

Lemma spec_raise P (e : Py.exn) (Qok : A -> World -> Prop) Qex Qbl :
  (forall w, P w -> Qex e w) -> spec P (raise e) Qok Qex Qbl.
Proof. intros H w Hw. simpl. auto. Qed.

Lemma spec_block P (Qok : A -> World -> Prop) Qex Qbl :
  (forall w, P w -> Qbl w) -> spec P block Qok Qex Qbl.
Proof. intros H w Hw. simpl. auto. Qed.

Lemma spec_gets P (f : RateLimiter -> A) (Qok : A -> World -> Prop) Qex Qbl :
  (forall w, P w -> Qok (f (limiter w)) w) -> spec P (gets f) Qok Qex Qbl.
Proof. intros H w Hw. simpl. auto. Qed.

Lemma spec_lift P (r : result A) (Qok : A -> World -> Prop) Qex Qbl :
  (forall w, P w ->
     match r with
     | Ok a => Qok a w
     | Raise e => Qex e w
     | Blocked => Qbl w
     end) ->
  spec P (lift r) Qok Qex Qbl.
Proof. intros H w Hw. unfold lift. specialize (H w Hw). destruct r; auto. Qed.

Lemma spec_bind P (m : M A) (k : A -> M B) (R : A -> World -> Prop)
    (Qok : B -> World -> Prop) Qex Qbl :
  spec P m R Qex Qbl ->
  (forall a, spec (R a) (k a) Qok Qex Qbl) ->
  spec P (bind m k) Qok Qex Qbl.
Proof.
  intros Hm Hk w Hw. unfold bind. specialize (Hm w Hw).
  destruct (m w) as [[a | e |] w']; auto.
  apply (Hk a w' Hm).
Qed.

Lemma spec_weaken P P' (m : M A) (Qok Qok' : A -> World -> Prop) Qex Qex' Qbl Qbl' :
  spec P' m Qok' Qex' Qbl' ->
  (forall w, P w -> P' w) ->
  (forall a w, Qok' a w -> Qok a w) ->
  (forall e w, Qex' e w -> Qex e w) ->
  (forall w, Qbl' w -> Qbl w) ->
  spec P m Qok Qex Qbl.
Proof.
  intros Hm HP Hok Hex Hbl w Hw. specialize (Hm w (HP w Hw)).
  destruct (m w) as [[a | e |] w']; auto.
Qed.

Lemma spec_on_raise P (body : M A) cleanup (Qok : A -> World -> Prop) Qex Qbl :
  spec P body Qok
       (fun e w => Qex e {| limiter := cleanup (limiter w); slept := slept w |}) Qbl ->
  spec P (on_raise body cleanup) Qok Qex Qbl.
Proof.
  intros Hm w Hw. unfold on_raise. specialize (Hm w Hw).
  destruct (body w) as [[a | e |] w']; auto.
Qed.

Lemma keeps_bind I (m : M A) (k : A -> M B) :
  keeps I m -> (forall a, keeps I (k a)) -> keeps I (bind m k).
Proof. intros Hm Hk. eapply spec_bind; [exact Hm | exact Hk]. Qed.

End HoareRules.

Section HoareUnitRules.
Import Eff Hoare.

Lemma spec_modify (P : World -> Prop) f (Qok : unit -> World -> Prop) Qex Qbl :
  (forall w, P w -> Qok tt {| limiter := f (limiter w); slept := slept w |}) ->
  spec P (modify f) Qok Qex Qbl.
Proof. intros H w Hw. simpl. auto. Qed.

Lemma spec_sleep (P : World -> Prop) d (Qok : unit -> World -> Prop) Qex Qbl :
  (forall w, P w -> Qok tt {| limiter := limiter w; slept := slept w ++ [d] |}) ->
  spec P (sleep d) Qok Qex Qbl.
Proof. intros H w Hw. simpl. auto. Qed.

(** An invariant of the limiter is kept by code that changes the limiter
    only through functions that keep it. *)
Lemma keeps_modify (I : RateLimiter -> Prop) f :
  (forall L, I L -> I (f L)) -> keeps (on_limiter I) (modify f).
Proof. intros H. apply spec_modify. unfold on_limiter. simpl. auto. Qed.

Lemma keeps_sleep (I : RateLimiter -> Prop) d : keeps (on_limiter I) (sleep d).
Proof. apply spec_sleep. unfold on_limiter. simpl. auto. Qed.

Lemma keeps_ret {A} (I : World -> Prop) (a : A) : keeps I (ret a).
Proof. apply spec_ret. auto. Qed.

Lemma keeps_raise {A} (I : World -> Prop) e : keeps I (@raise A e).
Proof. apply spec_raise. auto. Qed.

Lemma keeps_gets {A} (I : World -> Prop) (f : RateLimiter -> A) : keeps I (gets f).
Proof. apply spec_gets. auto. Qed.

Lemma keeps_lift {A} (I : World -> Prop) (r : result A) : keeps I (lift r).
Proof. apply spec_lift. destruct r; auto. Qed.

Lemma keeps_fault_at (I : World -> Prop) r p : keeps I (Limiter.fault_at r p).
Proof.
  unfold Limiter.fault_at. destruct (Limiter.fault r p).
  - apply keeps_raise.
  - apply keeps_ret.
Qed.

End HoareUnitRules.

(** ** What the pacing code can do to the limiter *)

Section Pacing.
Import Eff Hoare Limiter.
Variable I : RateLimiter -> Prop.
Hypothesis HI : pacing_stable I.

Lemma wait_out_keeps w : keeps (on_limiter I) (wait_out w).
Proof.
  destruct w as [wait_time |]; simpl.
  - apply keeps_bind; [apply keeps_sleep | intros ?].
    apply keeps_modify. apply (stable_limited I HI).
  - apply keeps_ret.
Qed.

Lemma limit_wait_raises max_requests window_seconds now queue e :
  limit_wait max_requests window_seconds now queue = Raise e -> e = Py.IndexError.
Proof.
  unfold limit_wait.
  destruct (max_requests <=? Z.of_nat (length queue)); [| discriminate].
  destruct queue as [| q0 rest]; [congruence |].
  destruct (Qlt_bool 0 _); discriminate.
Qed.

Lemma limit_wait_never_blocks max_requests window_seconds now queue :
  limit_wait max_requests window_seconds now queue <> Blocked.
Proof.
  unfold limit_wait.
  destruct (max_requests <=? Z.of_nat (length queue)); [| discriminate].
  destruct queue as [| q0 rest]; [discriminate |].
  destruct (Qlt_bool 0 _); discriminate.
Qed.

Lemma lift_limit_wait_spec r max_requests window_seconds now queue :
  spec (on_limiter I) (lift (limit_wait max_requests window_seconds now queue))
       (fun _ => on_limiter I) (paces I r) (fun _ => False).
Proof.
  apply spec_lift. intros w Hw.
  destruct (limit_wait _ _ _ _) as [o | e |] eqn:Hlw; auto.
  - split; [exact Hw |]. left. eapply limit_wait_raises; eauto.
  - exfalso. eapply limit_wait_never_blocks; eauto.
Qed.

Lemma keeps_quiet {A} r (m : M A) :
  keeps (on_limiter I) m ->
  (forall w, fst (m w) <> Blocked) ->
  (forall w e, fst (m w) = Raise e -> expected r e) ->
  spec (on_limiter I) m (fun _ => on_limiter I) (paces I r) (fun _ => False).
Proof.
  intros Hk Hb He w Hw. specialize (Hk w Hw). specialize (Hb w). specialize (He w).
  destruct (m w) as [[a | e |] w']; simpl in *; auto.
  split; auto.
Qed.

Lemma modify_quiet r f :
  (forall L, I L -> I (f L)) ->
  spec (on_limiter I) (modify f) (fun _ => on_limiter I) (paces I r) (fun _ => False).
Proof. intros H. apply spec_modify. unfold on_limiter; simpl; auto. Qed.

Lemma gets_quiet {A} r (f : RateLimiter -> A) :
  spec (on_limiter I) (gets f) (fun _ => on_limiter I) (paces I r) (fun _ => False).
Proof. apply spec_gets. auto. Qed.

Lemma wait_out_quiet r w :
  spec (on_limiter I) (wait_out w) (fun _ => on_limiter I) (paces I r) (fun _ => False).
Proof.
  apply keeps_quiet.
  - apply wait_out_keeps.
  - intros w0. destruct w; simpl; discriminate.
  - intros w0 e. destruct w; simpl; discriminate.
Qed.

Lemma fault_at_quiet r p :
  spec (on_limiter I) (fault_at r p) (fun _ => on_limiter I) (paces I r) (fun _ => False).
Proof.
  unfold fault_at. destruct (fault r p) as [e |] eqn:Hf.
  - apply spec_raise. intros w Hw. split; [exact Hw |].
    right; right. exists p. exact Hf.
  - apply spec_ret. auto.
Qed.

Lemma _wait_for_global_limit_spec r now now_c :
  spec (on_limiter I) (_wait_for_global_limit now now_c)
       (fun _ => on_limiter I) (paces I r) (fun _ => False).
Proof.
  unfold _wait_for_global_limit.
  eapply spec_bind; [apply gets_quiet | intros queue].
  eapply spec_bind; [apply modify_quiet, (stable_global I HI) | intros ?].
  eapply spec_bind; [apply gets_quiet | intros limit].
  eapply spec_bind; [apply lift_limit_wait_spec | intros w].
  eapply spec_bind; [apply wait_out_quiet | intros ?].
  apply modify_quiet, (stable_global I HI).
Qed.

Lemma _wait_for_chat_limit_spec r chat_id is_group now now_c :
  spec (on_limiter I) (_wait_for_chat_limit chat_id is_group now now_c)
       (fun _ => on_limiter I) (paces I r) (fun _ => False).
Proof.
  unfold _wait_for_chat_limit.
  eapply spec_bind; [apply gets_quiet | intros queue].
  eapply spec_bind; [apply modify_quiet, (stable_chat I HI) | intros ?].
  eapply spec_bind; [apply gets_quiet | intros max_requests].
  eapply spec_bind; [apply modify_quiet, (stable_chat I HI) | intros ?].
  eapply spec_bind; [apply lift_limit_wait_spec | intros w].
  eapply spec_bind; [apply wait_out_quiet | intros ?].
  apply modify_quiet, (stable_chat I HI).
Qed.

Lemma _add_human_delay_spec r base_delay priority :
  spec (on_limiter I) (_add_human_delay base_delay priority)
       (fun _ => on_limiter I) (paces I r) (fun _ => False).
Proof.
  unfold _add_human_delay. destruct (priority =? 0).
  - apply spec_raise. intros w Hw. split; [exact Hw |]. right; left; reflexivity.
  - apply spec_sleep. auto.
Qed.

End Pacing.

(** ** The admission sequence, step by step *)

Section Admission.
Import Eff Hoare Limiter.
Variables I J : RateLimiter -> Prop.
Hypothesis HI : forall v L, I L -> I (set_semaphore v L).
Hypothesis HJ : pacing_stable J.
Variable r : Readings.
Hypothesis Hrequest :
  forall L, I L -> J (set_stats (Stats.record_request (dt_request r)) L).

Ltac early lem :=
  eapply spec_weaken;
  [ apply (lem I); try assumption
  | intros ? H; exact H
  | intros ? ? H; exact H
  | intros ? ? [? ?]; split; [left; eassumption | eassumption]
  | intros ? H; exact H ].

Ltac late lem :=
  eapply spec_weaken;
  [ apply (lem J); try assumption
  | intros ? H; exact H
  | intros ? ? H; exact H
  | intros ? ? [? ?]; split; [right; eassumption | eassumption]
  | intros ? H; exact H ].

Lemma paced_spec method_name chat_id priority :
  spec (on_limiter I) (paced r method_name chat_id priority)
       (fun granted w => granted = true /\ on_limiter J w)
       (failed I J r) (fun _ => False).
Proof.
  unfold paced.
  eapply spec_bind; [early fault_at_quiet | intros ?].
  eapply spec_bind with (R := fun _ : unit => on_limiter J).
  { apply spec_modify. unfold on_limiter; simpl. auto. }
  intros ?.
  eapply spec_bind; [late fault_at_quiet | intros ?].
  eapply spec_bind; [late _wait_for_global_limit_spec | intros ?].
  eapply spec_bind with (R := fun _ : unit => on_limiter J).
  { destruct (truthy chat_id).
    - eapply spec_bind; [late fault_at_quiet | intros ?].
      late _wait_for_chat_limit_spec.
    - apply spec_ret. auto. }
  intros ?.
  eapply spec_bind; [late fault_at_quiet | intros ?].
  eapply spec_bind; [late _add_human_delay_spec | intros ?].
  apply spec_ret. auto.
Qed.

Lemma with_semaphore_spec {A} (body : M A) (Qok : A -> World -> Prop) v :
  spec (on_limiter I) body Qok (failed I J r) (fun _ => False) ->
  spec (fun w => on_limiter I w /\ semaphore (limiter w) = v)
       (with_semaphore body) Qok (failed I J r)
       (fun w => on_limiter I w /\ v <= 0).
Proof.
  intros Hbody w [Hw Hv]. unfold with_semaphore, bind, gets, modify, on_raise.
  rewrite Hv. destruct (Z.ltb_spec 0 v) as [Hpos | Hneg]; [| split; auto].
  set (w1 := {| limiter := set_semaphore (v - 1) (limiter w); slept := slept w |}).
  assert (Hw1 : on_limiter I w1) by (apply HI; exact Hw).
  specialize (Hbody w1 Hw1).
  destruct (body w1) as [[a | e |] w']; auto; [| contradiction].
  destruct Hbody as [[Hi | Hj] He]; split; auto.
  - left. apply HI. exact Hi.
  - right. apply (stable_semaphore J HJ). exact Hj.
Qed.

Lemma gated_spec method_name chat_id priority v :
  spec (fun w => on_limiter I w /\ semaphore (limiter w) = v)
       (gated r method_name chat_id priority)
       (fun granted w => granted = true /\ on_limiter J w) (failed I J r)
       (fun w => on_limiter I w /\ v <= 0).
Proof.
  unfold gated.
  eapply spec_bind with (R := fun (_ : unit) w => on_limiter I w /\ semaphore (limiter w) = v).
  - unfold fault_at. destruct (fault r AtSemaphore) as [e |] eqn:Hf.
    + apply spec_raise. intros w [Hw _]. split; [left; exact Hw |].
      right; right. exists AtSemaphore. exact Hf.
    + apply spec_ret. auto.
  - intros ?. apply with_semaphore_spec. apply paced_spec.
Qed.

Hypothesis Hreset : forall now L, I L -> I (set_stats (Stats.reset_resolve now) L).
Hypothesis Hresolve :
  forall now L, I L -> I (set_stats (Stats.record_resolve_request now) L).

Lemma check_resolve_limit_spec now v :
  spec (fun w => on_limiter I w /\ semaphore (limiter w) = v)
       (check_resolve_limit now)
       (fun _ w => on_limiter I w /\ semaphore (limiter w) = v)
       (failed I J r) (fun _ => False).
Proof.
  unfold check_resolve_limit.
  eapply spec_bind with (R := fun (_ : bool) w => on_limiter I w /\ semaphore (limiter w) = v).
  { apply spec_gets. auto. }
  intros due.
  eapply spec_bind with (R := fun (_ : unit) w => on_limiter I w /\ semaphore (limiter w) = v).
  { destruct due.
    - apply spec_modify. unfold on_limiter; simpl. intros w [Hw Hv]. auto.
    - apply spec_ret. auto. }
  intros ?. apply spec_gets. auto.
Qed.

Lemma resolve_gate_spec method_name v :
  spec (fun w => on_limiter I w /\ semaphore (limiter w) = v)
       (resolve_gate r method_name)
       (fun _ w => on_limiter I w /\ semaphore (limiter w) = v)
       (failed I J r) (fun _ => False).
Proof.
  unfold resolve_gate.
  destruct (Py.contains "resolve" (Py.lower method_name)); [| apply spec_ret; auto].
  eapply spec_bind with (R := fun (_ : unit) w => on_limiter I w /\ semaphore (limiter w) = v).
  { unfold fault_at. destruct (fault r AtResolveCheck) as [e |] eqn:Hf.
    - apply spec_raise. intros w [Hw _]. split; [left; exact Hw |].
      right; right. exists AtResolveCheck. exact Hf.
    - apply spec_ret. auto. }
  intros ?.
  eapply spec_bind; [apply check_resolve_limit_spec | intros ok].
  destruct ok; simpl; [| apply spec_ret; auto].
  eapply spec_bind with (R := fun (_ : unit) w => on_limiter I w /\ semaphore (limiter w) = v).
  { unfold fault_at. destruct (fault r AtResolveRecord) as [e |] eqn:Hf.
    - apply spec_raise. intros w [Hw _]. split; [left; exact Hw |].
      right; right. exists AtResolveRecord. exact Hf.
    - apply spec_ret. auto. }
  intros ?.
  eapply spec_bind with (R := fun (_ : unit) w => on_limiter I w /\ semaphore (limiter w) = v).
  { apply spec_modify. unfold on_limiter; simpl. intros w [Hw Hv]. auto. }
  intros ?. apply spec_ret. auto.
Qed.

Lemma admission_spec method_name chat_id priority v :
  spec (fun w => on_limiter I w /\ semaphore (limiter w) = v)
       (admission r method_name chat_id priority)
       (fun granted w => if granted then on_limiter J w else on_limiter I w)
       (failed I J r)
       (fun w => on_limiter I w /\ v <= 0).
Proof.
  unfold admission.
  eapply spec_bind with
    (R := fun (_ : bool) w => on_limiter I w /\ semaphore (limiter w) = v).
  { eapply spec_weaken; [apply (resolve_gate_spec method_name v) | auto | auto | auto |].
    intros w []. }
  intros proceed. destruct proceed; simpl.
  - eapply spec_weaken;
      [apply (gated_spec method_name chat_id priority v)
      | auto | | auto | auto ].
    simpl. intros a w [-> Hw]. exact Hw.
  - apply spec_ret. simpl. intros w [Hw _]. exact Hw.
Qed.

End Admission.

(** ** [acquire] always decides *)

Section AcquireDecides.
Import Eff Hoare Limiter.

Lemma pacing_stable_trivial : pacing_stable (fun _ => True).
Proof. split; auto. Qed.

Lemma expected_is_Exception r e :
  (forall p e', fault r p = Some e' -> Py.is_Exception e' = true) ->
  expected r e -> Py.is_Exception e = true.
Proof.
  intros Hf [-> | [-> | [p Hp]]]; try reflexivity.
  eapply Hf; eauto.
Qed.

Lemma admission_outcomes r method_name chat_id priority w :
  match admission r method_name chat_id priority w with
  | (Ok _, _) => True
  | (Raise e, _) => expected r e
  | (Blocked, _) => semaphore (limiter w) <= 0
  end.
Proof.
  pose proof (admission_spec (fun _ => True) (fun _ => True)) as Hspec.
  specialize (Hspec (fun _ _ _ => Logic.I) pacing_stable_trivial r
                (fun _ _ => Logic.I) (fun _ _ _ => Logic.I) (fun _ _ _ => Logic.I)
                method_name chat_id priority (semaphore (limiter w)) w).
  specialize (Hspec (conj Logic.I eq_refl)).
  destruct (admission r method_name chat_id priority w) as [[b | e |] w']; auto.
  - destruct Hspec as [_ He]. exact He.
  - destruct Hspec as [_ Hv]. exact Hv.
Qed.

(** C3.  Whatever unexpected failure ([Exception]) a statement of the
    admission sequence raises, [acquire] does not let an exception out:
    a failure raised inside the sequence is caught and the caller is
    handed [False]; and, a concurrency slot being free, the caller is
    always handed a boolean. *)
Theorem acquire_always_decides (r : Readings) (method_name : string)
    (chat_id : option chat_ref) (priority : Z) (w : World) :
  (forall p e, fault r p = Some e -> Py.is_Exception e = true) ->
  (forall e w', acquire r method_name chat_id priority w <> (Propagated e, w'))
  /\ (0 < semaphore (limiter w) ->
      exists granted at_ w',
        acquire r method_name chat_id priority w = (Yielded granted at_, w'))
  /\ (forall e w1,
        admission r method_name chat_id priority w = (Raise e, w1) ->
        acquire r method_name chat_id priority w = (Yielded false (YieldHandler e), w1)).
Proof.
  intros Hfaults.
  pose proof (admission_outcomes r method_name chat_id priority w) as Hout.
  unfold acquire.
  destruct (admission r method_name chat_id priority w) as [[[|] | e |] w'].
  - repeat split; try discriminate. intros _. eauto.
  - repeat split; try discriminate. intros _. eauto.
  - rewrite (expected_is_Exception r e Hfaults Hout).
    repeat split; try discriminate.
    + intros _. eauto.
    + intros e0 w1 [= -> ->]. reflexivity.
  - repeat split; try discriminate. intros Hpos. lia.
Qed.

Lemma acquire_always_decides_witness :
  let r := Scenario.failing_at AtGlobalLimit (Py.OtherException "MemoryError") 7 in
  let w := new_world default_config in
  (forall p e, fault r p = Some e -> Py.is_Exception e = true)
  /\ acquire r "send_message" (Some (ChatInt 42)) 5 w
     = (Yielded false (YieldHandler (Py.OtherException "MemoryError")),
        snd (admission r "send_message" (Some (ChatInt 42)) 5 w)).
Proof.
  cbv zeta.
  assert (Hf : forall p e,
             fault (Scenario.failing_at AtGlobalLimit (Py.OtherException "MemoryError") 7) p
             = Some e -> Py.is_Exception e = true).
  { intros p e. destruct p; simpl; intros H; inversion H; reflexivity. }
  split; [exact Hf |].
  apply (acquire_always_decides _ "send_message" (Some (ChatInt 42)) 5
           (new_world default_config) Hf).
  reflexivity.
Defined.

(** Cancellation is not an [Exception]: a [CancelledError] raised while
    the task waits goes through [except Exception] to the caller. *)
Lemma cancellation_propagates :
  fst (acquire (Scenario.failing_at AtGlobalLimit Py.CancelledError 7)
         "send_message" (Some (ChatInt 42)) 5 (new_world default_config))
  = Propagated Py.CancelledError.
Proof. vm_compute. reflexivity. Qed.

End AcquireDecides.

(** ** Which calls count against the daily quota *)

Section ResolveClass.
Import Eff Hoare Limiter.





Lemma acquire_world r method_name chat_id priority w :
  snd (acquire r method_name chat_id priority w)
  = snd (admission r method_name chat_id priority w).
Proof.
  unfold acquire.
  destruct (admission r method_name chat_id priority w) as [[[|] | e |] w'];
    try reflexivity.
  destruct (Py.is_Exception e); reflexivity.
Qed.

Lemma check_resolve_limit_eq now w :
  check_resolve_limit now w
  = let s1 := if Stats.rollover_due now (stats (limiter w))
              then Stats.reset_resolve now (stats (limiter w))
              else stats (limiter w) in
    (Ok (resolve_requests_today s1 <? resolve_daily_limit (config (limiter w))),
     {| limiter := set_stats (fun _ => s1) (limiter w); slept := slept w |}).
Proof.
  unfold check_resolve_limit, bind, gets, modify, ret. cbv zeta.
  destruct w as [[c s g ch sem] sl]. simpl.
  destruct (Stats.rollover_due now s); reflexivity.
Qed.

Lemma quota_fixed_stable c reset : pacing_stable (quota_fixed c reset).
Proof. split; unfold quota_fixed; simpl; auto. Qed.

(** Beyond the quota gate nothing touches the daily counter. *)
Lemma gated_keeps_quota r method_name chat_id priority w :
  Scenario.quota_state (snd (gated r method_name chat_id priority w))
  = Scenario.quota_state w.
Proof.
  set (c := resolve_requests_today (stats (limiter w))).
  set (reset := resolve_last_reset (stats (limiter w))).
  pose proof (gated_spec (quota_fixed c reset) (quota_fixed c reset)) as Hspec.
  specialize (Hspec (stable_semaphore _ (quota_fixed_stable c reset))
                (quota_fixed_stable c reset) r).
  specialize (Hspec (fun L H => H) method_name chat_id priority
                (semaphore (limiter w)) w (conj (conj eq_refl eq_refl) eq_refl)).
  unfold Scenario.quota_state. fold c reset.
  destruct (gated r method_name chat_id priority w) as [[b | e |] w']; simpl.
  - destruct Hspec as [_ [-> ->]]. reflexivity.
  - destruct Hspec as [[[-> ->] | [-> ->]] _]; reflexivity.
  - destruct Hspec as [[-> ->] _]. reflexivity.
Qed.

(** For the daily quota a run of [acquire] is a run of its quota gate. *)
Lemma acquire_quota_is_gate r method_name chat_id priority w :
  Scenario.quota_state (snd (acquire r method_name chat_id priority w))
  = Scenario.quota_state (snd (resolve_gate r method_name w)).
Proof.
  rewrite acquire_world. unfold admission, bind.
  destruct (resolve_gate r method_name w) as [[[|] | e |] w1]; simpl;
    try reflexivity.
  apply gated_keeps_quota.
Qed.

(** [record_resolve_request] is only called behind [check_resolve_limit],
    which leaves a reset instant: in [acquire] the tracker it counts on
    has been reset before. *)
Lemma check_resolve_limit_sets_reset now w :
  resolve_last_reset (stats (limiter (snd (check_resolve_limit now w)))) <> None.
Proof.
  rewrite check_resolve_limit_eq. cbv zeta. simpl.
  unfold Stats.rollover_due.
  destruct (resolve_last_reset (stats (limiter w))) as [t0 |] eqn:Hr.
  - destruct (1 <=? Py.timedelta_days now t0); simpl; congruence.
  - simpl. discriminate.
Qed.


End ResolveClass.

(** ** The daily quota *)

Section DailyQuota.
Import Eff Hoare Limiter Scenario.

Lemma resolve_gate_eq r method_name w :
  Py.contains "resolve" (Py.lower method_name) = true ->
  fault r AtResolveCheck = None ->
  fault r AtResolveRecord = None ->
  resolve_gate r method_name w
  = match check_resolve_limit (dt_check r) w with
    | (Ok true, w1) =>
        (Ok true,
         {| limiter := set_stats (Stats.record_resolve_request (dt_resolve r)) (limiter w1);
            slept := slept w1 |})
    | (Ok false, w1) => (Ok false, w1)
    | other => (Ok false, snd other)
    end.
Proof.
  intros Hc Hf1 Hf2. unfold resolve_gate, bind, fault_at. rewrite Hc, Hf1, Hf2.
  unfold ret. rewrite check_resolve_limit_eq. cbv zeta.
  match goal with
  | |- context [Ok ?b] => destruct b
  end; reflexivity.
Qed.

Lemma not_due now t0 s :
  resolve_last_reset s = Some t0 ->
  Py.timedelta_days now t0 < 1 ->
  Stats.rollover_due now s = false.
Proof.
  intros Hr Hd. unfold Stats.rollover_due. rewrite Hr. apply Z.leb_gt. exact Hd.
Qed.

Lemma due_again now t0 s :
  resolve_last_reset s = Some t0 ->
  1 <= Py.timedelta_days now t0 ->
  Stats.rollover_due now s = true.
Proof.
  intros Hr Hd. unfold Stats.rollover_due. rewrite Hr. apply Z.leb_le. exact Hd.
Qed.

Lemma counted_call t0 c limit r w :
  in_day t0 c limit w -> c < limit -> same_day t0 r ->
  in_day t0 (c + 1) limit (snd (resolve_gate r "resolve_username" w)).
Proof.
  intros (Hr & Hc & Hl) Hlt (Hf1 & Hf2 & Hd1 & Hd2).
  rewrite (resolve_gate_eq r "resolve_username" w eq_refl Hf1 Hf2).
  rewrite check_resolve_limit_eq. cbv zeta.
  rewrite (not_due _ _ _ Hr Hd1), Hc, Hl.
  destruct (Z.ltb_spec c limit) as [_ | Hge]; [| lia].
  unfold in_day. simpl. unfold Stats.record_resolve_request.
  rewrite (not_due _ _ _ Hr Hd2). simpl. repeat split; auto. lia.
Qed.

Lemma counted_calls t0 limit rs :
  forall c w,
    in_day t0 c limit w ->
    c + Z.of_nat (length rs) <= limit ->
    Forall (same_day t0) rs ->
    in_day t0 (c + Z.of_nat (length rs)) limit (resolve_calls rs w).
Proof.
  induction rs as [| r rs IH]; intros c w Hin Hle Hall.
  - simpl. rewrite Z.add_0_r. exact Hin.
  - inversion Hall as [| ? ? Hr Hrs]; subst.
    cbn [resolve_calls length] in *.
    replace (c + Z.of_nat (S (length rs))) with ((c + 1) + Z.of_nat (length rs)) by lia.
    apply IH; [| lia | exact Hrs].
    apply counted_call; [exact Hin | lia | exact Hr].
Qed.

Lemma first_call_of_day limit r w :
  resolve_daily_limit (config (limiter w)) = limit -> 0 < limit ->
  Stats.rollover_due (dt_check r) (stats (limiter w)) = true ->
  same_day (dt_check r) r ->
  in_day (dt_check r) 1 limit (snd (resolve_gate r "resolve_username" w)).
Proof.
  intros Hl Hpos Hdue (Hf1 & Hf2 & Hd1 & Hd2).
  rewrite (resolve_gate_eq r "resolve_username" w eq_refl Hf1 Hf2).
  rewrite check_resolve_limit_eq. cbv zeta. rewrite Hdue, Hl. simpl.
  destruct (Z.ltb_spec 0 limit) as [_ | Hge]; [| lia].
  unfold in_day. simpl. unfold Stats.record_resolve_request.
  rewrite (not_due (dt_resolve r) (dt_check r)); simpl; auto.
Qed.

Lemma check_in_day t0 c limit now w :
  in_day t0 c limit w ->
  (Py.timedelta_days now t0 < 1 ->
   check_resolve_limit now w = (Ok (c <? limit), w))
  /\ (1 <= Py.timedelta_days now t0 ->
      fst (check_resolve_limit now w) = Ok (0 <? limit)).
Proof.
  intros (Hr & Hc & Hl). split; intros Hd; rewrite check_resolve_limit_eq; cbv zeta.
  - rewrite (not_due _ _ _ Hr Hd), Hc, Hl.
    destruct w as [[cf s g ch sem] sl]. reflexivity.
  - rewrite (due_again _ _ _ Hr Hd), Hl. reflexivity.
Qed.

(** C8, as amended.  With [resolve_daily_limit = 200], once 200
    resolve-class calls have passed the quota gate of [acquire] and been
    counted on one day (the first of them starting the day, none of them
    24 hours or more after it), [check_resolve_limit()] returns [False]
    and changes nothing, so it keeps returning [False], as long as less
    than 24 hours have passed since the start of that day; the first check
    24 hours or more after it returns [True]. *)
Theorem quota_exhausted_after_counted_calls
    (w : World) (r1 : Readings) (rest : list Readings) (now : Py.datetime) :
  resolve_daily_limit (config (limiter w)) = 200 ->
  Stats.rollover_due (dt_check r1) (stats (limiter w)) = true ->
  length (r1 :: rest) = 200%nat ->
  Forall (same_day (dt_check r1)) (r1 :: rest) ->
  let w' := resolve_calls (r1 :: rest) w in
  resolve_requests_today (stats (limiter w')) = 200
  /\ (Py.timedelta_days now (dt_check r1) < 1 ->
      check_resolve_limit now w' = (Ok false, w'))
  /\ (1 <= Py.timedelta_days now (dt_check r1) ->
      fst (check_resolve_limit now w') = Ok true).
Proof.
  intros Hl Hdue Hlen Hall. cbv zeta.
  inversion Hall as [| ? ? Hr1 Hrest]; subst.
  cbn [resolve_calls length] in *.
  assert (Hin : in_day (dt_check r1) 200 200
                  (resolve_calls rest (snd (resolve_gate r1 "resolve_username" w)))).
  { replace 200 with (1 + Z.of_nat (length rest)) at 1 by lia.
    apply counted_calls; [| lia | exact Hrest].
    apply first_call_of_day; auto. lia. }
  destruct (check_in_day _ _ _ now _ Hin) as [Hsame Hnext].
  split; [apply Hin |]. split; auto.
Qed.

End DailyQuota.

Section DailyQuotaRuns.
Import Limiter Scenario.

Lemma same_day_at_time_0 : same_day (dt_check (at_time 0)) (at_time 0).
Proof. repeat split; reflexivity. Qed.

Lemma quota_exhausted_after_counted_calls_witness :
  let w := new_world default_config in
  let r := at_time 0 in
  let w' := resolve_calls (r :: repeat r 199) w in
  resolve_daily_limit (config (limiter w)) = 200
  /\ Stats.rollover_due (dt_check r) (stats (limiter w)) = true
  /\ resolve_requests_today (stats (limiter w')) = 200
  /\ check_resolve_limit 3600000000 w' = (Ok false, w').
Proof.
  cbv zeta.
  assert (Hall : Forall (same_day (dt_check (at_time 0)))
                        (at_time 0 :: repeat (at_time 0) 199)).
  { constructor; [exact same_day_at_time_0 |].
    apply List.Forall_forall. intros x Hx. apply repeat_spec in Hx. subst x.
    exact same_day_at_time_0. }
  assert (Hlen : length (at_time 0 :: repeat (at_time 0) 199) = 200%nat).
  { cbn [length]. rewrite repeat_length. reflexivity. }
  destruct (quota_exhausted_after_counted_calls
              (new_world default_config) (at_time 0) (repeat (at_time 0) 199)
              3600000000 eq_refl eq_refl Hlen Hall) as (Hcount & Hsame & _).
  split; [reflexivity |]. split; [reflexivity |]. split; [exact Hcount |].
  apply Hsame. reflexivity.
Defined.

(** Calling [check_resolve_limit()] 200 times counts nothing: on a fresh
    limiter with the default limit of 200 the 201st call, made at the same
    instant, still returns [True]. *)
Lemma check_resolve_limit_does_not_count :
  let w := check_times 200 0 (new_world default_config) in
  resolve_daily_limit (config (limiter w)) = 200
  /\ resolve_requests_today (stats (limiter w)) = 0
  /\ fst (check_resolve_limit 0 w) = Ok true
  /\ fst (check_resolve_limit 0 w) <> Ok false.
Proof.
  cbv zeta.
  assert (H : fst (check_resolve_limit 0 (check_times 200 0 (new_world default_config)))
              = Ok true) by (vm_compute; reflexivity).
  split; [vm_compute; reflexivity |].
  split; [vm_compute; reflexivity |].
  split; [exact H |].
  rewrite H. discriminate.
Qed.

End DailyQuotaRuns.

Section ResolveClassRuns.
Import Limiter Scenario.


End ResolveClassRuns.

(** ** The tracker states the code reaches *)

Section TrackerRuns.
Import Eff Hoare Limiter.

Lemma tracked_stable n : pacing_stable (tracked (S n)).
Proof.
  split; unfold tracked; simpl; auto.
  intros L H. apply Tracker.reach_rate_limited. exact H.
Qed.

Lemma admission_tracked n r method_name chat_id priority w :
  tracked n (limiter w) ->
  match admission r method_name chat_id priority w with
  | (Ok true, w') => tracked (S n) (limiter w')
  | (_, w') => tracked n (limiter w')
  end.
Proof.
  intros Hw.
  pose proof (admission_spec (tracked n) (tracked (S n))) as Hspec.
  specialize (Hspec (fun _ _ H => H) (tracked_stable n) r).
  specialize (Hspec (fun L H => Tracker.reach_request _ _ _ H)
                (fun now L H => Tracker.reach_reset _ _ now H)
                (fun now L H => Tracker.reach_resolve _ _ now H)
                method_name chat_id priority (semaphore (limiter w)) w
                (conj Hw eq_refl)).
  destruct (admission r method_name chat_id priority w) as [[[|] | e |] w'];
    unfold on_limiter in Hspec; auto.
  - destruct Hspec as [[H | H] _]; [exact H |].
    apply Tracker.reach_denied. exact H.
  - destruct Hspec as [H _]. exact H.
Qed.

Lemma acquire_tracked n r method_name chat_id priority w :
  tracked n (limiter w) ->
  match acquire r method_name chat_id priority w with
  | (Yielded true at_, w') => at_ = YieldGranted /\ tracked (S n) (limiter w')
  | (Yielded false at_, w') => at_ <> YieldGranted /\ tracked n (limiter w')
  | (_, w') => tracked n (limiter w')
  end.
Proof.
  intros Hw. pose proof (admission_tracked n r method_name chat_id priority w Hw) as H.
  unfold acquire.
  destruct (admission r method_name chat_id priority w) as [[[|] | e |] w'].
  - split; [reflexivity | exact H].
  - split; [discriminate | exact H].
  - destruct (Py.is_Exception e); [split; [discriminate | exact H] | exact H].
  - exact H.
Qed.

Lemma retry_loop_tracked {V} n rate_limiter (func : nat -> Retry.attempt V) dt max_retries :
  forall fuel retries calls w run,
    tracked (S n) (limiter w) ->
    Retry.retry_loop fuel func dt max_retries rate_limiter retries calls w = Some run ->
    tracked (S n) (limiter (Retry.world run)).
Proof.
  induction fuel as [| fuel IH]; intros retries calls w run Hw Hrun;
    cbn [Retry.retry_loop] in Hrun;
    destruct (retries <=? max_retries); try discriminate;
    try (injection Hrun as <-; exact Hw).
  assert (Hflood : forall now, tracked (S n) (limiter (Retry.note_flood rate_limiter now w))).
  { intros now. unfold Retry.note_flood. destruct rate_limiter; [| exact Hw].
    apply Tracker.reach_flood_error. exact Hw. }
  destruct (func calls) as [v | e]; [injection Hrun as <-; exact Hw |].
  destruct e; try (injection Hrun as <-; exact Hw).
  destruct (60 <? seconds); [injection Hrun as <-; apply Hflood |].
  destruct (max_retries <? retries + 1); [injection Hrun as <-; apply Hflood |].
  eapply IH; [| exact Hrun]. apply Hflood.
Qed.

Lemma retry_loop_untracked {V} (func : nat -> Retry.attempt V) dt max_retries :
  forall fuel retries calls w run,
    Retry.retry_loop fuel func dt max_retries false retries calls w = Some run ->
    limiter (Retry.world run) = limiter w.
Proof.
  induction fuel as [| fuel IH]; intros retries calls w run Hrun;
    cbn [Retry.retry_loop] in Hrun;
    destruct (retries <=? max_retries); try discriminate;
    try (injection Hrun as <-; reflexivity).
  destruct (func calls) as [v | e]; [injection Hrun as <-; reflexivity |].
  destruct e; try (injection Hrun as <-; reflexivity).
  destruct (60 <? seconds); [injection Hrun as <-; reflexivity |].
  destruct (max_retries <? retries + 1); [injection Hrun as <-; reflexivity |].
  apply IH in Hrun. exact Hrun.
Qed.

(** Leaving a granted block closes the acquisition, except that a
    generator left suspended keeps it open until it is finalized. *)
Lemma release_granted_open closes n body w :
  tracked (S n) (limiter w) ->
  tracked (if Release.suspended closes YieldGranted body then S n else n)
          (limiter (snd (Release.release closes YieldGranted body w))).
Proof.
  intros Hw. destruct body as [e |]; simpl;
    [| apply Tracker.reach_success; exact Hw].
  destruct (Py.is_Exception e); simpl;
    [| apply Tracker.reach_success; exact Hw].
  destruct closes; simpl; [apply Tracker.reach_success |]; exact Hw.
Qed.

Lemma finalize_tracked n w :
  tracked (S n) (limiter w) ->
  tracked n (limiter (Release.finalize YieldGranted w)).
Proof. intros Hw. simpl. apply Tracker.reach_success. exact Hw. Qed.

Lemma release_granted_tracked closes n body w :
  tracked (S n) (limiter w) ->
  tracked n (limiter (snd (Release.release closes YieldGranted body w))).
Proof.
  intros Hw. pose proof (release_granted_open closes n body w Hw) as H.
  destruct (Release.suspended closes YieldGranted body); [| exact H].
  apply Tracker.reach_denied. exact H.
Qed.

Lemma release_denied_world closes at_ body w :
  at_ <> YieldGranted -> snd (Release.release closes at_ body w) = w.
Proof. intros Hne. destruct at_, body; simpl; congruence. Qed.

(** A run of a decorated tool takes the tracker from a reachable state to
    a reachable state.  The acquisitions open are as many as before; one
    whose generator is left suspended is open until [Release.finalize]
    closes it ([release_granted_open], [finalize_tracked]). *)
Lemma handle_flood_wait_tracked {V} closes n max_retries use_rate_limiter method_name
    chat_id (func : nat -> Retry.attempt V) dt_pre r dt w :
  tracked n (limiter w) ->
  tracked n (limiter (snd (Retry.handle_flood_wait closes max_retries use_rate_limiter
                             method_name chat_id func dt_pre r dt w))).
Proof.
  intros Hw. unfold Retry.handle_flood_wait.
  destruct use_rate_limiter.
  - set (pre := if Py.mem method_name Retry.resolve_methods
                then match check_resolve_limit dt_pre w with
                     | (Ok b, w') => (b, w')
                     | (_, w') => (true, w')
                     end
                else (true, w)).
    assert (Hpre : tracked n (limiter (snd pre))).
    { unfold pre. destruct (Py.mem method_name Retry.resolve_methods); [| exact Hw].
      rewrite check_resolve_limit_eq. cbv zeta. simpl.
      destruct (Stats.rollover_due dt_pre (stats (limiter w))); [| exact Hw].
      apply Tracker.reach_reset. exact Hw. }
    destruct pre as [quota_ok w0]. simpl in Hpre.
    destruct quota_ok; simpl; [| exact Hpre].
    pose proof (acquire_tracked n r method_name chat_id
                  (Retry.priority_of method_name) w0 Hpre) as Hacq.
    destruct (acquire r method_name chat_id (Retry.priority_of method_name) w0)
      as [[[|] at_ | e |] w1]; try exact Hacq.
    + destruct Hacq as [-> Hw1]. unfold Retry.finish, Retry._execute_with_retry.
      destruct (Retry.retry_loop _ func dt max_retries true 0 0 w1) as [run |] eqn:Hrun.
      * pose proof (retry_loop_tracked n true func dt max_retries _ _ _ _ _ Hw1 Hrun)
          as Hrun'.
        destruct (Retry.outcome run) as [v | e |].
        -- pose proof (release_granted_tracked closes n None _ Hrun') as Hrel.
           destruct (Release.release closes YieldGranted None (Retry.world run))
             as [[e' |] w2]; exact Hrel.
        -- pose proof (release_granted_tracked closes n (Some e) _ Hrun') as Hrel.
           destruct (Release.release closes YieldGranted (Some e) (Retry.world run))
             as [[e' |] w2]; exact Hrel.
        -- simpl. apply Tracker.reach_denied. exact Hrun'.
      * simpl. apply Tracker.reach_denied. exact Hw1.
    + destruct Hacq as [Hne Hw1].
      pose proof (release_denied_world closes at_ None w1 Hne) as Hrel.
      destruct (Release.release closes at_ None w1) as [[e' |] w2]; simpl in *; subst w2;
        exact Hw1.
  - unfold Retry.finish, Retry._execute_with_retry.
    destruct (Retry.retry_loop _ func dt max_retries false 0 0 w) as [run |] eqn:Hrun;
      [| exact Hw].
    apply retry_loop_untracked in Hrun.
    destruct (Retry.outcome run); simpl; unfold tracked; rewrite Hrun; exact Hw.
Qed.

End TrackerRuns.

Section TrackerExamples.
Import Limiter Scenario.

Lemma twice_throttled_reachable :
  Tracker.reachable (stats (limiter twice_throttled)) 0.
Proof.
  apply (handle_flood_wait_tracked (V := string) false 0 3 true "send_message").
  exact Tracker.reach_fresh.
Qed.

Lemma once_served_reachable :
  Tracker.reachable (stats (limiter once_served)) 0.
Proof.
  apply (handle_flood_wait_tracked (V := string) false 0 3 true "get_me").
  exact Tracker.reach_fresh.
Qed.

Lemma just_granted_reachable :
  Tracker.reachable (stats (limiter just_granted)) 1.
Proof.
  pose proof (acquire_tracked 0 (at_time 0) "get_me" None 5 (new_world default_config)
                Tracker.reach_fresh) as H.
  unfold just_granted.
  destruct (acquire (at_time 0) "get_me" None 5 (new_world default_config))
    as [[[|] at_ | e |] w'] eqn:Hacq; try (vm_compute in Hacq; discriminate).
  apply H.
Qed.

(** The claim of C6 fails on reachable states.  After one [send_message]
    that was throttled twice and then succeeded the tracker has one
    request and two flood errors: [flood_rate] is 2.  After one call
    served without throttling [flood_rate] is 0 although
    [total_requests] is 1; and between the grant and the end of a call
    [success_rate] is 0 although [total_requests] is 1. *)
Lemma rates_claim_fails :
  let busy := stats (limiter twice_throttled) in
  let calm := stats (limiter once_served) in
  let open := stats (limiter just_granted) in
  (Tracker.reachable busy 0 /\ (Stats.flood_rate busy == 2)%Q
   /\ ~ (Stats.flood_rate busy <= 1)%Q)
  /\ (Tracker.reachable calm 0 /\ (Stats.flood_rate calm == 0)%Q
      /\ total_requests calm <> 0)
  /\ (Tracker.reachable open 1 /\ (Stats.success_rate open == 0)%Q
      /\ total_requests open <> 0).
Proof.
  cbv zeta. split; [| split].
  - split; [exact twice_throttled_reachable |]. split.
    + vm_compute. reflexivity.
    + vm_compute. intros H. apply H. reflexivity.
  - split; [exact once_served_reachable |]. split.
    + vm_compute. reflexivity.
    + vm_compute. discriminate.
  - split; [exact just_granted_reachable |]. split.
    + vm_compute. reflexivity.
    + vm_compute. discriminate.
Qed.

Lemma rates_of_reachable_tracker_witness :
  let busy := stats (limiter twice_throttled) in
  Tracker.reachable busy 0
  /\ (Stats.success_rate busy <= 1)%Q
  /\ (0 <= Stats.flood_rate busy)%Q.
Proof.
  cbv zeta. split; [exact twice_throttled_reachable |].
  destruct (rates_of_reachable_tracker _ 0 twice_throttled_reachable)
    as ((_ & Hle) & Hflood & _).
  split; [exact Hle | exact Hflood].
Defined.

End TrackerExamples.

(** ** Sliding windows *)

Section WindowFacts.
Import Engine.

Lemma cleanup_drops_prefix now queue window_seconds :
  exists dropped,
    queue = dropped ++ Window._cleanup_old_requests now queue window_seconds.
Proof.
  induction queue as [| t rest IH]; simpl.
  - exists []. reflexivity.
  - destruct (Qle_bool t (now - inject_Z window_seconds)).
    + destruct IH as [dropped IH]. exists (t :: dropped). simpl. congruence.
    + exists []. reflexivity.
Qed.

Lemma nondecreasing_tail t q : nondecreasing (t :: q) -> nondecreasing q.
Proof. simpl. intros [_ H]. exact H. Qed.

Lemma nondecreasing_head t q :
  nondecreasing (t :: q) -> Forall (fun t' => (t <= t')%Q) q.
Proof.
  revert t. induction q as [| u q IH]; intros t H; constructor.
  - destruct H as [H _]. exact H.
  - destruct H as [Htu Hq]. specialize (IH u Hq).
    eapply Forall_impl; [exact IH |]. simpl. intros x Hx. lra.
Qed.

Lemma cleanup_nondecreasing now queue window_seconds :
  nondecreasing queue ->
  nondecreasing (Window._cleanup_old_requests now queue window_seconds).
Proof.
  induction queue as [| t rest IH]; intros H; [exact H |].
  cbn [Window._cleanup_old_requests].
  destruct (Qle_bool t (now - inject_Z window_seconds)); [| exact H].
  apply IH. eapply nondecreasing_tail; eauto.
Qed.

Lemma cleanup_Forall (P : Q -> Prop) now queue window_seconds :
  Forall P queue -> Forall P (Window._cleanup_old_requests now queue window_seconds).
Proof.
  induction 1 as [| t rest Ht Hrest IH]; [constructor |].
  cbn [Window._cleanup_old_requests].
  destruct (Qle_bool t (now - inject_Z window_seconds)); [exact IH |].
  constructor; assumption.
Qed.

(** After eviction every timestamp of an ordered window is younger than
    the window. *)
Lemma cleanup_fresh now queue window_seconds :
  nondecreasing queue ->
  Forall (fun t => (now - t < inject_Z window_seconds)%Q)
         (Window._cleanup_old_requests now queue window_seconds).
Proof.
  induction queue as [| t rest IH]; intros H; [constructor |].
  cbn [Window._cleanup_old_requests].
  destruct (Qle_bool t (now - inject_Z window_seconds)) eqn:Hold.
  - apply IH. eapply nondecreasing_tail; eauto.
  - assert (Ht : (now - inject_Z window_seconds < t)%Q).
    { apply Qnot_le_lt. intros Hle. apply Qle_bool_iff in Hle. congruence. }
    constructor; [lra |].
    eapply Forall_impl; [apply nondecreasing_head; exact H |].
    simpl. intros u Hu. lra.
Qed.

Lemma record_nondecreasing queue now :
  nondecreasing queue ->
  Forall (fun t => (t <= now)%Q) queue ->
  nondecreasing (Window.record queue now).
Proof.
  unfold Window.record.
  induction queue as [| t rest IH]; intros Hq Hall; [simpl; auto |].
  inversion Hall as [| ? ? Ht Hrest]; subst.
  destruct rest as [| u rest].
  - simpl. auto.
  - destruct Hq as [Htu Hq]. split; [exact Htu |].
    apply IH; assumption.
Qed.

End WindowFacts.

(** ** The windows of the engine stay ordered *)

Section EngineFacts.
Import Engine.

Lemma act_step a st st' : act a st = Some st' -> step st st'.
Proof.
  destruct a as [d | sc is_group | sc | sc | sc]; simpl.
  - destruct (Qle_bool 0 d) eqn:Hd; [| discriminate].
    intros [= <-]. apply step_tick. apply Qle_bool_iff. exact Hd.
  - destruct (lock_of sc st) eqn:Hl; [discriminate |].
    intros [= <-]. apply step_enter. exact Hl.
  - destruct (lock_of sc st) as [[now ws mr | ? ? ?] |] eqn:Hl; try discriminate.
    destruct (Limiter.limit_wait mr ws now _) as [w | e |] eqn:Hw; try discriminate;
      intros [= <-].
    + eapply step_check; eauto.
    + eapply step_check_raise; eauto.
  - destruct (lock_of sc st) as [[? ? ? | now w wake] |] eqn:Hl; try discriminate.
    destruct (Qle_bool wake (clock st)) eqn:Hd; [| discriminate].
    intros [= <-]. eapply step_leave; eauto. apply Qle_bool_iff. exact Hd.
  - destruct (lock_of sc st) as [h |] eqn:Hl; [| discriminate].
    intros [= <-]. eapply step_cancel; eauto.
Qed.

Lemma run_steps schedule : forall st st', run schedule st = Some st' -> rtc step st st'.
Proof.
  induction schedule as [| a rest IH]; intros st st'; simpl.
  - intros [= <-]. apply rtc_refl.
  - destruct (act a st) as [st1 |] eqn:Ha; [| discriminate].
    intros Hrun. eapply rtc_l; [apply (act_step a); exact Ha | apply IH; exact Hrun].
Qed.

Lemma chat_queue_set chat_id chat_id' q L :
  chat_queue chat_id' (set_chat_queue chat_id q L)
  = if decide (chat_id = chat_id') then q else chat_queue chat_id' L.
Proof.
  unfold chat_queue, set_chat_queue. simpl.
  destruct (decide (chat_id = chat_id')) as [-> | Hne].
  - rewrite lookup_insert_eq. reflexivity.
  - rewrite lookup_insert_ne by exact Hne. reflexivity.
Qed.

(** Reading a window after window [sc] was replaced by [q] in a limiter
    [L'] that has the windows of [lim st]. *)
Lemma queue_of_update sc sc' q h L' st :
  global_queue L' = global_queue (lim st) ->
  chat_queues L' = chat_queues (lim st) ->
  queue_of sc' (with_lock sc h (with_lim (with_queue sc q L') st))
  = if decide (sc = sc') then q else queue_of sc' st.
Proof.
  intros Hg Hc.
  destruct sc as [| chat_id], sc' as [| chat_id']; simpl.
  - destruct (decide (Global = Global)); [reflexivity | congruence].
  - destruct (decide (Global = Chat chat_id')); [discriminate |].
    unfold chat_queue. simpl. rewrite Hc. reflexivity.
  - destruct (decide (Chat chat_id = Global)); [discriminate | exact Hg].
  - rewrite chat_queue_set. unfold chat_queue. rewrite Hc.
    destruct (decide (chat_id = chat_id')) as [-> | Hne].
    + destruct (decide (Chat chat_id' = Chat chat_id')); [reflexivity | congruence].
    + destruct (decide (Chat chat_id = Chat chat_id')); [congruence | reflexivity].
Qed.

Lemma lock_of_update sc sc' h st :
  lock_of sc' (with_lock sc h st)
  = if decide (sc = sc') then h else lock_of sc' st.
Proof.
  destruct sc as [| chat_id], sc' as [| chat_id']; simpl.
  - destruct (decide (Global = Global)); [reflexivity | congruence].
  - destruct (decide (Global = Chat chat_id')); [discriminate | reflexivity].
  - destruct (decide (Chat chat_id = Global)); [discriminate | reflexivity].
  - destruct (decide (chat_id = chat_id')) as [-> | Hne].
    + destruct (decide (Chat chat_id' = Chat chat_id')); [| congruence].
      destruct h; [apply lookup_insert_eq | apply lookup_delete_eq].
    + destruct (decide (Chat chat_id = Chat chat_id')); [congruence |].
      destruct h; [apply lookup_insert_ne | apply lookup_delete_ne]; exact Hne.
Qed.

Lemma clock_update sc h L st : clock (with_lock sc h (with_lim L st)) = clock st.
Proof. destruct sc; reflexivity. Qed.

Lemma lock_of_with_lim sc L st : lock_of sc (with_lim L st) = lock_of sc st.
Proof. destruct sc; reflexivity. Qed.

(** Replacing one window and the holder of its lock keeps the invariant
    when the new window and holder are fine. *)
Lemma update_ok st sc q h L' :
  invariant st ->
  global_queue L' = global_queue (lim st) ->
  chat_queues L' = chat_queues (lim st) ->
  nondecreasing q ->
  Forall (fun t => (t <= clock st)%Q) q ->
  match h with
  | Some h' => Forall (fun t => (t <= holder_now h')%Q) q /\ (holder_now h' <= clock st)%Q
  | None => True
  end ->
  invariant (with_lock sc h (with_lim (with_queue sc q L') st)).
Proof.
  intros Hinv Hg Hc Hq Hclock Hh sc'. unfold scope_ok.
  rewrite (queue_of_update sc sc' q h L' st Hg Hc).
  rewrite lock_of_update, lock_of_with_lim, clock_update.
  destruct (decide (sc = sc')) as [-> | Hne].
  - repeat split; assumption.
  - apply Hinv.
Qed.

Lemma count_limited_global w L : global_queue (count_limited w L) = global_queue L.
Proof. destruct w; reflexivity. Qed.

Lemma count_limited_chats w L : chat_queues (count_limited w L) = chat_queues L.
Proof. destruct w; reflexivity. Qed.

Lemma step_invariant st st' : step st st' -> invariant st -> invariant st'.
Proof.
  intros Hstep Hinv.
  destruct Hstep as [st d Hd | st sc is_group Hl | st sc now ws mr w Hl queue Hw
                    | st sc now ws mr e Hl queue Hw | st sc now w wake Hl Hwake
                    | st sc h Hl].
  - intros sc. destruct (Hinv sc) as (Hq & Hclock & Hh). unfold scope_ok.
    change (queue_of sc _) with (queue_of sc st).
    change (lock_of sc _) with (lock_of sc st). simpl clock.
    split; [exact Hq |]. split.
    + eapply Forall_impl; [exact Hclock |]. simpl. intros t Ht. lra.
    + destruct (lock_of sc st) as [h |]; [| exact Logic.I].
      destruct Hh as [Hall Hnow]. split; [exact Hall | lra].
  - destruct (Hinv sc) as (Hq & Hclock & _).
    apply update_ok; auto. simpl. split; [exact Hclock | lra].
  - destruct (Hinv sc) as (Hq & Hclock & Hh). rewrite Hl in Hh. simpl in Hh.
    destruct Hh as [Hall Hnow].
    apply update_ok; auto.
    + apply cleanup_nondecreasing. exact Hq.
    + apply cleanup_Forall. exact Hclock.
    + simpl. split; [apply cleanup_Forall; exact Hall | exact Hnow].
  - destruct (Hinv sc) as (Hq & Hclock & _).
    apply update_ok; auto.
    + apply cleanup_nondecreasing. exact Hq.
    + apply cleanup_Forall. exact Hclock.
  - destruct (Hinv sc) as (Hq & Hclock & Hh). rewrite Hl in Hh. simpl in Hh.
    destruct Hh as [Hall Hnow].
    apply update_ok; auto using count_limited_global, count_limited_chats.
    + apply record_nondecreasing; assumption.
    + unfold Window.record. apply Forall_app. split; [exact Hclock |].
      constructor; [exact Hnow | constructor].
  - intros sc'. destruct (Hinv sc') as (Hq & Hclock & Hh). unfold scope_ok.
    rewrite lock_of_update.
    assert (Hsame : queue_of sc' (with_lock sc None st) = queue_of sc' st)
      by (destruct sc, sc'; reflexivity).
    assert (Hclk : clock (with_lock sc None st) = clock st) by (destruct sc; reflexivity).
    rewrite Hsame, Hclk.
    split; [exact Hq |]. split; [exact Hclock |].
    destruct (decide (sc = sc')); [exact Logic.I | exact Hh].
Qed.

Lemma init_invariant c : invariant (init c).
Proof.
  intros sc. unfold scope_ok.
  assert (Hq : queue_of sc (init c) = []) by (destruct sc; reflexivity).
  assert (Hl : lock_of sc (init c) = None).
  { destruct sc; [reflexivity | apply lookup_empty]. }
  rewrite Hq, Hl. simpl. auto.
Qed.

Lemma reachable_invariant c st : reachable c st -> invariant st.
Proof.
  unfold reachable. intros Hreach.
  apply (rtc_ind_r (R := step) (fun st => invariant st) (init c)) with (z := st).
  - apply init_invariant.
  - intros y z _ Hstep Hy. eapply step_invariant; eauto.
  - exact Hreach.
Qed.

(** C9.  In every state the engine can reach, whatever the interleaving
    of the tasks, the global window and every per-chat window hold their
    timestamps in non-decreasing order (the clock never running
    backwards). *)
Theorem windows_stay_ordered (c : RateLimitConfig) (st : State) :
  reachable c st ->
  nondecreasing (global_queue (lim st))
  /\ forall chat_id q,
       chat_queues (lim st) !! chat_id = Some q -> nondecreasing q.
Proof.
  intros Hreach. pose proof (reachable_invariant c st Hreach) as Hinv. split.
  - destruct (Hinv Global) as (Hq & _). exact Hq.
  - intros chat_id q Hq. destruct (Hinv (Chat chat_id)) as (Hord & _).
    simpl in Hord. unfold chat_queue in Hord. rewrite Hq in Hord. exact Hord.
Qed.

(** C4.  For every window of the engine, in any state it can reach,
    [_cleanup_old_requests] at any instant [now] and for any duration
    removes a leading part of the window only, and every timestamp [t]
    that remains satisfies [now - t < duration]. *)
Theorem eviction_leaves_fresh (c : RateLimitConfig) (st : State) (sc : scope)
    (now : Q) (window_seconds : Z) :
  reachable c st ->
  let queue := queue_of sc st in
  let kept := Window._cleanup_old_requests now queue window_seconds in
  (exists dropped, queue = dropped ++ kept)
  /\ Forall (fun t => (now - t < inject_Z window_seconds)%Q) kept.
Proof.
  intros Hreach. cbv zeta. split.
  - apply cleanup_drops_prefix.
  - apply cleanup_fresh.
    destruct (reachable_invariant c st Hreach sc) as (Hq & _). exact Hq.
Qed.

End EngineFacts.

Section EngineExamples.
Import Engine Scenario.

Lemma busy_engine_reachable : reachable one_per_minute busy_engine.
Proof.
  unfold reachable, busy_engine.
  destruct (run busy_schedule (init one_per_minute)) as [st |] eqn:Hrun.
  - apply (run_steps busy_schedule). exact Hrun.
  - apply rtc_refl.
Qed.

Lemma windows_stay_ordered_witness :
  reachable one_per_minute busy_engine
  /\ global_queue (lim busy_engine) = [0%Q; 10%Q]
  /\ nondecreasing (global_queue (lim busy_engine)).
Proof.
  split; [exact busy_engine_reachable |].
  split; [vm_compute; reflexivity |].
  apply (windows_stay_ordered one_per_minute busy_engine busy_engine_reachable).
Defined.

Lemma eviction_leaves_fresh_witness :
  reachable one_per_minute busy_engine
  /\ Window._cleanup_old_requests 65 (queue_of Global busy_engine) 60 = [10%Q]
  /\ Forall (fun t => (65 - t < inject_Z 60)%Q)
            (Window._cleanup_old_requests 65 (queue_of Global busy_engine) 60).
Proof.
  split; [exact busy_engine_reachable |].
  split; [vm_compute; reflexivity |].
  apply (eviction_leaves_fresh one_per_minute busy_engine Global 65 60
           busy_engine_reachable).
Defined.

End EngineExamples.

(** ** The machine runs the code

    A task that is alone in the lock of a window takes the machine through
    the schedule [alone]; the limiter it leaves is the one the window
    function of the source computes. *)

Section EngineRunsTheCode.
Import Engine.

Lemma Qle_bool_refl x : Qle_bool x x = true.
Proof. apply Qle_bool_iff. apply Qle_refl. Qed.

Lemma limit_wait_positive max_requests window_seconds now queue wait_time :
  Limiter.limit_wait max_requests window_seconds now queue = Ok (Some wait_time) ->
  (0 <= wait_time)%Q.
Proof.
  unfold Limiter.limit_wait.
  destruct (max_requests <=? Z.of_nat (length queue)); [| discriminate].
  destruct queue as [| q0 rest]; [discriminate |].
  destruct (Qlt_bool 0 _) eqn:Hpos; [| discriminate].
  intros [= <-]. unfold Qlt_bool in Hpos.
  apply Qlt_le_weak. apply Qnot_le_lt. intros Hle. apply Qle_bool_iff in Hle.
  rewrite Hle in Hpos. discriminate.
Qed.

Lemma run_cons a rest st st1 :
  act a st = Some st1 -> run (a :: rest) st = run rest st1.
Proof. intros H. simpl. rewrite H. reflexivity. Qed.

Lemma act_tick d st : (0 <= d)%Q -> act (Tick d) st = Some (later d st).
Proof. intros Hd. apply Qle_bool_iff in Hd. simpl. rewrite Hd. reflexivity. Qed.

Lemma queue_of_later sc d st : queue_of sc (later d st) = queue_of sc st.
Proof. destruct sc; reflexivity. Qed.

Lemma lock_of_later sc d st : lock_of sc (later d st) = lock_of sc st.
Proof. destruct sc; reflexivity. Qed.

Lemma lim_with_lock sc h st : lim (with_lock sc h st) = lim st.
Proof. destruct sc; reflexivity. Qed.

Lemma lim_with_lim L st : lim (with_lim L st) = L.
Proof. reflexivity. Qed.

Lemma lim_later d st : lim (later d st) = lim st.
Proof. reflexivity. Qed.

Lemma clock_later d st : clock (later d st) = (clock st + d)%Q.
Proof. reflexivity. Qed.

Lemma queue_of_same sc q h L' st :
  queue_of sc (with_lock sc h (with_lim (with_queue sc q L') st)) = q.
Proof.
  destruct sc as [| chat_id]; simpl; [reflexivity |].
  unfold chat_queue. simpl. rewrite lookup_insert_eq. reflexivity.
Qed.

Lemma lock_of_same sc h st : lock_of sc (with_lock sc h st) = h.
Proof.
  rewrite lock_of_update. destruct (decide (sc = sc)); [reflexivity | congruence].
Qed.

(** What the machine does with a task alone in the lock of [sc]. *)
Lemma alone_runs sc is_group d st :
  lock_of sc st = None -> (0 <= d)%Q ->
  let now := clock st in
  let q0 := queue_of sc st in
  let ws := window_of sc is_group in
  let mr := ceiling_of sc is_group (config (lim st)) in
  let q := Window._cleanup_old_requests (now + d) q0 ws in
  match Limiter.limit_wait mr ws now q with
  | Ok w =>
      exists st',
        run (alone sc is_group d w) st = Some st'
        /\ lim st' = with_queue sc (Window.record q now)
                       (count_limited w (with_queue sc q (with_queue sc q0 (lim st))))
        /\ lock_of sc st' = None
  | Raise _ =>
      exists st',
        run [Enter sc is_group; Tick d; Check sc] st = Some st'
        /\ lim st' = with_queue sc q (with_queue sc q0 (lim st))
        /\ lock_of sc st' = None
  | Blocked => False
  end.
Proof.
  intros Hfree Hd. cbv zeta.
  set (now := clock st). set (q0 := queue_of sc st).
  set (ws := window_of sc is_group).
  set (mr := ceiling_of sc is_group (config (lim st))).
  set (q := Window._cleanup_old_requests (now + d) q0 ws).
  set (st1 := with_lock sc (Some (Entered now ws mr))
                (with_lim (with_queue sc q0 (lim st)) st)).
  assert (Henter : act (Enter sc is_group) st = Some st1).
  { simpl. rewrite Hfree. reflexivity. }
  set (st2 := later d st1).
  assert (Hlock2 : lock_of sc st2 = Some (Entered now ws mr)).
  { unfold st2, st1. rewrite lock_of_later. apply lock_of_same. }
  assert (Hq2 : queue_of sc st2 = q0).
  { unfold st2, st1. rewrite queue_of_later. apply queue_of_same. }
  assert (Hclock2 : clock st2 = (now + d)%Q).
  { unfold st2, st1. rewrite clock_later, clock_update. reflexivity. }
  assert (Hlim2 : lim st2 = with_queue sc q0 (lim st)).
  { unfold st2, st1. rewrite lim_later, lim_with_lock. reflexivity. }
  destruct (Limiter.limit_wait mr ws now q) as [w | e |] eqn:Hw.
  - set (st3 := with_lock sc (Some (Checked now w (wake_time (clock st2) w)))
                  (with_lim (with_queue sc q (lim st2)) st2)).
    assert (Hcheck : act (Check sc) st2 = Some st3).
    { cbn [act]. rewrite Hlock2, Hq2, Hclock2. fold q. rewrite Hw.
      unfold st3. rewrite Hclock2. reflexivity. }
    set (st4 := match w with Some wait_time => later wait_time st3 | None => st3 end).
    assert (Hlock4 : lock_of sc st4 = Some (Checked now w (wake_time (clock st2) w))).
    { unfold st4. destruct w; [rewrite lock_of_later |]; apply lock_of_same. }
    assert (Hq4 : queue_of sc st4 = q).
    { unfold st4. destruct w; [rewrite queue_of_later |]; apply queue_of_same. }
    assert (Hclock4 : clock st4 = wake_time (clock st2) w).
    { unfold st4, st3. destruct w; [rewrite clock_later |]; rewrite clock_update;
        reflexivity. }
    assert (Hlim4 : lim st4 = with_queue sc q (with_queue sc q0 (lim st))).
    { unfold st4, st3. destruct w; [rewrite lim_later |];
        rewrite lim_with_lock, lim_with_lim, Hlim2; reflexivity. }
    eexists. split; [| split].
    + unfold alone. cbn [app].
      rewrite (run_cons _ _ _ _ Henter), (run_cons _ _ _ _ (act_tick d st1 Hd)).
      fold st2. rewrite (run_cons _ _ _ _ Hcheck).
      assert (Hrest : run (match w with Some wait_time => [Tick wait_time] | None => [] end
                           ++ [Leave sc]) st3 = run [Leave sc] st4).
      { unfold st4. destruct w as [wait_time |]; [| reflexivity].
        cbn [app]. apply run_cons. apply act_tick.
        eapply limit_wait_positive; eauto. }
      rewrite Hrest. cbn [run act]. rewrite Hlock4, Hclock4, Qle_bool_refl. reflexivity.
    + rewrite lim_with_lock, lim_with_lim, Hq4, Hlim4. reflexivity.
    + apply lock_of_same.
  - eexists. split; [| split].
    + rewrite (run_cons _ _ _ _ Henter), (run_cons _ _ _ _ (act_tick d st1 Hd)).
      fold st2. cbn [run act]. rewrite Hlock2, Hq2, Hclock2. fold q. rewrite Hw.
      reflexivity.
    + rewrite lim_with_lock, lim_with_lim, Hlim2. reflexivity.
    + apply lock_of_same.
  - eapply limit_wait_never_blocks; eauto.
Qed.

(** What the window functions of the source compute. *)
Lemma through_lock_eq sc is_group now now_c L sl :
  let q0 := queue_of sc {| lim := L; clock := now; global_lock := None; chat_locks := ∅ |} in
  let ws := window_of sc is_group in
  let mr := ceiling_of sc is_group (config L) in
  let q := Window._cleanup_old_requests now_c q0 ws in
  through_lock sc is_group now now_c {| limiter := L; slept := sl |}
  = match Limiter.limit_wait mr ws now q with
    | Ok w =>
        (Ok tt,
         {| limiter := with_queue sc (Window.record q now)
                         (count_limited w (with_queue sc q (with_queue sc q0 L)));
            slept := sl ++ match w with Some wait_time => [wait_time] | None => [] end |})
    | Raise e =>
        (Raise e, {| limiter := with_queue sc q (with_queue sc q0 L); slept := sl |})
    | Blocked =>
        (Blocked, {| limiter := with_queue sc q (with_queue sc q0 L); slept := sl |})
    end.
Proof.
  cbv zeta. destruct sc as [| chat_id].
  - unfold through_lock, Limiter._wait_for_global_limit, Eff.bind, Eff.gets,
      Eff.modify, Eff.lift.
    cbn [queue_of lim window_of ceiling_of limiter slept config set_global_queue
         global_queue with_queue].
    destruct (Limiter.limit_wait (global_limit (config L)) 60 now _)
      as [[wait_time |] | e |]; try reflexivity.
    cbn. rewrite app_nil_r. reflexivity.
  - unfold through_lock, Limiter._wait_for_chat_limit, Eff.bind, Eff.gets,
      Eff.modify, Eff.lift.
    cbn [queue_of lim window_of ceiling_of limiter slept config set_chat_queue
         with_queue].
    destruct (Limiter.limit_wait _ _ now _) as [[wait_time |] | e |]; try reflexivity.
    cbn. rewrite app_nil_r. reflexivity.
Qed.

(** The limiter a task leaves behind in the machine is the limiter the
    source function computes, when the task reads the clock at [clock st]
    and, for the eviction, [d] later. *)
Lemma machine_runs_the_code sc is_group d st sl :
  lock_of sc st = None -> (0 <= d)%Q ->
  match through_lock sc is_group (clock st) (clock st + d)
          {| limiter := lim st; slept := sl |} with
  | (Ok _, w') =>
      exists wait st',
        run (alone sc is_group d wait) st = Some st'
        /\ lim st' = limiter w' /\ lock_of sc st' = None
        /\ slept w' = sl ++ match wait with Some wait_time => [wait_time] | None => [] end
  | (Raise _, w') =>
      exists st',
        run [Enter sc is_group; Tick d; Check sc] st = Some st'
        /\ lim st' = limiter w' /\ lock_of sc st' = None
  | (Blocked, _) => False
  end.
Proof.
  intros Hfree Hd.
  pose proof (alone_runs sc is_group d st Hfree Hd) as Hrun. cbv zeta in Hrun.
  rewrite through_lock_eq. cbv zeta.
  assert (Hq0 : queue_of sc {| lim := lim st; clock := clock st; global_lock := None;
                               chat_locks := ∅ |} = queue_of sc st)
    by (destruct sc; reflexivity).
  rewrite Hq0.
  destruct (Limiter.limit_wait _ _ (clock st) _) as [w | e |]; [| | exact Hrun].
  - destruct Hrun as (st' & Hr & Hl & Hlock).
    exists w, st'. repeat split; assumption.
  - exact Hrun.
Qed.

End EngineRunsTheCode.

(** ** A full window makes the caller wait, and records the time of arrival *)

Section FullWindow.
Import Eff Limiter.

Lemma cleanup_head now queue window_seconds q0 rest :
  Window._cleanup_old_requests now queue window_seconds = q0 :: rest ->
  (now - inject_Z window_seconds < q0)%Q.
Proof.
  induction queue as [| t q IH]; [discriminate |].
  cbn [Window._cleanup_old_requests].
  destruct (Qle_bool t (now - inject_Z window_seconds)) eqn:Hold; [exact IH |].
  intros [= -> _]. apply Qnot_le_lt. intros Hle.
  apply Qle_bool_iff in Hle. congruence.
Qed.

(** A call that finds the window full after eviction sleeps for
    [window - (now - oldest)], which is positive, so that it wakes up at
    [oldest + window] or later. *)
Lemma full_window_waits max_requests window_seconds now now_c queue q0 rest :
  (now <= now_c)%Q ->
  Window._cleanup_old_requests now_c queue window_seconds = q0 :: rest ->
  max_requests <= Z.of_nat (length (q0 :: rest)) ->
  let wait_time := (inject_Z window_seconds - (now - q0))%Q in
  limit_wait max_requests window_seconds now (q0 :: rest) = Ok (Some wait_time)
  /\ (0 < wait_time)%Q
  /\ (now + wait_time == q0 + inject_Z window_seconds)%Q
  /\ (now < q0 + inject_Z window_seconds)%Q.
Proof.
  intros Hclock Hkept Hfull. cbv zeta.
  pose proof (cleanup_head _ _ _ _ _ Hkept) as Hhead.
  assert (Hpos : (0 < inject_Z window_seconds - (now - q0))%Q) by lra.
  unfold limit_wait.
  destruct (Z.leb_spec max_requests (Z.of_nat (length (q0 :: rest)))) as [_ | Hlt];
    [| lia].
  unfold Qlt_bool.
  destruct (Qle_bool (inject_Z window_seconds - (now - q0)) 0) eqn:Hle.
  - apply Qle_bool_iff in Hle. lra.
  - simpl. split; [reflexivity |]. split; [exact Hpos |]. split; lra.
Qed.

(** What [_wait_for_global_limit] does when it finds the window full: it
    sleeps, counts a rate-limited call, and appends the instant [now] at
    which the call arrived, which is earlier than [oldest + 60]. *)
Lemma global_call_when_full now now_c w q0 rest :
  (now <= now_c)%Q ->
  Window._cleanup_old_requests now_c (global_queue (limiter w)) 60 = q0 :: rest ->
  global_limit (config (limiter w)) <= Z.of_nat (length (q0 :: rest)) ->
  let wait_time := (60 - (now - q0))%Q in
  _wait_for_global_limit now now_c w
  = (Ok tt,
     {| limiter :=
          set_global_queue ((q0 :: rest) ++ [now])
            (set_stats Stats.record_rate_limited
               (set_global_queue (q0 :: rest) (limiter w)));
        slept := slept w ++ [wait_time] |})
  /\ (0 < wait_time)%Q
  /\ (now < q0 + 60)%Q.
Proof.
  intros Hclock Hkept Hfull. cbv zeta.
  destruct (full_window_waits _ 60 now now_c _ q0 rest Hclock Hkept Hfull)
    as (Hwait & Hpos & _ & Hstale).
  split; [| split; [exact Hpos | exact Hstale]].
  unfold _wait_for_global_limit, bind, gets, modify, lift. simpl limiter.
  rewrite Hkept. simpl config. rewrite Hwait. reflexivity.
Qed.

(** C1, at the failing input.  One call per minute allowed; calls arrive
    at 0 s, 10 s and 61 s.  The second call sleeps 50 s, until 60 s, and
    is recorded with timestamp 10, which is less than 0 + 60; the third
    call then sleeps only 9 s, so that the second and third calls go out
    at 60 s and 70 s, ten seconds apart. *)
Theorem second_call_recorded_at_arrival :
  let w0 := new_world Scenario.one_per_minute in
  let w1 := snd (_wait_for_global_limit 0 0 w0) in
  let w2 := snd (_wait_for_global_limit 10 10 w1) in
  let w3 := snd (_wait_for_global_limit 61 61 w2) in
  global_queue (limiter w1) = [0%Q]
  /\ (global_queue (limiter w2) = [0%Q; 10%Q] /\ slept w2 = [50%Q])
  /\ ~ (0 + 60 <= 10)%Q
  /\ (global_queue (limiter w3) = [10%Q; 61%Q] /\ slept w3 = [50%Q; 9%Q]).
Proof.
  cbv zeta. split; [vm_compute; reflexivity |].
  split; [split; vm_compute; reflexivity |].
  split; [intros H; vm_compute in H; apply H; reflexivity |].
  split; vm_compute; reflexivity.
Qed.

End FullWindow.

(** ** The retry wrapper *)

Section RetryFacts.
Import Retry.
Context {V : Type}.
Variables (func : nat -> attempt V) (dt : nat -> Py.datetime).
Variables (max_retries : Z) (rate_limiter : bool).

(** The loop ends: with the fuel of [_execute_with_retry] it never runs
    out. *)
Lemma retry_loop_ends :
  forall fuel retries calls w,
    (Z.to_nat (max_retries + 1 - retries) <= fuel)%nat ->
    exists run,
      retry_loop fuel func dt max_retries rate_limiter retries calls w = Some run.
Proof.
  induction fuel as [| fuel IH]; intros retries calls w Hfuel; cbn [retry_loop];
    destruct (Z.leb_spec retries max_retries) as [Hle | Hgt]; eauto; [lia |].
  destruct (func calls) as [v | e]; eauto.
  destruct e; eauto.
  destruct (60 <? seconds); eauto.
  destruct (max_retries <? retries + 1); eauto.
  apply IH. lia.
Qed.

Lemma _execute_with_retry_ends w :
  exists run, _execute_with_retry func dt max_retries rate_limiter w = Some run.
Proof. apply retry_loop_ends. unfold enough_fuel. lia. Qed.

(** A throttle signal of more than 60 seconds ends the loop at once: no
    sleep, no further invocation, the signal goes to the caller. *)
Lemma retry_loop_aborts fuel retries calls w seconds :
  retries <= max_retries ->
  func calls = Raises (Py.FloodWaitError seconds) ->
  60 < seconds ->
  retry_loop (S fuel) func dt max_retries rate_limiter retries calls w
  = Some {| outcome := Raise (Py.FloodWaitError seconds);
            retries := retries;
            invocations := S calls;
            world := note_flood rate_limiter (dt calls) w |}.
Proof.
  intros Hle Hf Hs. cbn [retry_loop].
  destruct (Z.leb_spec retries max_retries); [| lia]. rewrite Hf.
  destruct (Z.ltb_spec 60 seconds); [reflexivity | lia].
Qed.

(** A throttle signal of at most 60 seconds, with retries left: the
    wrapper counts the flood error, adds one to [retries], sleeps exactly
    the requested seconds and invokes the call again. *)
Lemma retry_loop_retries fuel retries calls w seconds :
  retries < max_retries ->
  func calls = Raises (Py.FloodWaitError seconds) ->
  seconds <= 60 ->
  retry_loop (S fuel) func dt max_retries rate_limiter retries calls w
  = retry_loop fuel func dt max_retries rate_limiter (retries + 1) (S calls)
      (asleep seconds (note_flood rate_limiter (dt calls) w)).
Proof.
  intros Hlt Hf Hs. cbn [retry_loop].
  destruct (Z.leb_spec retries max_retries); [| lia]. rewrite Hf.
  destruct (Z.ltb_spec 60 seconds); [lia |].
  destruct (Z.ltb_spec max_retries (retries + 1)); [lia | reflexivity].
Qed.

(** The same signal when [max_retries] retries were already made: it is
    raised to the caller, without sleep. *)
Lemma retry_loop_gives_up fuel calls w seconds :
  0 <= max_retries ->
  func calls = Raises (Py.FloodWaitError seconds) ->
  seconds <= 60 ->
  retry_loop (S fuel) func dt max_retries rate_limiter max_retries calls w
  = Some {| outcome := Raise (Py.FloodWaitError seconds);
            retries := max_retries + 1;
            invocations := S calls;
            world := note_flood rate_limiter (dt calls) w |}.
Proof.
  intros Hpos Hf Hs. cbn [retry_loop].
  destruct (Z.leb_spec max_retries max_retries); [| lia]. rewrite Hf.
  destruct (Z.ltb_spec 60 seconds); [lia |].
  destruct (Z.ltb_spec max_retries (max_retries + 1)); [reflexivity | lia].
Qed.

End RetryFacts.

Section RetryRuns.
Import Retry Scenario.

(** The scenario of the specification: throttled once for 5 s with
    [max_retries = 3], then successful.  The wrapper sleeps 5 s, invokes
    the call a second time and returns its result with one retry. *)
Lemma one_retry_then_success :
  let run := _execute_with_retry (throttled 1 5 "sent") wall 3 true
               (new_world default_config) in
  option_map outcome run = Some (Ok (Some "sent"%string))
  /\ option_map retries run = Some 1
  /\ option_map invocations run = Some 2%nat
  /\ option_map (fun x => slept (world x)) run = Some [5%Q]
  /\ option_map (fun x => flood_errors (stats (limiter (world x)))) run = Some 1.
Proof. cbv zeta. repeat split; vm_compute; reflexivity. Qed.

(** C2, at the failing input.  With the default configuration
    ([max_flood_wait = 300]) a throttle signal asking for 100 seconds,
    which does not exceed that bound, makes the wrapper give up at once:
    one invocation, no sleep, the signal raised to the caller.  The wrapper
    compares with the literal 60 and never reads [max_flood_wait]. *)
Theorem abort_ignores_max_flood_wait :
  let w := new_world default_config in
  let run := _execute_with_retry (throttled 1 100 "sent") wall 3 true w in
  max_flood_wait (config (limiter w)) = 300
  /\ option_map outcome run = Some (Raise (Py.FloodWaitError 100))
  /\ option_map invocations run = Some 1%nat
  /\ option_map (fun x => slept (world x)) run = Some [].
Proof. cbv zeta. repeat split; vm_compute; reflexivity. Qed.

(** C7, at the failing input.  A throttle signal asking for 90 seconds,
    within [max_flood_wait = 300], followed by a call that would succeed,
    with [max_retries = 3]: the wrapper does not sleep the 90 seconds,
    does not add to [retries] and does not invoke the call again; the
    caller gets the throttle signal instead of the result. *)
Theorem no_retry_between_sixty_and_max_flood_wait :
  let w := new_world default_config in
  let run := _execute_with_retry (throttled 1 90 "sent") wall 3 true w in
  90 <= max_flood_wait (config (limiter w))
  /\ option_map outcome run = Some (Raise (Py.FloodWaitError 90))
  /\ option_map retries run = Some 0
  /\ option_map invocations run = Some 1%nat
  /\ option_map (fun x => slept (world x)) run = Some []
  /\ throttled 1 90 "sent" 1%nat = Returns "sent"%string.
Proof.
  cbv zeta. split; [vm_compute; discriminate |].
  repeat split; vm_compute; reflexivity.
Qed.

End RetryRuns.


(** * Further properties of the code *)

(** ** Eviction *)

Section Eviction.
Import Engine.

Lemma filter_all (f : Q -> bool) (q : list Q) :
  Forall (fun t => f t = true) q -> List.filter f q = q.
Proof.
  induction 1 as [| t q Ht Hq IH]; simpl; [reflexivity |].
  rewrite Ht, IH. reflexivity.
Qed.

(** X1.  On a window whose timestamps are in order, the loop of
    [_cleanup_old_requests], which stops at the first timestamp that has
    not expired, removes every expired timestamp: it is the filter that
    keeps the timestamps later than [now - window_seconds]. *)
Theorem cleanup_is_filter (now : Q) (queue : list Q) (window_seconds : Z) :
  nondecreasing queue ->
  Window._cleanup_old_requests now queue window_seconds
  = List.filter (fun t => negb (Qle_bool t (now - inject_Z window_seconds))) queue.
Proof.
  induction queue as [| t rest IH]; intros Hq; [reflexivity |].
  cbn [Window._cleanup_old_requests List.filter].
  destruct (Qle_bool t (now - inject_Z window_seconds)) eqn:Hold; simpl.
  - apply IH. eapply nondecreasing_tail; eauto.
  - f_equal. symmetry. apply filter_all.
    eapply Forall_impl; [apply nondecreasing_head; exact Hq |].
    simpl. intros u Hu. apply negb_true_iff.
    destruct (Qle_bool u (now - inject_Z window_seconds)) eqn:Hu'; [| reflexivity].
    apply Qle_bool_iff in Hu'.
    assert (Hle : (t <= now - inject_Z window_seconds)%Q) by lra.
    apply Qle_bool_iff in Hle. congruence.
Qed.

Lemma cleanup_is_filter_witness :
  nondecreasing [0%Q; 10%Q; 61%Q]
  /\ Window._cleanup_old_requests 70 [0%Q; 10%Q; 61%Q] 60 = [61%Q].
Proof.
  assert (H : nondecreasing [0%Q; 10%Q; 61%Q]).
  { simpl. repeat split; unfold Qle; simpl; lia. }
  split; [exact H |].
  rewrite (cleanup_is_filter 70 _ 60 H). reflexivity.
Defined.

(** Out of order the loop keeps expired timestamps that stand behind a
    fresh one. *)
Lemma cleanup_stops_at_fresh :
  Window._cleanup_old_requests 70 [61%Q; 0%Q] 60 = [61%Q; 0%Q].
Proof. reflexivity. Qed.

(** X2.  In every state the engine reaches, no window holds a timestamp later
    than the clock, and none later than the [now] of the task that holds
    the window's lock. *)
Theorem no_timestamp_from_the_future (c : RateLimitConfig) (st : State) (sc : scope) :
  reachable c st ->
  Forall (fun t => (t <= clock st)%Q) (queue_of sc st)
  /\ forall h, lock_of sc st = Some h ->
       Forall (fun t => (t <= holder_now h)%Q) (queue_of sc st).
Proof.
  intros Hreach.
  destruct (reachable_invariant c st Hreach sc) as (_ & Hclock & Hh).
  split; [exact Hclock |].
  intros h Hl. rewrite Hl in Hh. apply Hh.
Qed.

Lemma no_timestamp_from_the_future_witness :
  reachable Scenario.one_per_minute Scenario.busy_engine
  /\ Forall (fun t => (t <= clock Scenario.busy_engine)%Q)
            (queue_of (Chat "42") Scenario.busy_engine).
Proof.
  split; [exact busy_engine_reachable |].
  apply (no_timestamp_from_the_future _ _ (Chat "42") busy_engine_reachable).
Defined.

(** X3.  A task that finds its window full sleeps for a positive time that is
    at most the length of the window. *)
Theorem wait_within_window (c : RateLimitConfig) (st : State) (sc : scope)
    (now : Q) (window_seconds max_requests : Z) (wait_time : Q) :
  reachable c st ->
  lock_of sc st = Some (Entered now window_seconds max_requests) ->
  Limiter.limit_wait max_requests window_seconds now
    (Window._cleanup_old_requests (clock st) (queue_of sc st) window_seconds)
  = Ok (Some wait_time) ->
  (0 < wait_time)%Q /\ (wait_time <= inject_Z window_seconds)%Q.
Proof.
  intros Hreach Hl Hw.
  destruct (reachable_invariant c st Hreach sc) as (_ & _ & Hnow).
  rewrite Hl in Hnow. simpl in Hnow. destruct Hnow as [Hnow _].
  pose proof (cleanup_Forall _ (clock st) _ window_seconds Hnow) as Hkept.
  unfold Limiter.limit_wait in Hw.
  destruct (max_requests <=? _); [| discriminate].
  destruct (Window._cleanup_old_requests _ _ _) as [| q0 rest]; [discriminate |].
  destruct (Qlt_bool 0 _) eqn:Hpos; [| discriminate].
  injection Hw as <-.
  inversion Hkept as [| ? ? Hq0 _]; subst.
  split; [| lra].
  unfold Qlt_bool in Hpos. apply Qnot_le_lt. intros Hle.
  apply Qle_bool_iff in Hle. rewrite Hle in Hpos. discriminate.
Qed.

Lemma second_task_entered_reachable :
  reachable Scenario.one_per_minute Cases.second_task_entered.
Proof.
  unfold reachable, Cases.second_task_entered.
  match goal with
  | |- context [run ?sch ?s0] => destruct (run sch s0) as [st |] eqn:Hrun
  end.
  - eapply run_steps. exact Hrun.
  - apply rtc_refl.
Qed.

Lemma wait_within_window_witness :
  reachable Scenario.one_per_minute Cases.second_task_entered
  /\ lock_of Global Cases.second_task_entered = Some (Entered 10 60 1)
  /\ ((0 < 50)%Q /\ (50 <= inject_Z 60)%Q).
Proof.
  split; [exact second_task_entered_reachable |].
  split; [vm_compute; reflexivity |].
  apply (wait_within_window Scenario.one_per_minute Cases.second_task_entered Global
           10 60 1 50 second_task_entered_reachable); vm_compute; reflexivity.
Defined.

End Eviction.

(** ** What the admission sequence leaves alone *)

Section Frame.
Import Eff Hoare Limiter.
Variable I : RateLimiter -> Prop.
Hypothesis Hstats : forall f L, I L -> I (set_stats f L).
Hypothesis Hglobal : forall q L, I L -> I (set_global_queue q L).

Lemma wait_out_frame w : keeps (on_limiter I) (wait_out w).
Proof.
  destruct w; simpl; [| apply keeps_ret].
  apply keeps_bind; [apply keeps_sleep | intros ?].
  apply keeps_modify. apply Hstats.
Qed.

Lemma _wait_for_global_limit_frame now now_c :
  keeps (on_limiter I) (_wait_for_global_limit now now_c).
Proof.
  unfold _wait_for_global_limit.
  apply keeps_bind; [apply keeps_gets | intros ?].
  apply keeps_bind; [apply keeps_modify, Hglobal | intros ?].
  apply keeps_bind; [apply keeps_gets | intros ?].
  apply keeps_bind; [apply keeps_lift | intros ?].
  apply keeps_bind; [apply wait_out_frame | intros ?].
  apply keeps_modify, Hglobal.
Qed.

Lemma _wait_for_chat_limit_frame chat_id is_group now now_c :
  (forall q L, I L -> I (set_chat_queue chat_id q L)) ->
  keeps (on_limiter I) (_wait_for_chat_limit chat_id is_group now now_c).
Proof.
  intros Hchat. unfold _wait_for_chat_limit.
  apply keeps_bind; [apply keeps_gets | intros ?].
  apply keeps_bind; [apply keeps_modify, Hchat | intros ?].
  apply keeps_bind; [apply keeps_gets | intros ?].
  apply keeps_bind; [apply keeps_modify, Hchat | intros ?].
  apply keeps_bind; [apply keeps_lift | intros ?].
  apply keeps_bind; [apply wait_out_frame | intros ?].
  apply keeps_modify, Hchat.
Qed.

Lemma _add_human_delay_frame base_delay priority :
  keeps (on_limiter I) (_add_human_delay base_delay priority).
Proof.
  unfold _add_human_delay. destruct (priority =? 0);
    [apply keeps_raise | apply keeps_sleep].
Qed.

(** The guarded part of [acquire] changes the statistics and the windows
    it works on, and nothing else of the limiter. *)
Lemma paced_frame r method_name chat_id priority :
  (truthy chat_id = true -> forall q L, I L -> I (set_chat_queue (str chat_id) q L)) ->
  keeps (on_limiter I) (paced r method_name chat_id priority).
Proof.
  intros Hchat. unfold paced.
  apply keeps_bind; [apply keeps_fault_at | intros ?].
  apply keeps_bind; [apply keeps_modify, Hstats | intros ?].
  apply keeps_bind; [apply keeps_fault_at | intros ?].
  apply keeps_bind; [apply _wait_for_global_limit_frame | intros ?].
  apply keeps_bind.
  { destruct (truthy chat_id); [| apply keeps_ret].
    apply keeps_bind; [apply keeps_fault_at | intros ?].
    apply _wait_for_chat_limit_frame. apply Hchat. reflexivity. }
  intros ?.
  apply keeps_bind; [apply keeps_fault_at | intros ?].
  apply keeps_bind; [apply _add_human_delay_frame | intros ?].
  apply keeps_ret.
Qed.

Lemma check_resolve_limit_frame now : keeps (on_limiter I) (check_resolve_limit now).
Proof.
  unfold check_resolve_limit.
  apply keeps_bind; [apply keeps_gets | intros due].
  apply keeps_bind; [| intros ?; apply keeps_gets].
  destruct due; [apply keeps_modify, Hstats | apply keeps_ret].
Qed.

Lemma resolve_gate_frame r method_name : keeps (on_limiter I) (resolve_gate r method_name).
Proof.
  unfold resolve_gate.
  destruct (Py.contains "resolve" (Py.lower method_name)); [| apply keeps_ret].
  apply keeps_bind; [apply keeps_fault_at | intros ?].
  apply keeps_bind; [apply check_resolve_limit_frame | intros ok].
  destruct ok; simpl; [| apply keeps_ret].
  apply keeps_bind; [apply keeps_fault_at | intros ?].
  apply keeps_bind; [apply keeps_modify, Hstats | intros ?].
  apply keeps_ret.
Qed.

Hypothesis Hsemaphore : forall v L, I L -> I (set_semaphore v L).

Lemma with_semaphore_frame {A} (body : M A) :
  keeps (on_limiter I) body -> keeps (on_limiter I) (with_semaphore body).
Proof.
  intros Hbody. unfold with_semaphore.
  apply keeps_bind; [apply keeps_gets | intros v].
  destruct (0 <? v); [| apply spec_block; auto].
  apply keeps_bind; [apply keeps_modify, Hsemaphore | intros ?].
  apply spec_on_raise.
  eapply spec_weaken; [exact Hbody | auto | auto | | auto].
  intros e w Hw. unfold on_limiter in *. simpl. apply Hsemaphore. exact Hw.
Qed.

Lemma admission_frame r method_name chat_id priority :
  (truthy chat_id = true -> forall q L, I L -> I (set_chat_queue (str chat_id) q L)) ->
  keeps (on_limiter I) (admission r method_name chat_id priority).
Proof.
  intros Hchat. unfold admission.
  apply keeps_bind; [apply resolve_gate_frame | intros proceed].
  destruct proceed; simpl; [| apply keeps_ret].
  unfold gated.
  apply keeps_bind; [apply keeps_fault_at | intros ?].
  apply with_semaphore_frame. apply paced_frame. exact Hchat.
Qed.

Lemma acquire_frame r method_name chat_id priority w :
  (truthy chat_id = true -> forall q L, I L -> I (set_chat_queue (str chat_id) q L)) ->
  I (limiter w) ->
  I (limiter (snd (acquire r method_name chat_id priority w))).
Proof.
  intros Hchat Hw. rewrite acquire_world.
  pose proof (admission_frame r method_name chat_id priority Hchat w Hw) as H.
  destruct (admission r method_name chat_id priority w) as [[b | e |] w']; exact H.
Qed.

End Frame.

(** ** Windows, slots and counters around one acquisition *)

Section AroundAcquire.
Import Eff Hoare Limiter.

(** X4.  [acquire] touches no chat window but the one of [str(chat_id)], and
    none at all when [chat_id] is [None], [0] or the empty string; it
    never changes the configuration. *)
Theorem acquire_touches_own_chat_window (r : Readings) (method_name : string)
    (chat_id : option chat_ref) (priority : Z) (w : World) (other : string) :
  truthy chat_id = false \/ other <> str chat_id ->
  let w' := snd (acquire r method_name chat_id priority w) in
  chat_queues (limiter w') !! other = chat_queues (limiter w) !! other
  /\ config (limiter w') = config (limiter w).
Proof.
  intros Hother. cbv zeta. split.
  - apply (acquire_frame
             (fun L => chat_queues L !! other = chat_queues (limiter w) !! other));
      auto.
    intros Htruthy q L HL. destruct Hother as [Hfalse | Hne]; [congruence |].
    simpl. rewrite lookup_insert_ne; [exact HL | congruence].
  - apply (acquire_frame (fun L => config L = config (limiter w))); auto.
Qed.

Lemma acquire_touches_own_chat_window_witness :
  let w := Scenario.twice_throttled in
  let w' := snd (acquire (Scenario.at_time 100) "search_messages" (Some (ChatInt 0)) 3 w) in
  truthy (Some (ChatInt 0)) = false
  /\ chat_queues (limiter w') !! "42"%string = Some [0%Q].
Proof.
  cbv zeta. split; [reflexivity |].
  destruct (acquire_touches_own_chat_window (Scenario.at_time 100) "search_messages"
              (Some (ChatInt 0)) 3 Scenario.twice_throttled "42"
              (or_introl eq_refl)) as [Hq _].
  rewrite Hq. vm_compute. reflexivity.
Defined.

Lemma paced_grants r method_name chat_id priority w b w' :
  paced r method_name chat_id priority w = (Ok b, w') -> b = true.
Proof.
  intros Hp.
  pose proof (paced_spec (fun _ => True) (fun _ => True) pacing_stable_trivial r
                (fun _ _ => Logic.I) method_name chat_id priority w Logic.I) as H.
  rewrite Hp in H. apply H.
Qed.

Lemma admission_slots r method_name chat_id priority w :
  match admission r method_name chat_id priority w with
  | (Ok true, w') => semaphore (limiter w') = semaphore (limiter w) - 1
  | (_, w') => semaphore (limiter w') = semaphore (limiter w)
  end.
Proof.
  set (v := semaphore (limiter w)).
  assert (Hframe : forall u, forall f L, semaphore L = u -> semaphore (set_stats f L) = u)
    by (intros; assumption).
  pose proof (resolve_gate_frame (fun L => semaphore L = v) (Hframe v)
                r method_name w eq_refl) as Hgate.
  unfold admission, bind.
  destruct (resolve_gate r method_name w) as [[[|] | e |] w1]; simpl; try exact Hgate.
  unfold on_limiter in Hgate.
  unfold gated, bind, fault_at.
  destruct (fault r AtSemaphore) as [e |]; simpl; [exact Hgate |].
  unfold with_semaphore, bind, gets, modify, on_raise. rewrite Hgate.
  destruct (0 <? v); simpl; [| exact Hgate].
  set (w2 := {| limiter := set_semaphore (v - 1) (limiter w1); slept := slept w1 |}).
  pose proof (paced_frame (fun L => semaphore L = v - 1) (Hframe (v - 1))
                (fun _ _ H => H) r method_name chat_id priority
                (fun _ _ _ H => H) w2 eq_refl) as Hpaced.
  pose proof (paced_spec (fun _ => True) (fun _ => True) pacing_stable_trivial r
                (fun _ _ => Logic.I) method_name chat_id priority w2 Logic.I) as Hspec.
  destruct (paced r method_name chat_id priority w2) as [[b | e |] w3].
  - destruct Hspec as [-> _]. exact Hpaced.
  - simpl. unfold on_limiter in Hpaced. rewrite Hpaced. lia.
  - contradiction.
Qed.

(** X5.  A concurrency slot is held exactly while a grant is outstanding:
    [acquire] takes one slot when it yields [True] and none otherwise,
    also when it fails or is cancelled on the way, and leaving the
    [async with] block gives the slot back however the block ended,
    whether or not the context manager closes the generator. *)
Theorem slot_held_only_while_granted (r : Readings) (method_name : string)
    (chat_id : option chat_ref) (priority : Z) (w : World) :
  match acquire r method_name chat_id priority w with
  | (Yielded true at_, w') =>
      semaphore (limiter w') = semaphore (limiter w) - 1
      /\ forall closes body,
           semaphore (limiter (snd (Release.release closes at_ body w')))
           = semaphore (limiter w)
  | (Yielded false at_, w') =>
      semaphore (limiter w') = semaphore (limiter w)
      /\ forall closes body,
           semaphore (limiter (snd (Release.release closes at_ body w')))
           = semaphore (limiter w)
  | (_, w') => semaphore (limiter w') = semaphore (limiter w)
  end.
Proof.
  pose proof (admission_slots r method_name chat_id priority w) as H.
  unfold acquire.
  destruct (admission r method_name chat_id priority w) as [[[|] | e |] w'].
  - split; [exact H |]. intros closes [e |]; simpl; [| lia].
    destruct (Py.is_Exception e); [destruct closes |]; simpl; lia.
  - split; [exact H |]. intros closes [e |]; simpl; exact H.
  - destruct (Py.is_Exception e); [| exact H].
    split; [exact H |]. intros closes [e' |]; simpl; exact H.
  - exact H.
Qed.

End AroundAcquire.

(** ** What one acquisition counts *)

Section Counting.
Import Eff Hoare Limiter Invariants.

Lemma counted_stable t s f : pacing_stable (counted t s f).
Proof. split; unfold counted; simpl; auto. Qed.

(** X6.  [acquire] records exactly one request when it grants and none when
    the daily quota denies; it never touches [successful_requests] or
    [flood_errors].  Leaving the [async with] block adds one to
    [successful_requests] exactly when the acquisition was granted and
    the generator has run to its end.  When a granted block is left on
    an [Exception] and the context manager does not close the generator
    (CPython 3.9 to 3.11), nothing is added on leaving: the generator is
    left suspended, and the success is recorded when it is finalized.
    Either way a grant is counted as a success once, and a denial
    never. *)
Theorem acquire_counts_one_request (r : Readings) (method_name : string)
    (chat_id : option chat_ref) (priority : Z) (w : World) :
  let s := stats (limiter w) in
  match acquire r method_name chat_id priority w with
  | (Yielded granted at_, w') =>
      let s' := stats (limiter w') in
      (if granted then total_requests s' = total_requests s + 1
       else match at_ with
            | YieldHandler _ =>
                total_requests s' = total_requests s
                \/ total_requests s' = total_requests s + 1
            | _ => total_requests s' = total_requests s
            end)
      /\ successful_requests s' = successful_requests s
      /\ flood_errors s' = flood_errors s
      /\ forall closes body,
           let left := snd (Release.release closes at_ body w') in
           successful_requests (stats (limiter left))
           = successful_requests s
             + (if granted && negb (Release.suspended closes at_ body) then 1 else 0)
           /\ (body = None -> Release.suspended closes at_ body = false)
           /\ (closes = true -> Release.suspended closes at_ body = false)
           /\ (Release.suspended closes at_ body = true ->
               successful_requests (stats (limiter (Release.finalize at_ left)))
               = successful_requests s + (if granted then 1 else 0))
  | (_, w') =>
      let s' := stats (limiter w') in
      (total_requests s' = total_requests s
       \/ total_requests s' = total_requests s + 1)
      /\ successful_requests s' = successful_requests s
      /\ flood_errors s' = flood_errors s
  end.
Proof.
  cbv zeta.
  set (t := total_requests (stats (limiter w))).
  set (s := successful_requests (stats (limiter w))).
  set (f := flood_errors (stats (limiter w))).
  pose proof (admission_spec (counted t s f) (counted (t + 1) s f)) as Hspec.
  specialize (Hspec (fun _ _ H => H) (counted_stable (t + 1) s f) r).
  assert (Hrequest : forall L, counted t s f L ->
            counted (t + 1) s f (set_stats (Stats.record_request (dt_request r)) L)).
  { unfold counted. simpl. intros L (-> & -> & ->). auto. }
  assert (Hreset : forall now L, counted t s f L ->
            counted t s f (set_stats (Stats.reset_resolve now) L)).
  { unfold counted. simpl. auto. }
  assert (Hresolve : forall now L, counted t s f L ->
            counted t s f (set_stats (Stats.record_resolve_request now) L)).
  { unfold counted, Stats.record_resolve_request. simpl. intros now L H.
    destruct (Stats.rollover_due now (stats L)); simpl; exact H. }
  specialize (Hspec Hrequest Hreset Hresolve method_name chat_id priority
                (semaphore (limiter w)) w
                (conj (conj eq_refl (conj eq_refl eq_refl)) eq_refl)).
  unfold acquire.
  destruct (admission r method_name chat_id priority w) as [[[|] | e |] w'];
    unfold on_limiter, counted, failed in Hspec.
  - destruct Hspec as (Ht & Hs & Hf).
    split; [exact Ht |]. split; [exact Hs |]. split; [exact Hf |].
    intros closes [e |]; cbv zeta; simpl.
    + destruct (Py.is_Exception e); [destruct closes |]; simpl;
        repeat split; intros; try discriminate; lia.
    + repeat split; intros; try discriminate; lia.
  - destruct Hspec as (Ht & Hs & Hf).
    split; [exact Ht |]. split; [exact Hs |]. split; [exact Hf |].
    intros closes [e |]; cbv zeta; simpl.
    + destruct (Py.is_Exception e); [destruct closes |]; simpl;
        repeat split; intros; try discriminate; lia.
    + repeat split; intros; try discriminate; lia.
  - assert (Hcases : (total_requests (stats (limiter w')) = t
                      \/ total_requests (stats (limiter w')) = t + 1)
                     /\ successful_requests (stats (limiter w')) = s
                     /\ flood_errors (stats (limiter w')) = f).
    { destruct Hspec as [[(Ht & Hs & Hf) | (Ht & Hs & Hf)] _]; auto. }
    destruct Hcases as (Ht & Hs & Hf).
    destruct (Py.is_Exception e); [| repeat split; auto].
    split; [exact Ht |]. split; [exact Hs |]. split; [exact Hf |].
    intros closes [e' |]; cbv zeta; simpl;
      repeat split; intros; try discriminate; lia.
  - destruct Hspec as [(Ht & Hs & Hf) _]. repeat split; auto.
Qed.

End Counting.

(** ** The path to a grant *)

Section GrantPath.
Import Eff Limiter.

Lemma limit_wait_ok max_requests window_seconds now queue :
  0 < max_requests ->
  exists o, limit_wait max_requests window_seconds now queue = Ok o.
Proof.
  intros Hpos. unfold limit_wait.
  destruct (Z.leb_spec max_requests (Z.of_nat (length queue))) as [Hle |];
    [| eauto].
  destruct queue as [| q0 rest]; [simpl in Hle; lia |].
  destruct (Qlt_bool 0 _); eauto.
Qed.

Lemma fault_at_none r p w : fault r p = None -> fault_at r p w = (Ok tt, w).
Proof. unfold fault_at. intros ->. reflexivity. Qed.

Lemma global_step now now_c w :
  0 < global_limit (config (limiter w)) ->
  exists w',
    _wait_for_global_limit now now_c w = (Ok tt, w')
    /\ global_queue (limiter w')
       = Window.record
           (Window._cleanup_old_requests now_c (global_queue (limiter w)) 60) now
    /\ chat_queues (limiter w') = chat_queues (limiter w)
    /\ config (limiter w') = config (limiter w)
    /\ semaphore (limiter w') = semaphore (limiter w)
    /\ exists waits, slept w' = slept w ++ waits /\ (length waits <= 1)%nat.
Proof.
  intros Hpos.
  unfold _wait_for_global_limit, bind, gets, modify, lift. simpl limiter.
  simpl config.
  destruct (limit_wait_ok (global_limit (config (limiter w))) 60 now
              (Window._cleanup_old_requests now_c (global_queue (limiter w)) 60) Hpos)
    as [o ->].
  destruct o as [wait_time |]; simpl; eexists; repeat split.
  - exists [wait_time]. split; [reflexivity | simpl; lia].
  - exists []. rewrite app_nil_r. split; [reflexivity | simpl; lia].
Qed.

Lemma chat_step chat_id (is_group : bool) now now_c w :
  0 < (if is_group then group_limit (config (limiter w))
       else chat_limit (config (limiter w))) ->
  exists w',
    _wait_for_chat_limit chat_id is_group now now_c w = (Ok tt, w')
    /\ chat_queue chat_id (limiter w')
       = Window.record
           (Window._cleanup_old_requests now_c (chat_queue chat_id (limiter w))
              (if is_group then 60 else 1)) now
    /\ global_queue (limiter w') = global_queue (limiter w)
    /\ config (limiter w') = config (limiter w)
    /\ semaphore (limiter w') = semaphore (limiter w)
    /\ exists waits, slept w' = slept w ++ waits /\ (length waits <= 1)%nat.
Proof.
  intros Hpos.
  unfold _wait_for_chat_limit, bind, gets, modify, lift. simpl limiter.
  simpl config.
  destruct (limit_wait_ok _ (if is_group then 60 else 1) now
              (Window._cleanup_old_requests now_c (chat_queue chat_id (limiter w))
                 (if is_group then 60 else 1)) Hpos)
    as [o ->].
  destruct o as [wait_time |]; simpl; eexists; (split; [reflexivity |]);
    unfold chat_queue; simpl; rewrite lookup_insert_eq; repeat split.
  - exists [wait_time]. split; [reflexivity | simpl; lia].
  - exists []. rewrite app_nil_r. split; [reflexivity | simpl; lia].
Qed.

Lemma gate_step r method_name w :
  (forall p, fault r p = None) ->
  (Py.contains "resolve" (Py.lower method_name) = true ->
   (if Stats.rollover_due (dt_check r) (stats (limiter w)) then 0
    else resolve_requests_today (stats (limiter w)))
   < resolve_daily_limit (config (limiter w))) ->
  exists w',
    resolve_gate r method_name w = (Ok true, w')
    /\ global_queue (limiter w') = global_queue (limiter w)
    /\ chat_queues (limiter w') = chat_queues (limiter w)
    /\ config (limiter w') = config (limiter w)
    /\ semaphore (limiter w') = semaphore (limiter w)
    /\ slept w' = slept w.
Proof.
  intros Hquiet Hquota.
  destruct (Py.contains "resolve" (Py.lower method_name)) eqn:Hc.
  - rewrite (resolve_gate_eq r method_name w Hc (Hquiet _) (Hquiet _)).
    rewrite check_resolve_limit_eq. cbv zeta.
    specialize (Hquota eq_refl).
    assert (Hlt : (resolve_requests_today
                     (if Stats.rollover_due (dt_check r) (stats (limiter w))
                      then Stats.reset_resolve (dt_check r) (stats (limiter w))
                      else stats (limiter w))
                   <? resolve_daily_limit (config (limiter w))) = true).
    { apply Z.ltb_lt.
      destruct (Stats.rollover_due (dt_check r) (stats (limiter w))); exact Hquota. }
    rewrite Hlt. eexists. repeat split.
  - unfold resolve_gate. rewrite Hc. eexists. repeat split.
Qed.

Lemma bind_ok {A B} (m : M A) (k : A -> M B) w a w1 :
  m w = (Ok a, w1) -> bind m k w = k a w1.
Proof. unfold bind. intros ->. reflexivity. Qed.

Lemma human_delay_step base_delay priority w :
  priority <> 0 ->
  _add_human_delay base_delay priority w
  = (Ok tt, {| limiter := limiter w;
               slept := slept w ++ [(base_delay / inject_Z priority)%Q] |}).
Proof.
  intros Hp. unfold _add_human_delay.
  destruct (Z.eqb_spec priority 0) as [| _]; [contradiction | reflexivity].
Qed.

Lemma paced_step r method_name chat_id priority w :
  (forall p, fault r p = None) ->
  priority <> 0 ->
  0 < global_limit (config (limiter w)) ->
  0 < chat_limit (config (limiter w)) ->
  0 < group_limit (config (limiter w)) ->
  exists w',
    paced r method_name chat_id priority w = (Ok true, w')
    /\ global_queue (limiter w')
       = Window.record
           (Window._cleanup_old_requests (t_global_clean r)
              (global_queue (limiter w)) 60)
           (t_global r)
    /\ (if truthy chat_id
        then chat_queue (str chat_id) (limiter w')
             = Window.record
                 (Window._cleanup_old_requests (t_chat_clean r)
                    (chat_queue (str chat_id) (limiter w))
                    (if _determine_chat_type chat_id method_name then 60 else 1))
                 (t_chat r)
        else chat_queues (limiter w') = chat_queues (limiter w))
    /\ exists waits,
         slept w' = slept w ++ waits ++ [(uniform r / inject_Z priority)%Q]
         /\ (length waits <= 2)%nat.
Proof.
  intros Hquiet Hprio Hg Hc Hgr. unfold paced.
  rewrite (bind_ok _ _ _ _ _ (fault_at_none r AtRecordRequest w (Hquiet _))).
  set (w3 := {| limiter := set_stats (Stats.record_request (dt_request r)) (limiter w);
                slept := slept w |}).
  rewrite (bind_ok (modify (set_stats (Stats.record_request (dt_request r)))) _ w tt w3 eq_refl).
  rewrite (bind_ok _ _ _ _ _ (fault_at_none r AtGlobalLimit w3 (Hquiet _))).
  destruct (global_step (t_global r) (t_global_clean r) w3 Hg)
    as (w4 & Hglobal & Hg4 & Hc4 & Hcfg4 & _ & waits_g & Hsl4).
  rewrite (bind_ok _ _ _ _ _ Hglobal).
  assert (Hchat : exists w5 waits_c,
            (if truthy chat_id then
               bind (fault_at r AtChatLimit)
                 (fun _ => _wait_for_chat_limit (str chat_id)
                             (_determine_chat_type chat_id method_name)
                             (t_chat r) (t_chat_clean r))
             else ret tt) w4 = (Ok tt, w5)
            /\ global_queue (limiter w5) = global_queue (limiter w4)
            /\ (if truthy chat_id
                then chat_queue (str chat_id) (limiter w5)
                     = Window.record
                         (Window._cleanup_old_requests (t_chat_clean r)
                            (chat_queue (str chat_id) (limiter w4))
                            (if _determine_chat_type chat_id method_name then 60 else 1))
                         (t_chat r)
                else chat_queues (limiter w5) = chat_queues (limiter w4))
            /\ slept w5 = slept w4 ++ waits_c
            /\ (length waits_c <= 1)%nat).
  { destruct (truthy chat_id).
    - rewrite (bind_ok _ _ _ _ _ (fault_at_none r AtChatLimit w4 (Hquiet _))).
      destruct (chat_step (str chat_id) (_determine_chat_type chat_id method_name)
                  (t_chat r) (t_chat_clean r) w4)
        as (w5 & Hstep & Hq5 & Hg5 & _ & _ & waits_c & Hsl5 & Hlen).
      { rewrite Hcfg4. simpl.
        destruct (_determine_chat_type chat_id method_name); assumption. }
      exists w5, waits_c. repeat split; assumption.
    - exists w4, []. rewrite app_nil_r. repeat split. simpl. lia. }
  destruct Hchat as (w5 & waits_c & Hchat & Hg5 & Hq5 & Hsl5 & Hlen_c).
  rewrite (bind_ok _ _ _ _ _ Hchat).
  rewrite (bind_ok _ _ _ _ _ (fault_at_none r AtHumanDelay w5 (Hquiet _))).
  rewrite (bind_ok _ _ _ _ _ (human_delay_step (uniform r) priority w5 Hprio)).
  unfold ret. eexists. split; [reflexivity |]. simpl limiter. simpl slept.
  split; [rewrite Hg5, Hg4; reflexivity |].
  split.
  - destruct (truthy chat_id).
    + rewrite Hq5. unfold chat_queue. rewrite Hc4. reflexivity.
    + rewrite Hq5, Hc4. reflexivity.
  - destruct Hsl4 as (Hsl4 & Hlen_g).
    exists (waits_g ++ waits_c). split.
    + rewrite Hsl5, Hsl4. simpl. rewrite <- !app_assoc. reflexivity.
    + rewrite length_app. lia.
Qed.

Lemma admission_grant_path r method_name chat_id priority w :
  (forall p, fault r p = None) ->
  0 < semaphore (limiter w) ->
  priority <> 0 ->
  0 < global_limit (config (limiter w)) ->
  0 < chat_limit (config (limiter w)) ->
  0 < group_limit (config (limiter w)) ->
  (Py.contains "resolve" (Py.lower method_name) = true ->
   (if Stats.rollover_due (dt_check r) (stats (limiter w)) then 0
    else resolve_requests_today (stats (limiter w)))
   < resolve_daily_limit (config (limiter w))) ->
  exists w',
    admission r method_name chat_id priority w = (Ok true, w')
    /\ global_queue (limiter w')
       = Window.record
           (Window._cleanup_old_requests (t_global_clean r)
              (global_queue (limiter w)) 60)
           (t_global r)
    /\ (if truthy chat_id
        then chat_queue (str chat_id) (limiter w')
             = Window.record
                 (Window._cleanup_old_requests (t_chat_clean r)
                    (chat_queue (str chat_id) (limiter w))
                    (if _determine_chat_type chat_id method_name then 60 else 1))
                 (t_chat r)
        else chat_queues (limiter w') = chat_queues (limiter w))
    /\ exists waits,
         slept w' = slept w ++ waits ++ [(uniform r / inject_Z priority)%Q]
         /\ (length waits <= 2)%nat.
Proof.
  intros Hquiet Hslot Hprio Hg Hc Hgr Hquota.
  destruct (gate_step r method_name w Hquiet Hquota)
    as (w1 & Hgate & Hg1 & Hc1 & Hcfg1 & Hsem1 & Hsl1).
  set (w2 := {| limiter := set_semaphore (semaphore (limiter w) - 1) (limiter w1);
                slept := slept w1 |}).
  destruct (paced_step r method_name chat_id priority w2 Hquiet Hprio)
    as (w' & Hpaced & Hg' & Hq' & Hsl'); try (simpl; rewrite Hcfg1; assumption).
  assert (Hadm : admission r method_name chat_id priority w = (Ok true, w')).
  { unfold admission. rewrite (bind_ok _ _ _ _ _ Hgate).
    change (gated r method_name chat_id priority w1 = (Ok true, w')).
    unfold gated.
    rewrite (bind_ok _ _ _ _ _ (fault_at_none r AtSemaphore w1 (Hquiet _))).
    unfold with_semaphore.
    rewrite (bind_ok (gets semaphore) _ w1 (semaphore (limiter w1)) w1 eq_refl).
    rewrite Hsem1.
    destruct (Z.ltb_spec 0 (semaphore (limiter w))) as [_ | Hno]; [| lia].
    rewrite (bind_ok (modify (set_semaphore (semaphore (limiter w) - 1))) _ w1 tt w2
               eq_refl).
    unfold on_raise. rewrite Hpaced. reflexivity. }
  exists w'. split; [exact Hadm |].
  split; [rewrite Hg'; simpl; rewrite Hg1; reflexivity |].
  split.
  - destruct (truthy chat_id).
    + rewrite Hq'. unfold chat_queue. simpl. rewrite Hc1. reflexivity.
    + rewrite Hq'. simpl. exact Hc1.
  - destruct Hsl' as (waits & Hsl' & Hlen). exists waits.
    split; [| exact Hlen]. rewrite Hsl'. simpl. rewrite Hsl1. reflexivity.
Qed.

(** X7.  With no unexpected failure, a free slot, a non-zero priority,
    positive limits and quota left for a resolve-class name, [acquire]
    grants; the global window is then the evicted window plus the
    instant read on entry to [_wait_for_global_limit], the window of
    [str(chat_id)] likewise for a truthy [chat_id] (over 60 s for a
    group method, 1 s otherwise), and the last sleep is the human delay
    [uniform / priority]. *)
Theorem acquire_grants_and_records (r : Readings) (method_name : string)
    (chat_id : option chat_ref) (priority : Z) (w : World) :
  (forall p, fault r p = None) ->
  0 < semaphore (limiter w) ->
  priority <> 0 ->
  0 < global_limit (config (limiter w)) ->
  0 < chat_limit (config (limiter w)) ->
  0 < group_limit (config (limiter w)) ->
  (Py.contains "resolve" (Py.lower method_name) = true ->
   (if Stats.rollover_due (dt_check r) (stats (limiter w)) then 0
    else resolve_requests_today (stats (limiter w)))
   < resolve_daily_limit (config (limiter w))) ->
  exists w',
    acquire r method_name chat_id priority w = (Yielded true YieldGranted, w')
    /\ global_queue (limiter w')
       = Window.record
           (Window._cleanup_old_requests (t_global_clean r)
              (global_queue (limiter w)) 60)
           (t_global r)
    /\ (if truthy chat_id
        then chat_queue (str chat_id) (limiter w')
             = Window.record
                 (Window._cleanup_old_requests (t_chat_clean r)
                    (chat_queue (str chat_id) (limiter w))
                    (if _determine_chat_type chat_id method_name then 60 else 1))
                 (t_chat r)
        else chat_queues (limiter w') = chat_queues (limiter w))
    /\ exists waits,
         slept w' = slept w ++ waits ++ [(uniform r / inject_Z priority)%Q]
         /\ (length waits <= 2)%nat.
Proof.
  intros Hquiet Hslot Hprio Hg Hc Hgr Hquota.
  destruct (admission_grant_path r method_name chat_id priority w
              Hquiet Hslot Hprio Hg Hc Hgr Hquota) as (w' & Hadm & Hrest).
  exists w'. unfold acquire. rewrite Hadm. split; [reflexivity | exact Hrest].
Qed.

Lemma acquire_grants_and_records_witness :
  exists w',
    acquire (Scenario.at_time 100) "get_chat_members" (Some (ChatInt 42)) 3
            Scenario.twice_throttled
    = (Yielded true YieldGranted, w')
    /\ chat_queue "42" (limiter w') = [100%Q].
Proof.
  destruct (acquire_grants_and_records (Scenario.at_time 100) "get_chat_members"
              (Some (ChatInt 42)) 3 Scenario.twice_throttled)
    as (w' & Hacq & _ & Hq & _).
  - intros p. reflexivity.
  - vm_compute. reflexivity.
  - discriminate.
  - vm_compute. reflexivity.
  - vm_compute. reflexivity.
  - vm_compute. reflexivity.
  - intros H. vm_compute in H. discriminate.
  - exists w'. split; [exact Hacq |].
    change (chat_queue "42" (limiter w')
            = Window.record
                (Window._cleanup_old_requests 100
                   (chat_queue "42" (limiter Scenario.twice_throttled)) 60) 100) in Hq.
    rewrite Hq. vm_compute. reflexivity.
Defined.

End GrantPath.

(** ** A ceiling that is not positive *)

Section Refusing.
Import Eff Hoare Limiter Invariants.

Lemma refusing_stats f L : refusing L -> refusing (set_stats f L).
Proof. intros H. exact H. Qed.

Lemma refusing_semaphore v L : refusing L -> refusing (set_semaphore v L).
Proof. intros H. exact H. Qed.

(** On an empty window a ceiling of zero or less makes
    [_wait_for_global_limit] read [queue[0]] of an empty deque. *)
Lemma global_refuses now now_c :
  spec (on_limiter refusing) (_wait_for_global_limit now now_c)
       (fun _ _ => False)
       (fun e w => e = Py.IndexError /\ on_limiter refusing w)
       (fun _ => False).
Proof.
  intros w [Hlimit Hqueue].
  unfold _wait_for_global_limit, bind, gets, modify, lift. simpl limiter.
  rewrite Hqueue. simpl. unfold limit_wait. simpl length.
  destruct (Z.leb_spec (global_limit (config (limiter w))) (Z.of_nat 0)) as [_ | Hlt];
    [| simpl in Hlt; lia].
  split; [reflexivity |]. split; [exact Hlimit | reflexivity].
Qed.

Lemma fault_at_refusing r p :
  spec (on_limiter refusing) (fault_at r p)
       (fun _ => on_limiter refusing)
       (fun e w => (e = Py.IndexError \/ exists p, fault r p = Some e)
                   /\ on_limiter refusing w)
       (fun _ => False).
Proof.
  intros w Hw. unfold fault_at. destruct (fault r p) as [e |] eqn:Hp; simpl; eauto.
Qed.

Lemma modify_refusing r f :
  (forall L, refusing L -> refusing (f L)) ->
  spec (on_limiter refusing) (modify f)
       (fun _ => on_limiter refusing)
       (fun e w => (e = Py.IndexError \/ exists p, fault r p = Some e)
                   /\ on_limiter refusing w)
       (fun _ => False).
Proof. intros Hf. apply spec_modify. intros w Hw. apply Hf. exact Hw. Qed.

Lemma paced_refuses r method_name chat_id priority :
  spec (on_limiter refusing) (paced r method_name chat_id priority)
       (fun _ _ => False)
       (fun e w => (e = Py.IndexError \/ exists p, fault r p = Some e)
                   /\ on_limiter refusing w)
       (fun _ => False).
Proof.
  unfold paced.
  eapply spec_bind; [apply fault_at_refusing | intros ?].
  eapply spec_bind; [apply modify_refusing, refusing_stats | intros ?].
  eapply spec_bind; [apply fault_at_refusing | intros ?].
  eapply spec_bind with (R := fun _ _ => False); [| intros ? w []].
  eapply spec_weaken; [apply global_refuses | auto | auto | | auto].
  intros e w [-> Hw]. auto.
Qed.

Lemma resolve_gate_refusing r method_name :
  spec (on_limiter refusing) (resolve_gate r method_name)
       (fun _ => on_limiter refusing)
       (fun e w => (e = Py.IndexError \/ exists p, fault r p = Some e)
                   /\ on_limiter refusing w)
       (fun _ => False).
Proof.
  unfold resolve_gate.
  destruct (Py.contains "resolve" (Py.lower method_name)); [| apply spec_ret; auto].
  eapply spec_bind; [apply fault_at_refusing | intros ?].
  eapply spec_bind with (R := fun _ : bool => on_limiter refusing).
  { unfold check_resolve_limit.
    eapply spec_bind with (R := fun _ : bool => on_limiter refusing);
      [apply spec_gets; auto | intros due].
    eapply spec_bind with (R := fun _ : unit => on_limiter refusing);
      [| intros ?; apply spec_gets; auto].
    destruct due; [apply modify_refusing, refusing_stats | apply spec_ret; auto]. }
  intros ok. destruct ok; simpl; [| apply spec_ret; auto].
  eapply spec_bind; [apply fault_at_refusing | intros ?].
  eapply spec_bind; [apply modify_refusing, refusing_stats | intros ?].
  apply spec_ret. auto.
Qed.

Lemma admission_refuses r method_name chat_id priority :
  spec (on_limiter refusing) (admission r method_name chat_id priority)
       (fun granted w => granted = false /\ on_limiter refusing w)
       (fun e w => (e = Py.IndexError \/ exists p, fault r p = Some e)
                   /\ on_limiter refusing w)
       (on_limiter refusing).
Proof.
  unfold admission.
  eapply spec_bind with (R := fun _ : bool => on_limiter refusing).
  { eapply spec_weaken; [apply resolve_gate_refusing | | | | ].
    - intros ? H; exact H.
    - intros ? ? H; exact H.
    - intros ? ? H; exact H.
    - intros ? []. }
  intros proceed. destruct proceed; simpl; [| apply spec_ret; auto].
  unfold gated.
  eapply spec_bind.
  { eapply spec_weaken; [apply (fault_at_refusing r AtSemaphore) | | | | ].
    - intros ? H; exact H.
    - intros ? ? H; exact H.
    - intros ? ? H; exact H.
    - intros ? []. }
  intros ?. unfold with_semaphore.
  eapply spec_bind with (R := fun _ : Z => on_limiter refusing);
    [apply spec_gets; auto | intros v].
  destruct (0 <? v); [| apply spec_block; auto].
  eapply spec_bind with (R := fun _ : unit => on_limiter refusing).
  { apply spec_modify. intros w Hw. exact Hw. }
  intros ?. apply spec_on_raise.
  eapply spec_weaken; [apply paced_refuses | | | | ].
  - intros ? H; exact H.
  - intros ? ? [].
  - intros e w [He Hw]. split; [exact He | exact Hw].
  - intros ? [].
Qed.

(** X8.  A limiter whose [global_limit] is zero or negative and whose global
    window is empty never grants: every [acquire] ends without
    [yield True], and leaves the window empty, so that this holds for
    every later call as well.  When nothing else fails and a slot is
    free, a call that is not of the resolve class is refused through the
    [IndexError] of [queue[0]]. *)
Theorem nonpositive_global_limit_never_grants (r : Readings) (method_name : string)
    (chat_id : option chat_ref) (priority : Z) (w : World) :
  global_limit (config (limiter w)) <= 0 ->
  global_queue (limiter w) = [] ->
  let out := acquire r method_name chat_id priority w in
  (forall at_, fst out <> Yielded true at_)
  /\ global_limit (config (limiter (snd out))) <= 0
  /\ global_queue (limiter (snd out)) = []
  /\ ((forall p, fault r p = None) ->
      0 < semaphore (limiter w) ->
      Py.contains "resolve" (Py.lower method_name) = false ->
      fst out = Yielded false (YieldHandler Py.IndexError)).
Proof.
  intros Hlimit Hqueue. cbv zeta.
  assert (Hw : on_limiter refusing w) by (split; assumption).
  pose proof (admission_refuses r method_name chat_id priority w Hw) as Hadm.
  assert (Hquiet : (forall p, fault r p = None) ->
                   0 < semaphore (limiter w) ->
                   Py.contains "resolve" (Py.lower method_name) = false ->
                   exists w', admission r method_name chat_id priority w
                              = (Raise Py.IndexError, w')).
  { intros Hnone Hslot Hc.
    unfold admission, bind, resolve_gate. rewrite Hc. simpl.
    unfold gated, bind, fault_at. rewrite Hnone.
    unfold with_semaphore, bind, gets, modify, on_raise. simpl.
    destruct (Z.ltb_spec 0 (semaphore (limiter w))) as [_ | Hfull]; [| lia].
    set (w2 := {| limiter := set_semaphore (semaphore (limiter w) - 1) (limiter w);
                  slept := slept w |}).
    pose proof (paced_refuses r method_name chat_id priority w2 Hw) as Hp.
    destruct (paced r method_name chat_id priority w2) as [[b | e |] w3];
      [contradiction | | contradiction].
    destruct Hp as [[-> | [p Hp]] _]; [eauto |].
    rewrite Hnone in Hp. discriminate. }
  unfold acquire.
  destruct (admission r method_name chat_id priority w) as [[[|] | e |] w'].
  - destruct Hadm as [Hb _]. discriminate.
  - destruct Hadm as [_ [Hl Hq]]. simpl. repeat split; try assumption; try discriminate.
    intros H1 H2 H3. destruct (Hquiet H1 H2 H3) as [w'' Heq]. discriminate.
  - destruct Hadm as [_ [Hl Hq]].
    destruct (Py.is_Exception e) eqn:Hexc; simpl; repeat split; try assumption;
      try discriminate.
    + intros H1 H2 H3. destruct (Hquiet H1 H2 H3) as [w'' Heq].
      injection Heq as -> _. reflexivity.
    + intros H1 H2 H3. destruct (Hquiet H1 H2 H3) as [w'' Heq].
      injection Heq as -> _. discriminate.
  - destruct Hadm as [Hl Hq]. simpl. repeat split; try assumption; try discriminate.
    intros H1 H2 H3. destruct (Hquiet H1 H2 H3) as [w'' Heq]. discriminate.
Qed.

Lemma nonpositive_global_limit_never_grants_witness :
  let w := new_world (with_limits 0 1 20 200) in
  fst (acquire (Scenario.at_time 5) "send_message" (Some (ChatInt 42)) 5 w)
  = Yielded false (YieldHandler Py.IndexError).
Proof.
  cbv zeta.
  destruct (nonpositive_global_limit_never_grants (Scenario.at_time 5) "send_message"
              (Some (ChatInt 42)) 5 (new_world (with_limits 0 1 20 200)))
    as (_ & _ & _ & H).
  - simpl. lia.
  - reflexivity.
  - apply H.
    + intros p. reflexivity.
    + simpl. lia.
    + vm_compute. reflexivity.
Defined.

End Refusing.

(** ** A decorated tool call, from entry to reply *)

Section Wrapper.
Import Eff Hoare Limiter.
Context {V : Type}.
Variables I J : RateLimiter -> Prop.
Hypothesis Hcheck :
  forall now w, I (limiter w) -> I (limiter (snd (check_resolve_limit now w))).
Hypothesis Hacquire :
  forall r method_name chat_id priority w,
    I (limiter w) ->
    match acquire r method_name chat_id priority w with
    | (Yielded true _, w') => J (limiter w')
    | (_, w') => I (limiter w')
    end.
Hypothesis Hflood :
  forall now L, J L -> J (set_stats (Stats.record_flood_error now) L).
Hypothesis Hrelease :
  forall L, J L -> I (set_stats Stats.record_success (Release.give_back_slot L)).
Hypothesis Hsuspended :
  forall L, J L -> I (Release.give_back_slot L).

Lemma retry_loop_keeps (K : RateLimiter -> Prop) rate_limiter
    (func : nat -> Retry.attempt V) dt max_retries :
  (rate_limiter = true ->
   forall now L, K L -> K (set_stats (Stats.record_flood_error now) L)) ->
  forall fuel retries calls w run,
    K (limiter w) ->
    Retry.retry_loop fuel func dt max_retries rate_limiter retries calls w = Some run ->
    K (limiter (Retry.world run)) /\ Retry.outcome run <> Blocked.
Proof.
  intros HK.
  induction fuel as [| fuel IH]; intros retries calls w run Hw Hrun;
    cbn [Retry.retry_loop] in Hrun;
    destruct (retries <=? max_retries); try discriminate;
    try (injection Hrun as <-; split; [exact Hw | discriminate]).
  assert (Hnote : forall now, K (limiter (Retry.note_flood rate_limiter now w))).
  { intros now. unfold Retry.note_flood. destruct rate_limiter; [| exact Hw].
    apply HK; [reflexivity | exact Hw]. }
  destruct (func calls) as [v | e];
    [injection Hrun as <-; split; [exact Hw | discriminate] |].
  destruct e; try (injection Hrun as <-; split; [exact Hw | discriminate]).
  destruct (60 <? seconds);
    [injection Hrun as <-; split; [apply Hnote | discriminate] |].
  destruct (max_retries <? retries + 1);
    [injection Hrun as <-; split; [apply Hnote | discriminate] |].
  eapply IH; [| exact Hrun]. apply Hnote.
Qed.

Lemma acquire_yield_point r method_name chat_id priority w :
  match acquire r method_name chat_id priority w with
  | (Yielded true at_, _) => at_ = YieldGranted
  | (Yielded false at_, _) => at_ <> YieldGranted
  | _ => True
  end.
Proof.
  unfold acquire.
  destruct (admission r method_name chat_id priority w) as [[[|] | e |] w'];
    try discriminate; auto.
  destruct (Py.is_Exception e); [discriminate | exact Logic.I].
Qed.

(** What holds of the limiter before a decorated call holds after it,
    whatever the tool does, when the pieces of the wrapper hand it on:
    [I] outside a grant, [J] while the tool runs under a grant. *)
Lemma handle_flood_wait_keeps closes max_retries use_rate_limiter method_name chat_id
    (func : nat -> Retry.attempt V) dt_pre r dt w :
  I (limiter w) ->
  let out := Retry.handle_flood_wait closes max_retries use_rate_limiter
               method_name chat_id func dt_pre r dt w in
  I (limiter (snd out))
  /\ fst out <> Retry.OutOfFuel
  /\ (fst out = Retry.StillWaiting -> use_rate_limiter = true).
Proof.
  intros Hw. cbv zeta. unfold Retry.handle_flood_wait.
  destruct use_rate_limiter.
  - set (pre := if Py.mem method_name Retry.resolve_methods
                then match check_resolve_limit dt_pre w with
                     | (Ok b, w') => (b, w')
                     | (_, w') => (true, w')
                     end
                else (true, w)).
    assert (Hpre : I (limiter (snd pre))).
    { unfold pre. destruct (Py.mem method_name Retry.resolve_methods); [| exact Hw].
      pose proof (Hcheck dt_pre w Hw) as H.
      destruct (check_resolve_limit dt_pre w) as [[b | e |] w']; exact H. }
    destruct pre as [quota_ok w0]. simpl in Hpre.
    destruct quota_ok; simpl; [| split; [exact Hpre | split; [discriminate | auto]]].
    pose proof (Hacquire r method_name chat_id (Retry.priority_of method_name) w0 Hpre)
      as Hacq.
    pose proof (acquire_yield_point r method_name chat_id
                  (Retry.priority_of method_name) w0) as Hshape.
    destruct (acquire r method_name chat_id (Retry.priority_of method_name) w0)
      as [[[|] at_ | e |] w1].
    + subst at_. unfold Retry.finish.
      destruct (_execute_with_retry_ends func dt max_retries true w1) as [run Hrun].
      rewrite Hrun.
      destruct (retry_loop_keeps J true func dt max_retries (fun _ => Hflood)
                  _ _ _ _ _ Hacq Hrun) as [Hrun' Hnb].
      destruct (Retry.outcome run) as [v | e |]; [| | contradiction].
      * simpl. split; [apply Hrelease; exact Hrun' | split; [discriminate | auto]].
      * simpl. destruct (Py.is_Exception e); [destruct closes |]; simpl;
          (split; [first [apply Hrelease | apply Hsuspended]; exact Hrun' |]);
          split; (discriminate || auto).
    + pose proof (release_denied_world closes at_ None w1 Hshape) as Hrel.
      destruct (Release.release closes at_ None w1) as [[e' |] w2]; simpl in *; subst w2;
        (split; [exact Hacq | split; [discriminate | auto]]).
    + simpl. split; [exact Hacq | split; [discriminate | auto]].
    + simpl. auto.
  - unfold Retry.finish.
    destruct (_execute_with_retry_ends func dt max_retries false w) as [run Hrun].
    rewrite Hrun.
    destruct (retry_loop_keeps I false func dt max_retries
                (fun H => ltac:(discriminate H)) _ _ _ _ _ Hw Hrun) as [Hrun' Hnb].
    destruct (Retry.outcome run) as [v | e |]; [| | contradiction];
      simpl; (split; [exact Hrun' | split; discriminate]).
Qed.

End Wrapper.

Section ToolCall.
Import Eff Hoare Limiter.
Context {V : Type}.

Lemma acquire_slots_config v c r method_name chat_id priority w :
  semaphore (limiter w) = v /\ config (limiter w) = c ->
  match acquire r method_name chat_id priority w with
  | (Yielded true _, w') => semaphore (limiter w') = v - 1 /\ config (limiter w') = c
  | (_, w') => semaphore (limiter w') = v /\ config (limiter w') = c
  end.
Proof.
  intros [Hv Hc].
  pose proof (admission_slots r method_name chat_id priority w) as Hs.
  pose proof (acquire_frame (fun L => config L = c) (fun _ _ H => H) (fun _ _ H => H)
                (fun _ _ H => H) r method_name chat_id priority w
                (fun _ _ _ H => H) Hc) as Hcfg.
  rewrite acquire_world in Hcfg. unfold acquire.
  destruct (admission r method_name chat_id priority w) as [[[|] | e |] w'];
    simpl in Hcfg; try (split; [lia | exact Hcfg]).
  destruct (Py.is_Exception e); split; (lia || exact Hcfg).
Qed.

(** X9.  A decorated tool call gives back the concurrency slot it took,
    whatever the tool does (return, throttle signals, any exception) and
    however the admission went, and it never changes the configuration;
    the retry loop always comes to an end.  This holds whether or not
    the context manager closes the generator. *)
Theorem tool_call_returns_its_slot (closes : bool) (max_retries : Z)
    (use_rate_limiter : bool)
    (method_name : string) (chat_id : option chat_ref)
    (func : nat -> Retry.attempt V) (dt_pre : Py.datetime) (r : Readings)
    (dt : nat -> Py.datetime) (w : World) :
  let out := Retry.handle_flood_wait closes max_retries use_rate_limiter
               method_name chat_id func dt_pre r dt w in
  semaphore (limiter (snd out)) = semaphore (limiter w)
  /\ config (limiter (snd out)) = config (limiter w)
  /\ fst out <> Retry.OutOfFuel.
Proof.
  cbv zeta.
  set (v := semaphore (limiter w)). set (c := config (limiter w)).
  destruct (handle_flood_wait_keeps (V := V)
              (fun L => semaphore L = v /\ config L = c)
              (fun L => semaphore L = v - 1 /\ config L = c))
    with (closes := closes)
         (max_retries := max_retries) (use_rate_limiter := use_rate_limiter)
         (method_name := method_name) (chat_id := chat_id) (func := func)
         (dt_pre := dt_pre) (r := r) (dt := dt) (w := w)
    as ([Hs Hc] & Hfuel & _).
  - intros now w0 H. rewrite check_resolve_limit_eq. cbv zeta. simpl. exact H.
  - intros r0 m0 c0 p0 w0 H. apply acquire_slots_config. exact H.
  - intros now L H. exact H.
  - intros L [Hs Hc]. simpl. split; [lia | exact Hc].
  - intros L [Hs Hc]. simpl. split; [lia | exact Hc].
  - split; reflexivity.
  - auto.
Qed.

Lemma resolve_gate_within r method_name w :
  0 <= resolve_requests_today (stats (limiter w))
    <= resolve_daily_limit (config (limiter w)) ->
  let w' := snd (resolve_gate r method_name w) in
  0 <= resolve_requests_today (stats (limiter w'))
    <= resolve_daily_limit (config (limiter w'))
  /\ config (limiter w') = config (limiter w).
Proof.
  intros Hw. cbv zeta. unfold resolve_gate.
  destruct (Py.contains "resolve" (Py.lower method_name)); [| split; [exact Hw | reflexivity]].
  unfold bind, fault_at.
  destruct (fault r AtResolveCheck); simpl; [split; [exact Hw | reflexivity] |].
  rewrite check_resolve_limit_eq. cbv zeta.
  set (s1 := if Stats.rollover_due (dt_check r) (stats (limiter w))
             then Stats.reset_resolve (dt_check r) (stats (limiter w))
             else stats (limiter w)).
  assert (Hs1 : 0 <= resolve_requests_today s1 <= resolve_daily_limit (config (limiter w))).
  { unfold s1. destruct (Stats.rollover_due (dt_check r) (stats (limiter w)));
      simpl; lia. }
  destruct (Z.ltb_spec (resolve_requests_today s1)
              (resolve_daily_limit (config (limiter w)))) as [Hlt | Hge]; simpl.
  - destruct (fault r AtResolveRecord); simpl; [split; [exact Hs1 | reflexivity] |].
    split; [| reflexivity].
    unfold Stats.record_resolve_request.
    destruct (Stats.rollover_due (dt_resolve r) s1); simpl; lia.
  - split; [exact Hs1 | reflexivity].
Qed.

(** X10.  Through a decorated tool call the daily counter of resolve
    operations stays between zero and [resolve_daily_limit]: the quota
    is never overdrawn, on any path of the wrapper and of [acquire]. *)
Theorem tool_call_keeps_daily_quota (closes : bool) (max_retries : Z)
    (use_rate_limiter : bool)
    (method_name : string) (chat_id : option chat_ref)
    (func : nat -> Retry.attempt V) (dt_pre : Py.datetime) (r : Readings)
    (dt : nat -> Py.datetime) (w : World) :
  0 <= resolve_requests_today (stats (limiter w))
    <= resolve_daily_limit (config (limiter w)) ->
  let w' := snd (Retry.handle_flood_wait closes max_retries use_rate_limiter
                   method_name chat_id func dt_pre r dt w) in
  0 <= resolve_requests_today (stats (limiter w'))
    <= resolve_daily_limit (config (limiter w')).
Proof.
  intros Hw. cbv zeta.
  set (K := fun L => 0 <= resolve_requests_today (stats L)
                       <= resolve_daily_limit (config L)).
  destruct (handle_flood_wait_keeps (V := V) K K)
    with (closes := closes)
         (max_retries := max_retries) (use_rate_limiter := use_rate_limiter)
         (method_name := method_name) (chat_id := chat_id) (func := func)
         (dt_pre := dt_pre) (r := r) (dt := dt) (w := w)
    as (H & _ & _).
  - intros now w0 H. rewrite check_resolve_limit_eq. cbv zeta. unfold K in *. simpl.
    destruct (Stats.rollover_due now (stats (limiter w0))); simpl; lia.
  - intros r0 m0 c0 p0 w0 H.
    assert (Hk : K (limiter (snd (acquire r0 m0 c0 p0 w0)))).
    { unfold K in *.
      pose proof (acquire_quota_is_gate r0 m0 c0 p0 w0) as Hq.
      unfold Scenario.quota_state in Hq. injection Hq as Hq _.
      destruct (resolve_gate_within r0 m0 w0 H) as [Hg Hc].
      pose proof (acquire_frame (fun L => config L = config (limiter w0))
                    (fun _ _ H => H) (fun _ _ H => H) (fun _ _ H => H)
                    r0 m0 c0 p0 w0 (fun _ _ _ H => H) eq_refl) as Hcfg.
      simpl in Hcfg. rewrite Hq, Hcfg. rewrite Hc in Hg. exact Hg. }
    destruct (acquire r0 m0 c0 p0 w0) as [[[|] at_ | e |] w1]; exact Hk.
  - intros now L H. exact H.
  - intros L H. exact H.
  - intros L H. exact H.
  - exact Hw.
  - exact H.
Qed.

End ToolCall.

Lemma tool_call_keeps_daily_quota_witness :
  let w' := snd (Retry.handle_flood_wait false 3 true "resolve_username" None
                   (Scenario.throttled 1 5 "id") 0 (Scenario.at_time 0) Scenario.wall
                   (new_world (with_limits 30 1 20 1))) in
  0 <= resolve_requests_today (stats (limiter w'))
    <= resolve_daily_limit (config (limiter w')).
Proof.
  apply (tool_call_keeps_daily_quota (V := string)). simpl. lia.
Defined.

(** ** Health, configuration and the process-wide limiter *)

Section HealthFacts.

Lemma rate_above (a b num : Z) (den : positive) :
  0 < b ->
  Qlt_bool (num # den) (inject_Z a / inject_Z b) = true
  <-> num * b < Z.pos den * a.
Proof.
  intros Hb. unfold Qlt_bool. rewrite negb_true_iff.
  destruct b as [| p | p]; try lia.
  split.
  - intros Hle. destruct (Z.lt_ge_cases (num * Z.pos p) (Z.pos den * a)) as [| Hge];
      [assumption |].
    assert (Hq : Qle_bool (inject_Z a / inject_Z (Z.pos p)) (num # den) = true).
    { apply Qle_bool_iff. unfold Qle, Qdiv, Qmult, Qinv. simpl. lia. }
    congruence.
  - intros Hlt. destruct (Qle_bool _ _) eqn:Hq; [| reflexivity].
    apply Qle_bool_iff in Hq. unfold Qle, Qdiv, Qmult, Qinv in Hq. simpl in Hq. lia.
Qed.

Lemma rate_below (a b num : Z) (den : positive) :
  0 < b ->
  Qlt_bool (inject_Z a / inject_Z b) (num # den) = true
  <-> Z.pos den * a < num * b.
Proof.
  intros Hb. unfold Qlt_bool. rewrite negb_true_iff.
  destruct b as [| p | p]; try lia.
  split.
  - intros Hle. destruct (Z.lt_ge_cases (Z.pos den * a) (num * Z.pos p)) as [| Hge];
      [assumption |].
    assert (Hq : Qle_bool (num # den) (inject_Z a / inject_Z (Z.pos p)) = true).
    { apply Qle_bool_iff. unfold Qle, Qdiv, Qmult, Qinv. simpl. lia. }
    congruence.
  - intros Hlt. destruct (Qle_bool _ _) eqn:Hq; [| reflexivity].
    apply Qle_bool_iff in Hq. unfold Qle, Qdiv, Qmult, Qinv in Hq. simpl in Hq. lia.
Qed.

(** X11.  [is_healthy] in whole numbers, for a tracker in a reachable state
    with [n] acquisitions open: the limiter is healthy when nothing was
    recorded yet, or when more than four fifths of the recorded requests
    have succeeded, fewer than one throttle signal per ten requests was
    seen and the daily quota is not used up.  A healthy limiter
    therefore has fewer than a fifth of its recorded requests still
    running. *)
Theorem is_healthy_in_counts (L : RateLimiter) (n : nat) :
  Tracker.reachable (stats L) n ->
  (Health.is_healthy L = true
   <-> total_requests (stats L) = 0
       \/ (4 * total_requests (stats L) < 5 * successful_requests (stats L)
           /\ 10 * flood_errors (stats L) < total_requests (stats L)
           /\ resolve_requests_today (stats L) < resolve_daily_limit (config L)))
  /\ (Health.is_healthy L = true ->
      5 * Z.of_nat n <= total_requests (stats L)
      /\ (n <> 0%nat -> 5 * Z.of_nat n < total_requests (stats L))).
Proof.
  intros Hreach.
  destruct (tracker_counters _ _ Hreach) as (Hs & Hopen & Hf).
  assert (Hiff : Health.is_healthy L = true
                 <-> total_requests (stats L) = 0
                     \/ (4 * total_requests (stats L) < 5 * successful_requests (stats L)
                         /\ 10 * flood_errors (stats L) < total_requests (stats L)
                         /\ resolve_requests_today (stats L)
                            < resolve_daily_limit (config L))).
  { unfold Health.is_healthy, Stats.success_rate, Stats.flood_rate.
    destruct (Z.eqb_spec (total_requests (stats L)) 0) as [H0 | Hne].
    - split; auto.
    - assert (Hpos : 0 < total_requests (stats L)) by lia.
      rewrite !andb_true_iff, (rate_above _ _ 4 5 Hpos), (rate_below _ _ 1 10 Hpos),
        Z.ltb_lt.
      split.
      + intros [[H1 H2] H3]. right. repeat split; lia.
      + intros [H0 | (H1 & H2 & H3)]; [contradiction |]. repeat split; lia. }
  split; [exact Hiff |].
  intros Hh. apply Hiff in Hh. lia.
Qed.

Lemma is_healthy_in_counts_witness :
  Health.is_healthy (limiter Scenario.just_granted) = false.
Proof.
  destruct (is_healthy_in_counts (limiter Scenario.just_granted) 1
              just_granted_reachable) as [_ H].
  destruct (Health.is_healthy (limiter Scenario.just_granted)); [| reflexivity].
  destruct (H eq_refl) as [_ Hlt]. specialize (Hlt ltac:(discriminate)).
  vm_compute in Hlt. discriminate.
Defined.

End HealthFacts.

Section Settings.
Import Singleton.


(** X13.  [create_client] builds a limiter from the settings but does not
    install it: the process-wide limiter is left as it was.  When none
    existed, the limiter that the tool wrapper then obtains from
    [get_rate_limiter()] carries the default configuration, whatever the
    settings say, and every later [get_rate_limiter] call returns that
    same limiter and ignores its argument. *)
Theorem settings_do_not_reach_the_tools (cfg : TelegramSettings)
    (global : option RateLimiter) (later : option RateLimitConfig) :
  let '(built, threshold, global') := create_client cfg global in
  let '(for_tools, global'') := get_rate_limiter None global' in
  global' = global
  /\ config built
     = from_env (Some (global_rate_limit cfg)) (Some (chat_rate_limit cfg))
         (Some (group_rate_limit cfg)) (Some (settings_resolve_daily_limit cfg))
         (rate_limit_enabled cfg)
  /\ for_tools = match global with
                 | Some L => L
                 | None => new_limiter default_config
                 end
  /\ get_rate_limiter later global'' = (for_tools, global'')
  /\ threshold = (if rate_limit_enabled cfg then 0 else 60).
Proof.
  unfold create_client, get_rate_limiter, create_rate_limiter_from_settings,
    RateLimiter_init.
  destruct global as [L |]; simpl; repeat split.
Qed.

End Settings.

Section HumanDelay.
Import Eff Limiter.

Lemma priority_of_values method_name :
  Retry.priority_of method_name = 5 \/ Retry.priority_of method_name = 3
  \/ Retry.priority_of method_name = 1 \/ Retry.priority_of method_name = 2.
Proof.
  unfold Retry.priority_of.
  destruct (Py.mem method_name Retry.high_priority_methods); [auto |].
  destruct (Py.mem method_name Retry.medium_priority_methods); [auto |].
  destruct (Py.mem method_name Retry.low_priority_methods); auto.
Qed.

(** X14.  The human delay of a decorated tool: the wrapper only passes the
    priorities 1, 2, 3 and 5, so [_add_human_delay] never divides by
    zero, and for a draw between [min_delay] and [max_delay] it sleeps
    once, between a fifth of [min_delay] and [max_delay]. *)
Theorem tool_delay_bounds (method_name : string) (base_delay lo hi : Q) (w : World) :
  (0 <= lo)%Q -> (lo <= base_delay)%Q -> (base_delay <= hi)%Q ->
  exists delay,
    _add_human_delay base_delay (Retry.priority_of method_name) w
    = (Ok tt, {| limiter := limiter w; slept := slept w ++ [delay] |})
    /\ (lo / 5 <= delay)%Q /\ (delay <= hi)%Q.
Proof.
  intros Hlo Hbase Hhi.
  exists (base_delay / inject_Z (Retry.priority_of method_name))%Q.
  unfold _add_human_delay.
  destruct (priority_of_values method_name) as [-> | [-> | [-> | ->]]]; simpl;
    (split; [reflexivity |]);
    unfold Qdiv; cbn [Qinv inject_Z Qnum Qden]; split.
  all: lra.
Qed.

Lemma tool_delay_bounds_witness :
  exists delay,
    _add_human_delay (3 # 10) (Retry.priority_of "send_message")
      (new_world default_config)
    = (Ok tt, {| limiter := new_limiter default_config; slept := [] ++ [delay] |})
    /\ (min_delay default_config / 5 <= delay)%Q
    /\ (delay <= max_delay default_config)%Q.
Proof.
  apply (tool_delay_bounds "send_message" (3 # 10) (min_delay default_config)
           (max_delay default_config) (new_world default_config));
    vm_compute; discriminate.
Defined.

End HumanDelay.

(** ** The retry loop, from the first invocation to its end *)

Section RetryLoop.
Import Retry.
Context {V : Type}.
Variables (func : nat -> attempt V) (dt : nat -> Py.datetime).
Variables (max_retries : Z) (rate_limiter : bool).

Lemma retry_loop_returned v :
  forall fuel retries calls w run,
    retry_loop fuel func dt max_retries rate_limiter retries calls w = Some run ->
    outcome run = Ok (Some v) ->
    exists j : nat,
      retries + Z.of_nat j <= max_retries
      /\ (forall i, (i < j)%nat ->
            exists seconds,
              func (calls + i)%nat = Raises (Py.FloodWaitError seconds) /\ seconds <= 60)
      /\ func (calls + j)%nat = Returns v
      /\ invocations run = S (calls + j)
      /\ Retry.retries run = retries + Z.of_nat j.
Proof.
  induction fuel as [| fuel IH]; intros retries calls w run Hrun Hout;
    cbn [retry_loop] in Hrun;
    destruct (Z.leb_spec retries max_retries) as [Hle | Hgt];
    try discriminate;
    try (injection Hrun as <-; discriminate).
  destruct (func calls) as [v' | e] eqn:Hf.
  { injection Hrun as <-. simpl in Hout. injection Hout as ->.
    exists 0%nat. rewrite Nat.add_0_r. repeat split; try lia; try assumption.
    simpl. lia. }
  destruct e; try (injection Hrun as <-; discriminate).
  destruct (Z.ltb_spec 60 seconds) as [| Hs]; [injection Hrun as <-; discriminate |].
  destruct (Z.ltb_spec max_retries (retries + 1)) as [| Hmore];
    [injection Hrun as <-; discriminate |].
  destruct (IH _ _ _ _ Hrun Hout) as (j & Hj & Hfloods & Hret & Hinv & Hretries).
  exists (S j). repeat split.
  - lia.
  - intros i Hi. destruct i as [| i].
    + rewrite Nat.add_0_r. eauto.
    + rewrite Nat.add_succ_r. apply Hfloods. lia.
  - rewrite Nat.add_succ_r. exact Hret.
  - rewrite Hinv. lia.
  - rewrite Hretries. lia.
Qed.

Lemma retry_loop_returns v :
  forall (j : nat) fuel retries calls w,
    (j < fuel)%nat ->
    retries + Z.of_nat j <= max_retries ->
    (forall i, (i < j)%nat ->
       exists seconds,
         func (calls + i)%nat = Raises (Py.FloodWaitError seconds) /\ seconds <= 60) ->
    func (calls + j)%nat = Returns v ->
    exists run,
      retry_loop fuel func dt max_retries rate_limiter retries calls w = Some run
      /\ outcome run = Ok (Some v).
Proof.
  induction j as [| j IH]; intros fuel retries calls w Hfuel Hj Hfloods Hret;
    (destruct fuel as [| fuel]; [lia |]); cbn [retry_loop];
    (destruct (Z.leb_spec retries max_retries); [| lia]).
  - rewrite Nat.add_0_r in Hret. rewrite Hret. eauto.
  - destruct (Hfloods 0%nat ltac:(lia)) as (seconds & Hf & Hs).
    rewrite Nat.add_0_r in Hf. rewrite Hf.
    destruct (Z.ltb_spec 60 seconds); [lia |].
    destruct (Z.ltb_spec max_retries (retries + 1)); [lia |].
    apply IH; try lia.
    + intros i Hi. destruct (Hfloods (S i) ltac:(lia)) as (s' & Hf' & Hs').
      rewrite Nat.add_succ_r in Hf'. eauto.
    + rewrite Nat.add_succ_r in Hret. exact Hret.
Qed.

(** An exception that the loop does not retry: anything but a
    [FloodWaitError], a [FloodWaitError] of more than 60 seconds, or one
    that arrives when [max_retries] retries were made. *)
Lemma retry_loop_raises e :
  forall (j : nat) fuel retries calls w,
    (j < fuel)%nat ->
    retries + Z.of_nat j <= max_retries ->
    (forall i, (i < j)%nat ->
       exists seconds,
         func (calls + i)%nat = Raises (Py.FloodWaitError seconds) /\ seconds <= 60) ->
    func (calls + j)%nat = Raises e ->
    match e with
    | Py.FloodWaitError seconds => 60 < seconds \/ retries + Z.of_nat j = max_retries
    | _ => True
    end ->
    exists run,
      retry_loop fuel func dt max_retries rate_limiter retries calls w = Some run
      /\ outcome run = Raise e.
Proof.
  induction j as [| j IH]; intros fuel retries calls w Hfuel Hj Hfloods Hraise Hlast;
    (destruct fuel as [| fuel]; [lia |]); cbn [retry_loop];
    (destruct (Z.leb_spec retries max_retries); [| lia]).
  - rewrite Nat.add_0_r in Hraise. rewrite Hraise.
    destruct e; eauto.
    destruct (Z.ltb_spec 60 seconds); [eauto |].
    destruct (Z.ltb_spec max_retries (retries + 1)); [eauto | lia].
  - destruct (Hfloods 0%nat ltac:(lia)) as (seconds & Hf & Hs).
    rewrite Nat.add_0_r in Hf. rewrite Hf.
    destruct (Z.ltb_spec 60 seconds); [lia |].
    destruct (Z.ltb_spec max_retries (retries + 1)); [lia |].
    apply IH; try lia.
    + intros i Hi. destruct (Hfloods (S i) ltac:(lia)) as (s' & Hf' & Hs').
      rewrite Nat.add_succ_r in Hf'. eauto.
    + rewrite Nat.add_succ_r in Hraise. exact Hraise.
    + destruct e; auto. destruct Hlast as [? | Hlast]; [auto | right; lia].
Qed.

(** X15.  [_execute_with_retry] always ends, and it returns the tool's value
    [v] exactly when some invocation [k <= max_retries] returns [v] and
    every invocation before it raised a [FloodWaitError] of at most 60
    seconds; the tool was then invoked [k + 1] times and [retries] is
    [k]. *)
Theorem retry_returns_iff (w : World) :
  exists run,
    _execute_with_retry func dt max_retries rate_limiter w = Some run
    /\ forall v,
         outcome run = Ok (Some v)
         <-> exists k : nat,
               Z.of_nat k <= max_retries
               /\ (forall i, (i < k)%nat ->
                     exists seconds,
                       func i = Raises (Py.FloodWaitError seconds) /\ seconds <= 60)
               /\ func k = Returns v
               /\ invocations run = S k
               /\ Retry.retries run = Z.of_nat k.
Proof.
  destruct (_execute_with_retry_ends func dt max_retries rate_limiter w) as [run Hrun].
  exists run. split; [exact Hrun |]. intros v. split.
  - intros Hout.
    destruct (retry_loop_returned v _ _ _ _ _ Hrun Hout)
      as (j & Hj & Hfloods & Hret & Hinv & Hretries).
    exists j. simpl in *. repeat split; try assumption; lia.
  - intros (k & Hk & Hfloods & Hret & _).
    destruct (retry_loop_returns v k (enough_fuel max_retries) 0 0%nat w)
      as (run' & Hrun' & Hout);
      [unfold enough_fuel; lia | lia | exact Hfloods | exact Hret |].
    unfold _execute_with_retry in Hrun. rewrite Hrun in Hrun'.
    injection Hrun' as <-. exact Hout.
Qed.

Lemma retry_loop_bounds :
  forall fuel retries calls w run,
    retries <= max_retries ->
    retry_loop fuel func dt max_retries rate_limiter retries calls w = Some run ->
    outcome run <> Ok None
    /\ (calls < invocations run)%nat
    /\ Z.of_nat (invocations run - calls) <= max_retries - retries + 1
    /\ flood_errors (stats (limiter (world run)))
       <= flood_errors (stats (limiter w)) + Z.of_nat (invocations run - calls)
    /\ exists sl,
         slept (world run) = slept w ++ sl
         /\ S (length sl) = (invocations run - calls)%nat
         /\ List.Forall (fun d => (d <= 60)%Q) sl.
Proof.
  induction fuel as [| fuel IH]; intros retries calls w run Hle Hrun;
    cbn [retry_loop] in Hrun;
    (destruct (Z.leb_spec retries max_retries); [| lia]);
    try discriminate.
  assert (Hnote : forall now,
            flood_errors (stats (limiter (note_flood rate_limiter now w)))
            <= flood_errors (stats (limiter w)) + 1
            /\ slept (note_flood rate_limiter now w) = slept w).
  { intros now. unfold note_flood. destruct rate_limiter; simpl; split; (lia || reflexivity). }
  assert (Hone : forall (out : Run V) r' w',
            outcome out <> Ok None ->
            invocations out = S calls ->
            world out = w' ->
            flood_errors (stats (limiter w')) <= flood_errors (stats (limiter w)) + 1 ->
            slept w' = slept w ->
            Retry.retries out = r' ->
            outcome out <> Ok None
            /\ (calls < invocations out)%nat
            /\ Z.of_nat (invocations out - calls) <= max_retries - retries + 1
            /\ flood_errors (stats (limiter (world out)))
               <= flood_errors (stats (limiter w)) + Z.of_nat (invocations out - calls)
            /\ exists sl,
                 slept (world out) = slept w ++ sl
                 /\ S (length sl) = (invocations out - calls)%nat
                 /\ List.Forall (fun d => (d <= 60)%Q) sl).
  { intros out r' w' Hout Hinv Hw' Hfl Hsl _. rewrite Hinv, Hw'.
    replace (S calls - calls)%nat with 1%nat by lia.
    repeat split; try assumption; try lia.
    exists []. rewrite app_nil_r. repeat split; [assumption | constructor]. }
  destruct (func calls) as [v | e] eqn:Hf.
  { injection Hrun as <-. eapply Hone; simpl; try reflexivity; try lia. discriminate. }
  destruct e;
    try (injection Hrun as <-; eapply Hone; simpl; try reflexivity; try lia; discriminate).
  destruct (Z.ltb_spec 60 seconds) as [| Hs].
  { injection Hrun as <-.
    eapply Hone; simpl; try reflexivity; try apply Hnote. discriminate. }
  destruct (Z.ltb_spec max_retries (retries + 1)) as [| Hmore].
  { injection Hrun as <-.
    eapply Hone; simpl; try reflexivity; try apply Hnote. discriminate. }
  destruct (IH _ _ _ _ Hmore Hrun) as (Hout & Hcalls & Hinv & Hfl & sl & Hsl & Hlen & Hall).
  destruct (Hnote (dt calls)) as [Hfl1 Hsl1].
  repeat split.
  - exact Hout.
  - lia.
  - lia.
  - simpl in Hfl. lia.
  - exists (inject_Z seconds :: sl). repeat split.
    + rewrite Hsl. simpl. rewrite Hsl1, <- app_assoc. reflexivity.
    + simpl. lia.
    + constructor; [| exact Hall]. unfold Qle. simpl. lia.
Qed.

(** X16.  Bounds of [_execute_with_retry].  With [max_retries] negative the
    tool is not invoked at all and the result is [None].  Otherwise the
    result is never that [None]; the tool is invoked at least once and at
    most [max_retries + 1] times; between two invocations the wrapper
    sleeps once, never more than 60 seconds; and the flood counter grows
    by at most one per invocation. *)
Theorem retry_bounds (w : World) :
  exists run,
    _execute_with_retry func dt max_retries rate_limiter w = Some run
    /\ (max_retries < 0 ->
        outcome run = Ok None /\ invocations run = 0%nat /\ world run = w)
    /\ (0 <= max_retries ->
        outcome run <> Ok None
        /\ 1 <= Z.of_nat (invocations run) <= max_retries + 1
        /\ flood_errors (stats (limiter (world run)))
           <= flood_errors (stats (limiter w)) + Z.of_nat (invocations run)
        /\ exists sl,
             slept (world run) = slept w ++ sl
             /\ S (length sl) = invocations run
             /\ List.Forall (fun d => (d <= 60)%Q) sl).
Proof.
  destruct (_execute_with_retry_ends func dt max_retries rate_limiter w) as [run Hrun].
  exists run. split; [exact Hrun |]. split.
  - intros Hneg. unfold _execute_with_retry, enough_fuel in Hrun.
    cbn [retry_loop] in Hrun.
    destruct (Z.leb_spec 0 max_retries); [lia |].
    injection Hrun as <-. repeat split.
  - intros Hpos.
    destruct (retry_loop_bounds _ _ _ _ _ Hpos Hrun)
      as (Hout & Hcalls & Hinv & Hfl & sl & Hsl & Hlen & Hall).
    rewrite Nat.sub_0_r in *.
    repeat split; try assumption; try lia.
    exists sl. repeat split; assumption.
Qed.

End RetryLoop.

Lemma retry_bounds_witness :
  exists run,
    Retry._execute_with_retry (Scenario.throttled 2 5 "sent") Scenario.wall 3 true
      (new_world default_config) = Some run
    /\ Retry.outcome run <> Ok None
    /\ 1 <= Z.of_nat (Retry.invocations run) <= 3 + 1.
Proof.
  destruct (retry_bounds (Scenario.throttled 2 5 "sent") Scenario.wall 3 true
              (new_world default_config)) as (run & Hrun & _ & H).
  destruct (H ltac:(lia)) as (Hout & Hinv & _).
  exists run. repeat split; try assumption; lia.
Defined.

(** ** What the caller of a decorated tool gets *)

Section Replies.
Import Eff Limiter.
Context {V : Type}.

(** The wrapper's own check of the daily quota, for the names of
    [resolve_methods], and the state it leaves. *)
Lemma pre_check_eq method_name dt_pre w :
  (if Py.mem method_name Retry.resolve_methods
   then match check_resolve_limit dt_pre w with
        | (Ok b, w0) => (b, w0)
        | (_, w0) => (true, w0)
        end
   else (true, w))
  = if Py.mem method_name Retry.resolve_methods
    then ((if Stats.rollover_due dt_pre (stats (limiter w)) then 0
           else resolve_requests_today (stats (limiter w)))
          <? resolve_daily_limit (config (limiter w)),
          snd (check_resolve_limit dt_pre w))
    else (true, w).
Proof.
  destruct (Py.mem method_name Retry.resolve_methods); [| reflexivity].
  rewrite check_resolve_limit_eq. cbv zeta. simpl.
  destruct (Stats.rollover_due dt_pre (stats (limiter w))); reflexivity.
Qed.

(** X17.  The two refusals of the wrapper come before the tool is
    invoked.  When the wrapper's own check finds the daily quota used
    up for a name of [resolve_methods], it returns its quota message,
    and the limiter is as that check left it: no request is recorded.
    When the check passes and [acquire] yields [False], it returns its
    rate-limit message, with the limiter as [acquire] left it.  In both
    cases the outcome is the same for every tool body. *)
Theorem refusals_come_before_the_tool (closes : bool) (max_retries : Z)
    (method_name : string) (chat_id : option chat_ref)
    (dt_pre : Py.datetime) (r : Readings) (dt : nat -> Py.datetime) (w : World) :
  let listed := Py.mem method_name Retry.resolve_methods in
  let counter := if Stats.rollover_due dt_pre (stats (limiter w)) then 0
                 else resolve_requests_today (stats (limiter w)) in
  let checked := if listed then snd (check_resolve_limit dt_pre w) else w in
  (listed = true ->
   resolve_daily_limit (config (limiter w)) <= counter ->
   forall func : nat -> Retry.attempt V,
     Retry.handle_flood_wait closes max_retries true method_name chat_id
       func dt_pre r dt w
     = (Retry.ErrorText Retry.quota_text, checked)
     /\ total_requests (stats (limiter checked)) = total_requests (stats (limiter w)))
  /\ (forall at_ w1,
        (listed = true -> counter < resolve_daily_limit (config (limiter w))) ->
        acquire r method_name chat_id (Retry.priority_of method_name) checked
        = (Yielded false at_, w1) ->
        forall func : nat -> Retry.attempt V,
          Retry.handle_flood_wait closes max_retries true method_name chat_id
            func dt_pre r dt w
          = (Retry.ErrorText Retry.denied_text, w1)).
Proof.
  cbv zeta. split.
  - intros Hlisted Hfull func. unfold Retry.handle_flood_wait.
    rewrite pre_check_eq, Hlisted.
    destruct (Z.ltb_spec
                (if Stats.rollover_due dt_pre (stats (limiter w)) then 0
                 else resolve_requests_today (stats (limiter w)))
                (resolve_daily_limit (config (limiter w)))); [lia |].
    split; [reflexivity |].
    rewrite check_resolve_limit_eq. cbv zeta. simpl.
    destruct (Stats.rollover_due dt_pre (stats (limiter w))); reflexivity.
  - intros at_ w1 Hleft Hacq func. unfold Retry.handle_flood_wait.
    rewrite pre_check_eq.
    pose proof (acquire_yield_point r method_name chat_id
                  (Retry.priority_of method_name)
                  (if Py.mem method_name Retry.resolve_methods
                   then snd (check_resolve_limit dt_pre w) else w)) as Hshape.
    rewrite Hacq in Hshape.
    destruct (Py.mem method_name Retry.resolve_methods).
    + destruct (Z.ltb_spec
                  (if Stats.rollover_due dt_pre (stats (limiter w)) then 0
                   else resolve_requests_today (stats (limiter w)))
                  (resolve_daily_limit (config (limiter w)))) as [_ | Hge];
        [| specialize (Hleft eq_refl); lia].
      simpl negb. cbv iota. rewrite Hacq.
      pose proof (release_denied_world closes at_ None w1 Hshape) as Hrel.
      destruct (Release.release closes at_ None w1) as [[e' |] w2] eqn:Hr;
        simpl in Hrel; subst w2; [| reflexivity].
      destruct at_; simpl in Hr; discriminate.
    + simpl negb. cbv iota. rewrite Hacq.
      pose proof (release_denied_world closes at_ None w1 Hshape) as Hrel.
      destruct (Release.release closes at_ None w1) as [[e' |] w2] eqn:Hr;
        simpl in Hrel; subst w2; [| reflexivity].
      destruct at_; simpl in Hr; discriminate.
Qed.

Lemma failure_under_limiter closes max_retries method_name chat_id
    (func : nat -> Retry.attempt V) dt_pre r dt w e :
  fst (Retry.handle_flood_wait closes max_retries true method_name chat_id
         func dt_pre r dt w) = Retry.Failure e ->
  e = Release.didnt_stop \/ Py.is_Exception e = false.
Proof.
  unfold Retry.handle_flood_wait.
  destruct (if Py.mem method_name Retry.resolve_methods
            then match check_resolve_limit dt_pre w with
                 | (Ok b, w0) => (b, w0)
                 | (_, w0) => (true, w0)
                 end
            else (true, w)) as [quota_ok w0].
  destruct quota_ok; simpl; [| discriminate].
  pose proof (acquire_yield_point r method_name chat_id
                (Retry.priority_of method_name) w0) as Hshape.
  unfold acquire in *.
  destruct (admission r method_name chat_id (Retry.priority_of method_name) w0)
    as [[[|] | e0 |] w1].
  - unfold Retry.finish.
    destruct (Retry._execute_with_retry func dt max_retries true w1) as [run |];
      [| discriminate].
    destruct (Retry.outcome run) as [v | e1 |]; simpl; [discriminate | | discriminate].
    destruct (Py.is_Exception e1) eqn:Hexc; simpl; intros [= <-]; auto.
  - simpl. discriminate.
  - destruct (Py.is_Exception e0) eqn:Hexc; simpl.
    + discriminate.
    + intros [= <-]. auto.
  - simpl. discriminate.
Qed.

Lemma pre_check_passes method_name dt_pre w :
  resolve_requests_today (stats (limiter w)) < resolve_daily_limit (config (limiter w)) ->
  0 < resolve_daily_limit (config (limiter w)) ->
  exists w0,
    (if Py.mem method_name Retry.resolve_methods
     then match check_resolve_limit dt_pre w with
          | (Ok b, w0) => (b, w0)
          | (_, w0) => (true, w0)
          end
     else (true, w)) = (true, w0)
    /\ config (limiter w0) = config (limiter w)
    /\ semaphore (limiter w0) = semaphore (limiter w)
    /\ resolve_requests_today (stats (limiter w0))
       < resolve_daily_limit (config (limiter w0)).
Proof.
  intros Hquota Hlimit.
  destruct (Py.mem method_name Retry.resolve_methods); [| eauto].
  rewrite check_resolve_limit_eq. cbv zeta.
  set (s1 := if Stats.rollover_due dt_pre (stats (limiter w))
             then Stats.reset_resolve dt_pre (stats (limiter w))
             else stats (limiter w)).
  assert (Hs1 : resolve_requests_today s1 < resolve_daily_limit (config (limiter w))).
  { unfold s1. destruct (Stats.rollover_due dt_pre (stats (limiter w))); simpl; lia. }
  destruct (Z.ltb_spec (resolve_requests_today s1)
              (resolve_daily_limit (config (limiter w)))); [| lia].
  eexists. split; [reflexivity |]. simpl. auto.
Qed.

(** Under the hypotheses of a grant the wrapper reaches the retry loop,
    and its reply is what [finish] makes of the loop's run. *)
Lemma granted_call closes max_retries method_name chat_id
    (func : nat -> Retry.attempt V) dt_pre r dt w :
  (forall p, fault r p = None) ->
  0 < semaphore (limiter w) ->
  0 < global_limit (config (limiter w)) ->
  0 < chat_limit (config (limiter w)) ->
  0 < group_limit (config (limiter w)) ->
  0 < resolve_daily_limit (config (limiter w)) ->
  resolve_requests_today (stats (limiter w)) < resolve_daily_limit (config (limiter w)) ->
  exists w1,
    Retry.handle_flood_wait closes max_retries true method_name chat_id
      func dt_pre r dt w
    = match Retry.finish (Retry._execute_with_retry func dt max_retries true w1)
              (Release.release closes YieldGranted) with
      | (rep, Some w2) => (rep, w2)
      | (rep, None) => (rep, w1)
      end.
Proof.
  intros Hquiet Hslot Hg Hc Hgr Hlimit Hquota.
  unfold Retry.handle_flood_wait.
  destruct (pre_check_passes method_name dt_pre w Hquota Hlimit)
    as (w0 & -> & Hcfg & Hsem & Hq0).
  simpl negb. cbv iota.
  destruct (admission_grant_path r method_name chat_id
              (Retry.priority_of method_name) w0) as (w1 & Hadm & _);
    try (rewrite ?Hcfg, ?Hsem; assumption).
  { destruct (priority_of_values method_name) as [-> | [-> | [-> | ->]]];
      discriminate. }
  { intros _. destruct (Stats.rollover_due (dt_check r) (stats (limiter w0)));
      [rewrite Hcfg; exact Hlimit | exact Hq0]. }
  exists w1. unfold acquire. rewrite Hadm. reflexivity.
Qed.

(** X18.  Under the rate limiter an [Exception] of the tool does not
    reach the caller as it was raised.  When the tool, after at most
    [max_retries] throttle signals of at most 60 seconds, raises an
    exception [e] that the retry loop does not retry, and the call was
    granted, leaving the [async with] block throws [e] into the
    suspended generator of [acquire]; its [except Exception] clause
    yields a second time, and the caller gets the [RuntimeError] of the
    context manager in place of [e], on every interpreter.  An exception
    outside [Exception] (a cancellation) comes through.  Without the rate
    limiter the caller gets [e] itself.  And whatever the tool does, a
    failure that the caller gets from a rate-limited call is that
    [RuntimeError] or not an [Exception]. *)
Theorem limiter_masks_tool_failures (closes : bool) (max_retries : Z)
    (method_name : string) (chat_id : option chat_ref)
    (func : nat -> Retry.attempt V) (dt_pre : Py.datetime) (r : Readings)
    (dt : nat -> Py.datetime) (w : World) (k : nat) (e : Py.exn) :
  (forall p, fault r p = None) ->
  0 < semaphore (limiter w) ->
  0 < global_limit (config (limiter w)) ->
  0 < chat_limit (config (limiter w)) ->
  0 < group_limit (config (limiter w)) ->
  0 < resolve_daily_limit (config (limiter w)) ->
  resolve_requests_today (stats (limiter w)) < resolve_daily_limit (config (limiter w)) ->
  Z.of_nat k <= max_retries ->
  (forall i, (i < k)%nat ->
     exists seconds,
       func i = Retry.Raises (Py.FloodWaitError seconds) /\ seconds <= 60) ->
  func k = Retry.Raises e ->
  match e with
  | Py.FloodWaitError seconds => 60 < seconds \/ Z.of_nat k = max_retries
  | _ => True
  end ->
  fst (Retry.handle_flood_wait closes max_retries true method_name chat_id
         func dt_pre r dt w)
  = Retry.Failure (if Py.is_Exception e then Release.didnt_stop else e)
  /\ fst (Retry.handle_flood_wait closes max_retries false method_name chat_id
            func dt_pre r dt w)
     = Retry.Failure e
  /\ forall (func' : nat -> Retry.attempt V) e',
       fst (Retry.handle_flood_wait closes max_retries true method_name chat_id
              func' dt_pre r dt w) = Retry.Failure e' ->
       e' = Release.didnt_stop \/ Py.is_Exception e' = false.
Proof.
  intros Hquiet Hslot Hg Hc Hgr Hlimit Hquota Hk Hfloods Hraise Hlast.
  assert (Hloop : forall rate_limiter w1,
            exists run,
              Retry._execute_with_retry func dt max_retries rate_limiter w1 = Some run
              /\ Retry.outcome run = Raise e).
  { intros rate_limiter w1. unfold Retry._execute_with_retry.
    apply (retry_loop_raises func dt max_retries rate_limiter e k);
      [unfold Retry.enough_fuel; lia | lia | exact Hfloods | exact Hraise |].
    destruct e; auto. }
  split; [| split].
  - destruct (granted_call closes max_retries method_name chat_id func dt_pre r dt w
                Hquiet Hslot Hg Hc Hgr Hlimit Hquota) as (w1 & ->).
    destruct (Hloop true w1) as (run & -> & Hout).
    unfold Retry.finish. rewrite Hout. simpl.
    destruct (Py.is_Exception e); reflexivity.
  - unfold Retry.handle_flood_wait.
    destruct (Hloop false w) as (run & -> & Hout).
    unfold Retry.finish. rewrite Hout. reflexivity.
  - intros func' e'. apply failure_under_limiter.
Qed.

(** X19.  A decorated tool call goes through: with no unexpected failure in
    [acquire], a free slot, positive limits and daily quota left, a tool
    that returns [v] after at most [max_retries] throttle signals of at
    most 60 seconds each hands [v] to the caller, with or without the
    rate limiter. *)
Theorem tool_call_goes_through (closes : bool) (max_retries : Z)
    (use_rate_limiter : bool)
    (method_name : string) (chat_id : option chat_ref)
    (func : nat -> Retry.attempt V) (dt_pre : Py.datetime) (r : Readings)
    (dt : nat -> Py.datetime) (w : World) (k : nat) (v : V) :
  (forall p, fault r p = None) ->
  0 < semaphore (limiter w) ->
  0 < global_limit (config (limiter w)) ->
  0 < chat_limit (config (limiter w)) ->
  0 < group_limit (config (limiter w)) ->
  0 < resolve_daily_limit (config (limiter w)) ->
  resolve_requests_today (stats (limiter w)) < resolve_daily_limit (config (limiter w)) ->
  Z.of_nat k <= max_retries ->
  (forall i, (i < k)%nat ->
     exists seconds,
       func i = Retry.Raises (Py.FloodWaitError seconds) /\ seconds <= 60) ->
  func k = Retry.Returns v ->
  fst (Retry.handle_flood_wait closes max_retries use_rate_limiter method_name chat_id
         func dt_pre r dt w) = Retry.Result (Some v).
Proof.
  intros Hquiet Hslot Hg Hc Hgr Hlimit Hquota Hk Hfloods Hret.
  assert (Hloop : forall rate_limiter w1,
            exists run,
              Retry._execute_with_retry func dt max_retries rate_limiter w1 = Some run
              /\ Retry.outcome run = Ok (Some v)).
  { intros rate_limiter w1. unfold Retry._execute_with_retry.
    apply (retry_loop_returns func dt max_retries rate_limiter v k);
      [unfold Retry.enough_fuel; lia | lia | exact Hfloods | exact Hret]. }
  destruct use_rate_limiter.
  - destruct (granted_call closes max_retries method_name chat_id func dt_pre r dt w
                Hquiet Hslot Hg Hc Hgr Hlimit Hquota) as (w1 & ->).
    destruct (Hloop true w1) as (run & -> & Hout).
    unfold Retry.finish. rewrite Hout. reflexivity.
  - unfold Retry.handle_flood_wait.
    destruct (Hloop false w) as (run & -> & Hout).
    unfold Retry.finish. rewrite Hout. reflexivity.
Qed.

End Replies.

Lemma refusals_come_before_the_tool_witness :
  Retry.handle_flood_wait false 3 true "send_message" (Some (ChatInt 42))
    (Scenario.throttled 1 90 "other") 0 (Scenario.at_time 5) Scenario.wall
    (new_world (with_limits 0 1 20 200))
  = (Retry.ErrorText Retry.denied_text,
     snd (Limiter.acquire (Scenario.at_time 5) "send_message" (Some (ChatInt 42)) 5
            (new_world (with_limits 0 1 20 200)))).
Proof.
  destruct (refusals_come_before_the_tool (V := string) false 3 "send_message"
              (Some (ChatInt 42)) 0 (Scenario.at_time 5) Scenario.wall
              (new_world (with_limits 0 1 20 200))) as [_ Hdenied].
  apply (Hdenied (Limiter.YieldHandler Py.IndexError)).
  - intros H. vm_compute in H. discriminate.
  - vm_compute. reflexivity.
Defined.

Lemma limiter_masks_tool_failures_witness :
  fst (Retry.handle_flood_wait false 3 true "send_message" (Some (ChatInt 42))
         (fun _ => Retry.Raises (V := string) (Py.OtherException "ValueError"))
         0 (Scenario.at_time 5) Scenario.wall (new_world default_config))
  = Retry.Failure Release.didnt_stop
  /\ fst (Retry.handle_flood_wait false 3 false "send_message" (Some (ChatInt 42))
            (fun _ => Retry.Raises (V := string) (Py.OtherException "ValueError"))
            0 (Scenario.at_time 5) Scenario.wall (new_world default_config))
     = Retry.Failure (Py.OtherException "ValueError").
Proof.
  destruct (limiter_masks_tool_failures false 3 "send_message" (Some (ChatInt 42))
              (fun _ => Retry.Raises (V := string) (Py.OtherException "ValueError"))
              0 (Scenario.at_time 5) Scenario.wall (new_world default_config)
              0 (Py.OtherException "ValueError")) as (Hmasked & Hplain & _).
  - intros p. reflexivity.
  - vm_compute. reflexivity.
  - vm_compute. reflexivity.
  - vm_compute. reflexivity.
  - vm_compute. reflexivity.
  - vm_compute. reflexivity.
  - vm_compute. reflexivity.
  - lia.
  - intros i Hi. lia.
  - reflexivity.
  - exact Logic.I.
  - split; [exact Hmasked | exact Hplain].
Defined.

Lemma tool_call_goes_through_witness :
  fst (Retry.handle_flood_wait false 3 true "resolve_username" None
         (Scenario.throttled 2 5 "id") 0 (Scenario.at_time 5) Scenario.wall
         (new_world default_config))
  = Retry.Result (Some "id"%string).
Proof.
  apply (tool_call_goes_through false 3 true "resolve_username" None
           (Scenario.throttled 2 5 "id") 0 (Scenario.at_time 5) Scenario.wall
           (new_world default_config) 2 "id"%string).
  - intros p. reflexivity.
  - vm_compute. reflexivity.
  - vm_compute. reflexivity.
  - vm_compute. reflexivity.
  - vm_compute. reflexivity.
  - vm_compute. reflexivity.
  - vm_compute. reflexivity.
  - lia.
  - intros i Hi. exists 5. split; [| lia].
    destruct i as [| [| i]]; [reflexivity | reflexivity | lia].
  - reflexivity.
Defined.
